(** * SignLingoKids: the scene/animation wrapper and the home screen

    A shallow embedding of [src/app/services/three-renderer.service.ts]
    (class [ThreeRenderer]) and of [src/app/tabs/home/home.page.ts]
    (class [HomePage]), together with the small part of the three.js
    library the two classes rely on (vectors, bounding boxes, animation
    actions and the animation mixer).

    Numbers.  JavaScript numbers are modelled by exact rationals [Q]: the
    embedding covers the executions in which every number is finite and
    ignores rounding.  A division whose divisor is zero yields a value
    that is not a finite number in JavaScript (an infinity or NaN); it is
    made explicit by [jsdiv], which returns [None] there.

    Asynchrony.  An [async] method runs up to its [await], is suspended,
    and is resumed with the outcome of the awaited load.  Each such method
    is split in the part before the [await] ([_begin]) and the part after
    it ([_resume]); the state at resumption is the state the rest of the
    program left, which need not be the state at suspension. *)

From Stdlib Require Import QArith Qminmax String.
From stdpp Require Import gmap strings list fin_maps.

Local Open Scope Q_scope.

(** ** JavaScript numbers *)

(** [a / b]; [None] when the quotient is not a finite number. *)
Definition jsdiv (a b : Q) : option Q :=
  if Qeq_bool b 0 then None else Some (a / b).

(** [a > b] and [a < b]. *)
Definition js_gt (a b : Q) : bool := negb (Qle_bool a b).
Definition js_lt (a b : Q) : bool := negb (Qle_bool b a).

(** [!a] for a number: true exactly at zero. *)
Definition js_not (a : Q) : bool := Qeq_bool a 0.

(** [Math.max(a, b, c)]. *)
Definition max3 (a b c : Q) : Q := Qmax (Qmax a b) c.

(** ** three.js: Vector3 *)

Record Vector3 : Type := mkV3 { vx : Q; vy : Q; vz : Q }.

Definition v3_zero : Vector3 := mkV3 0 0 0.
Definition v3_one : Vector3 := mkV3 1 1 1.
Definition v3_add (a b : Vector3) : Vector3 :=
  mkV3 (vx a + vx b) (vy a + vy b) (vz a + vz b).
Definition v3_sub (a b : Vector3) : Vector3 :=
  mkV3 (vx a - vx b) (vy a - vy b) (vz a - vz b).
Definition v3_multiply (a b : Vector3) : Vector3 :=
  mkV3 (vx a * vx b) (vy a * vy b) (vz a * vz b).
Definition v3_multiplyScalar (a : Vector3) (k : Q) : Vector3 :=
  mkV3 (vx a * k) (vy a * k) (vz a * k).
Definition v3_min (a b : Vector3) : Vector3 :=
  mkV3 (Qmin (vx a) (vx b)) (Qmin (vy a) (vy b)) (Qmin (vz a) (vz b)).
Definition v3_max (a b : Vector3) : Vector3 :=
  mkV3 (Qmax (vx a) (vx b)) (Qmax (vy a) (vy b)) (Qmax (vz a) (vz b)).
Definition v3_setScalar (k : Q) : Vector3 := mkV3 k k k.

(** Componentwise equality of two vectors as rational numbers. *)
Definition v3_eq (a b : Vector3) : Prop :=
  vx a == vx b /\ vy a == vy b /\ vz a == vz b.

(** ** three.js: Box3

    [None] is the empty box ([makeEmpty]: minimum at plus infinity,
    maximum at minus infinity); [Some (lo, hi)] a box with finite
    corners. *)

Definition Box3 : Type := option (Vector3 * Vector3).

Definition expandByPoint (b : Box3) (p : Vector3) : Box3 :=
  match b with
  | None => Some (p, p)
  | Some (lo, hi) => Some (v3_min lo p, v3_max hi p)
  end.

Definition setFromPoints (ps : list Vector3) : Box3 :=
  fold_left expandByPoint ps None.

(** [getCenter] and [getSize] answer the zero vector on an empty box. *)
Definition getCenter (b : Box3) : Vector3 :=
  match b with
  | None => v3_zero
  | Some (lo, hi) => v3_multiplyScalar (v3_add lo hi) (1 # 2)
  end.

Definition getSize (b : Box3) : Vector3 :=
  match b with
  | None => v3_zero
  | Some (lo, hi) => v3_sub hi lo
  end.

(** ** three.js: Object3D

    The loaded character is the root of a scene-graph subtree.  Of the
    subtree the embedding keeps [geometry], the points, in the
    coordinates of the root, whose images span the bounding box (the
    corners of the bounding boxes of the meshes below the root); of the
    root it keeps the position and the scale (its rotation is the
    identity: the loader returns a fresh group, and nothing here rotates
    it) and the visibility flag.

    [NonFinite] stands for a transform with a component that is not a
    finite number.  Once the scale is not finite every image of a point
    is NaN, so such a transform is never left by the operations below. *)

Inductive Transform : Type :=
  | Finite (position scale : Vector3)
  | NonFinite.

Record Object3D : Type := mkObject3D {
  transform : Transform;
  visible : bool;
  geometry : list Vector3
}.

(** The image of a point of the root's coordinates in the world. *)
Definition localToWorld (position scale p : Vector3) : Vector3 :=
  v3_add (v3_multiply scale p) position.

(** [new THREE.Box3().setFromObject(obj)] for a finite transform. *)
Definition setFromObject (position scale : Vector3) (g : list Vector3) : Box3 :=
  setFromPoints (map (localToWorld position scale) g).

Definition set_transform (t : Transform) (m : Object3D) : Object3D :=
  mkObject3D t (visible m) (geometry m).
Definition set_visible (v : bool) (m : Object3D) : Object3D :=
  mkObject3D (transform m) v (geometry m).

(** ** three.js: animation clips, actions and the mixer *)

Record AnimationClip : Type := mkClip {
  clip_uuid : nat;
  clip_name : string;
  clip_duration : Q
}.

Inductive LoopMode : Type := LoopOnce | LoopRepeat | LoopPingPong.

(** A scheduled weight interpolation ([_scheduleFading]): from
    [fade_from] to [fade_to] over [fade_duration] seconds. *)
Record Fade : Type := mkFade { fade_from : Q; fade_to : Q; fade_duration : Q }.

Record AnimationAction : Type := mkAction {
  act_clip : AnimationClip;
  act_mixer : nat;
  clampWhenFinished : bool;
  loop : LoopMode;
  time : Q;
  timeScale : Q;
  effectiveTimeScale : Q;
  weight : Q;
  effectiveWeight : Q;
  paused : bool;
  enabled : bool;
  fading : option Fade;
  scheduled : bool
}.

(** [new AnimationAction(mixer, clip)]: the library's defaults. *)
Definition new_action (mixer_id : nat) (c : AnimationClip) : AnimationAction :=
  {| act_clip := c; act_mixer := mixer_id;
     clampWhenFinished := false; loop := LoopRepeat;
     time := 0; timeScale := 1; effectiveTimeScale := 1;
     weight := 1; effectiveWeight := 1;
     paused := false; enabled := true;
     fading := None; scheduled := false |}.

Definition set_clampWhenFinished (b : bool) (a : AnimationAction) : AnimationAction :=
  {| act_clip := act_clip a; act_mixer := act_mixer a;
     clampWhenFinished := b; loop := loop a;
     time := time a; timeScale := timeScale a;
     effectiveTimeScale := effectiveTimeScale a;
     weight := weight a; effectiveWeight := effectiveWeight a;
     paused := paused a; enabled := enabled a;
     fading := fading a; scheduled := scheduled a |}.

Definition set_loop (l : LoopMode) (a : AnimationAction) : AnimationAction :=
  {| act_clip := act_clip a; act_mixer := act_mixer a;
     clampWhenFinished := clampWhenFinished a; loop := l;
     time := time a; timeScale := timeScale a;
     effectiveTimeScale := effectiveTimeScale a;
     weight := weight a; effectiveWeight := effectiveWeight a;
     paused := paused a; enabled := enabled a;
     fading := fading a; scheduled := scheduled a |}.

(** [action.reset()]: un-pause, enable, rewind, and drop any fade. *)
Definition action_reset (a : AnimationAction) : AnimationAction :=
  {| act_clip := act_clip a; act_mixer := act_mixer a;
     clampWhenFinished := clampWhenFinished a; loop := loop a;
     time := 0; timeScale := timeScale a;
     effectiveTimeScale := effectiveTimeScale a;
     weight := weight a; effectiveWeight := effectiveWeight a;
     paused := false; enabled := true;
     fading := None; scheduled := scheduled a |}.

(** [action.setEffectiveTimeScale(s)]. *)
Definition action_setEffectiveTimeScale (s : Q) (a : AnimationAction) : AnimationAction :=
  {| act_clip := act_clip a; act_mixer := act_mixer a;
     clampWhenFinished := clampWhenFinished a; loop := loop a;
     time := time a; timeScale := s;
     effectiveTimeScale := if paused a then 0 else s;
     weight := weight a; effectiveWeight := effectiveWeight a;
     paused := paused a; enabled := enabled a;
     fading := fading a; scheduled := scheduled a |}.

(** [action.setEffectiveWeight(w)]: also drops any fade. *)
Definition action_setEffectiveWeight (w : Q) (a : AnimationAction) : AnimationAction :=
  {| act_clip := act_clip a; act_mixer := act_mixer a;
     clampWhenFinished := clampWhenFinished a; loop := loop a;
     time := time a; timeScale := timeScale a;
     effectiveTimeScale := effectiveTimeScale a;
     weight := w; effectiveWeight := if enabled a then w else 0;
     paused := paused a; enabled := enabled a;
     fading := None; scheduled := scheduled a |}.

Definition set_fading (f : option Fade) (a : AnimationAction) : AnimationAction :=
  {| act_clip := act_clip a; act_mixer := act_mixer a;
     clampWhenFinished := clampWhenFinished a; loop := loop a;
     time := time a; timeScale := timeScale a;
     effectiveTimeScale := effectiveTimeScale a;
     weight := weight a; effectiveWeight := effectiveWeight a;
     paused := paused a; enabled := enabled a;
     fading := f; scheduled := scheduled a |}.

(** [action.fadeIn(d)] and [action.fadeOut(d)]. *)
Definition action_fadeIn (d : Q) (a : AnimationAction) : AnimationAction :=
  set_fading (Some (mkFade 0 1 d)) a.
Definition action_fadeOut (d : Q) (a : AnimationAction) : AnimationAction :=
  set_fading (Some (mkFade 1 0 d)) a.

Definition set_scheduled (b : bool) (a : AnimationAction) : AnimationAction :=
  {| act_clip := act_clip a; act_mixer := act_mixer a;
     clampWhenFinished := clampWhenFinished a; loop := loop a;
     time := time a; timeScale := timeScale a;
     effectiveTimeScale := effectiveTimeScale a;
     weight := weight a; effectiveWeight := effectiveWeight a;
     paused := paused a; enabled := enabled a;
     fading := fading a; scheduled := b |}.

(** [action.play()] activates the action in its mixer; [action.stop()]
    deactivates it and resets it. *)
Definition action_play (a : AnimationAction) : AnimationAction :=
  set_scheduled true a.
Definition action_stop (a : AnimationAction) : AnimationAction :=
  action_reset (set_scheduled false a).

(** [action.isRunning()]. *)
Definition isRunning (a : AnimationAction) : bool :=
  enabled a && negb (paused a) && negb (Qeq_bool (timeScale a) 0) && scheduled a.

(** The mixer: its identity, whether the root object it was made for
    was defined, its global time scale, the actions it already made, by
    the uuid of their clip, and the number of listeners registered for its
    [finished] event. *)
Record AnimationMixer : Type := mkMixer {
  mixer_id : nat;
  mixer_rooted : bool;
  mixer_timeScale : Q;
  actionsByClip : gmap nat nat;
  finished_listeners : nat
}.

(** [new THREE.AnimationMixer(root)]. *)
Definition new_mixer (id : nat) (rooted : bool) : AnimationMixer :=
  mkMixer id rooted 1 ∅ 0%nat.

Definition add_finished_listener (m : AnimationMixer) : AnimationMixer :=
  mkMixer (mixer_id m) (mixer_rooted m) (mixer_timeScale m) (actionsByClip m)
          (S (finished_listeners m)).

(** [mixer.clipAction(clip)] on a mixer whose root is defined: the
    action the mixer already made for this clip object, or else a new one,
    stored in the heap of actions under a fresh handle.  (On a mixer made
    for an undefined root the call throws a TypeError, reading the uuid
    of the root.) *)
Definition clipAction (m : AnimationMixer) (c : AnimationClip)
    (hp : gmap nat AnimationAction) (nh : nat)
    : nat * AnimationMixer * gmap nat AnimationAction * nat :=
  match actionsByClip m !! clip_uuid c with
  | Some h => (h, m, hp, nh)
  | None =>
      (nh,
       mkMixer (mixer_id m) (mixer_rooted m) (mixer_timeScale m)
               (<[clip_uuid c := nh]> (actionsByClip m)) (finished_listeners m),
       <[nh := new_action (mixer_id m) c]> hp,
       S nh)
  end.

(** ** The loader

    What [GLTFLoader] hands back for a url is the environment's choice:
    an asset, described by the points that span the bounding box of its
    scene and by the name and duration of each embedded clip, or a
    failure, with the value the promise is rejected with. *)

Inductive Thrown : Type :=
  | JsError (message : string)
  | JsOther.

Record ClipData : Type := mkClipData { cd_name : string; cd_duration : Q }.

Record GLTF : Type := mkGLTF {
  gltf_scene : list Vector3;
  gltf_animations : list ClipData
}.

Inductive LoadResult : Type :=
  | LoadOk (g : GLTF)
  | LoadFail (e : Thrown).

(** How a promise settles. *)
Inductive Settled (A : Type) : Type :=
  | Resolved (a : A)
  | Rejected (e : Thrown).
Arguments Resolved {A} a.
Arguments Rejected {A} e.

(** Parsing builds one new clip object per embedded animation; each gets
    a uuid no earlier object has. *)
Fixpoint make_clips (uuid : nat) (l : list ClipData) : list AnimationClip :=
  match l with
  | [] => []
  | d :: l' => mkClip uuid (cd_name d) (cd_duration d) :: make_clips (S uuid) l'
  end.

(** ** ThreeRenderer: the state of the service

    [ready] tells whether [initialize] has created the scene, the camera
    and the renderer.  [actions] is the registry [Map<string,
    AnimationAction>]; an action object is a handle into [heap], so that
    the registry, [activeAction] and the mixer can share it.  [requests]
    lists the urls handed to the loader, oldest first. *)

Record ThreeRenderer : Type := mkRenderer {
  ready : bool;
  background : string;
  camera_aspect : option Q;
  renderer_size : Q * Q;
  currentModel : option Object3D;
  mixer : option AnimationMixer;
  actions : gmap string nat;
  activeAction : option nat;
  heap : gmap nat AnimationAction;
  next_handle : nat;
  next_uuid : nat;
  next_mixer : nat;
  requests : list string
}.

(** The service as constructed. *)
Definition new_ThreeRenderer : ThreeRenderer :=
  {| ready := false; background := ""; camera_aspect := None;
     renderer_size := (0, 0);
     currentModel := None; mixer := None; actions := ∅;
     activeAction := None; heap := ∅;
     next_handle := 0%nat; next_uuid := 0%nat; next_mixer := 0%nat;
     requests := [] |}.

Definition set_currentModel (m : option Object3D) (st : ThreeRenderer) : ThreeRenderer :=
  {| ready := ready st; background := background st;
     camera_aspect := camera_aspect st; renderer_size := renderer_size st;
     currentModel := m; mixer := mixer st; actions := actions st;
     activeAction := activeAction st; heap := heap st;
     next_handle := next_handle st; next_uuid := next_uuid st;
     next_mixer := next_mixer st; requests := requests st |}.

Definition set_mixer (m : option AnimationMixer) (st : ThreeRenderer) : ThreeRenderer :=
  {| ready := ready st; background := background st;
     camera_aspect := camera_aspect st; renderer_size := renderer_size st;
     currentModel := currentModel st; mixer := m; actions := actions st;
     activeAction := activeAction st; heap := heap st;
     next_handle := next_handle st; next_uuid := next_uuid st;
     next_mixer := next_mixer st; requests := requests st |}.

Definition set_actions (r : gmap string nat) (st : ThreeRenderer) : ThreeRenderer :=
  {| ready := ready st; background := background st;
     camera_aspect := camera_aspect st; renderer_size := renderer_size st;
     currentModel := currentModel st; mixer := mixer st; actions := r;
     activeAction := activeAction st; heap := heap st;
     next_handle := next_handle st; next_uuid := next_uuid st;
     next_mixer := next_mixer st; requests := requests st |}.

Definition set_activeAction (a : option nat) (st : ThreeRenderer) : ThreeRenderer :=
  {| ready := ready st; background := background st;
     camera_aspect := camera_aspect st; renderer_size := renderer_size st;
     currentModel := currentModel st; mixer := mixer st; actions := actions st;
     activeAction := a; heap := heap st;
     next_handle := next_handle st; next_uuid := next_uuid st;
     next_mixer := next_mixer st; requests := requests st |}.

Definition set_heap (hp : gmap nat AnimationAction) (st : ThreeRenderer) : ThreeRenderer :=
  {| ready := ready st; background := background st;
     camera_aspect := camera_aspect st; renderer_size := renderer_size st;
     currentModel := currentModel st; mixer := mixer st; actions := actions st;
     activeAction := activeAction st; heap := hp;
     next_handle := next_handle st; next_uuid := next_uuid st;
     next_mixer := next_mixer st; requests := requests st |}.

Definition set_next_handle (n : nat) (st : ThreeRenderer) : ThreeRenderer :=
  {| ready := ready st; background := background st;
     camera_aspect := camera_aspect st; renderer_size := renderer_size st;
     currentModel := currentModel st; mixer := mixer st; actions := actions st;
     activeAction := activeAction st; heap := heap st;
     next_handle := n; next_uuid := next_uuid st;
     next_mixer := next_mixer st; requests := requests st |}.

Definition set_next_uuid (n : nat) (st : ThreeRenderer) : ThreeRenderer :=
  {| ready := ready st; background := background st;
     camera_aspect := camera_aspect st; renderer_size := renderer_size st;
     currentModel := currentModel st; mixer := mixer st; actions := actions st;
     activeAction := activeAction st; heap := heap st;
     next_handle := next_handle st; next_uuid := n;
     next_mixer := next_mixer st; requests := requests st |}.

Definition set_next_mixer (n : nat) (st : ThreeRenderer) : ThreeRenderer :=
  {| ready := ready st; background := background st;
     camera_aspect := camera_aspect st; renderer_size := renderer_size st;
     currentModel := currentModel st; mixer := mixer st; actions := actions st;
     activeAction := activeAction st; heap := heap st;
     next_handle := next_handle st; next_uuid := next_uuid st;
     next_mixer := n; requests := requests st |}.

Definition add_request (url : string) (st : ThreeRenderer) : ThreeRenderer :=
  {| ready := ready st; background := background st;
     camera_aspect := camera_aspect st; renderer_size := renderer_size st;
     currentModel := currentModel st; mixer := mixer st; actions := actions st;
     activeAction := activeAction st; heap := heap st;
     next_handle := next_handle st; next_uuid := next_uuid st;
     next_mixer := next_mixer st; requests := requests st ++ [url] |}.

(** Run a method of the action behind handle [h]. *)
Definition on_action (f : AnimationAction -> AnimationAction) (h : nat)
    (st : ThreeRenderer) : ThreeRenderer :=
  set_heap (alter f h (heap st)) st.

(** [this.actions.forEach((a) => a.stop())]. *)
Definition stop_all (hs : list nat) (hp : gmap nat AnimationAction)
    : gmap nat AnimationAction :=
  foldr (alter action_stop) hp hs.

Definition registered_handles (r : gmap string nat) : list nat :=
  (map_to_list r).*2.

Definition stop_registered (st : ThreeRenderer) : ThreeRenderer :=
  set_heap (stop_all (registered_handles (actions st)) (heap st)) st.

(** [this.activeAction?.stop(); this.activeAction = undefined]. *)
Definition stop_active (st : ThreeRenderer) : ThreeRenderer :=
  match activeAction st with
  | Some h => set_activeAction None (on_action action_stop h st)
  | None => st
  end.

(** ** ThreeRenderer: the methods *)

(** [initialize(canvas, width, height)]: the camera's aspect is
    [width / height], unguarded. *)
Definition initialize (width height : Q) (st : ThreeRenderer) : ThreeRenderer :=
  {| ready := true; background := "#f0f0f0";
     camera_aspect := jsdiv width height; renderer_size := (width, height);
     currentModel := currentModel st; mixer := mixer st; actions := actions st;
     activeAction := activeAction st; heap := heap st;
     next_handle := next_handle st; next_uuid := next_uuid st;
     next_mixer := next_mixer st; requests := requests st |}.

(** [setBackground(color)]. *)
Definition setBackground (color : string) (st : ThreeRenderer) : ThreeRenderer :=
  if ready st then
    {| ready := ready st; background := color;
       camera_aspect := camera_aspect st; renderer_size := renderer_size st;
       currentModel := currentModel st; mixer := mixer st; actions := actions st;
       activeAction := activeAction st; heap := heap st;
       next_handle := next_handle st; next_uuid := next_uuid st;
       next_mixer := next_mixer st; requests := requests st |}
  else st.

(** The divisor and the aspect ratio [resize(width, height)] computes:
    [Math.max(1, height)] and
    [Math.max(1e-6, width / Math.max(1, height))]. *)
Definition resize_divisor (height : Q) : Q := Qmax 1 height.
Definition resize_aspect (width height : Q) : option Q :=
  match jsdiv width (resize_divisor height) with
  | Some q => Some (Qmax (1 # 1000000) q)
  | None => None
  end.

(** [resize(width, height)]. *)
Definition resize (width height : Q) (st : ThreeRenderer) : ThreeRenderer :=
  if negb (ready st) then st
  else
    {| ready := ready st; background := background st;
       camera_aspect := resize_aspect width height;
       renderer_size := (width, height);
       currentModel := currentModel st; mixer := mixer st;
       actions := actions st;
       activeAction := activeAction st; heap := heap st;
       next_handle := next_handle st; next_uuid := next_uuid st;
       next_mixer := next_mixer st; requests := requests st |}.

(** [getClipNames()]: the keys of the registry. *)
Definition getClipNames (st : ThreeRenderer) : list string :=
  (map_to_list (actions st)).*1.

(** [play(clipName, fadeSeconds)]. *)
Definition play (clipName : string) (fadeSeconds : Q) (st : ThreeRenderer)
    : ThreeRenderer :=
  match actions st !! clipName with
  | None => st
  | Some next =>
      let st1 :=
        match activeAction st with
        | Some a =>
            if decide (a = next) then st
            else on_action (action_fadeOut fadeSeconds) a st
        | None => st
        end in
      let st2 := on_action action_reset next st1 in
      let st3 := on_action (action_setEffectiveTimeScale 1) next st2 in
      let st4 := on_action (action_setEffectiveWeight 1) next st3 in
      let st5 := on_action (action_fadeIn fadeSeconds) next st4 in
      let st6 := on_action action_play next st5 in
      set_activeAction (Some next) st6
  end.

(** [stop()]. *)
Definition stop (st : ThreeRenderer) : ThreeRenderer := stop_active st.

(** [setTimeScale(speed)]. *)
Definition setTimeScale (speed : Q) (st : ThreeRenderer) : ThreeRenderer :=
  match mixer st with
  | Some m =>
      set_mixer (Some (mkMixer (mixer_id m) (mixer_rooted m) speed
                               (actionsByClip m) (finished_listeners m))) st
  | None => st
  end.

(** [disposeCurrentModel()].  With a current model it also calls
    [this.scene.remove]; a current model is assigned only after it has
    been added to the scene, so the scene exists wherever there is a
    current model ([model_ready] below holds of every state the service
    reaches), and the call is not a point of failure. *)
Definition disposeCurrentModel (st : ThreeRenderer) : ThreeRenderer :=
  match currentModel st with
  | None => st
  | Some _ =>
      let st1 := stop_active st in
      let st2 := stop_registered st1 in
      let st3 := set_actions ∅ st2 in
      let st4 := set_mixer None st3 in
      set_currentModel None st4
  end.

(** The loop of [loadModel] over the embedded clips: one action per
    clip, set to clamp and to play once, stored under the clip's name. *)
Definition register_clip
    (acc : AnimationMixer * gmap nat AnimationAction * nat * gmap string nat)
    (c : AnimationClip)
    : AnimationMixer * gmap nat AnimationAction * nat * gmap string nat :=
  let '(m, hp, nh, reg) := acc in
  let '(h, m1, hp1, nh1) := clipAction m c hp nh in
  let hp2 := alter (set_clampWhenFinished true) h hp1 in
  let hp3 := alter (set_loop LoopOnce) h hp2 in
  (m1, hp3, nh1, <[clip_name c := h]> reg).

(** The transform [loadModel] leaves on the scene of a loaded asset,
    which comes from the loader at position zero and scale one: the
    position minus the centre of the box, and the scale [1.5 / maxDim] on
    every axis when [maxDim > 0]. *)
Definition loadModel_place (g : list Vector3) : Transform :=
  let box := setFromObject v3_zero v3_one g in
  let size := getSize box in
  let center := getCenter box in
  let position := v3_sub v3_zero center in
  let maxDim := max3 (vx size) (vy size) (vz size) in
  if js_gt maxDim 0 then
    match jsdiv (3 # 2) maxDim with
    | Some s => Finite position (v3_setScalar s)
    | None => NonFinite
    end
  else Finite position v3_one.

(** [loadModel(url)] up to its [await]: the previous model is disposed
    of and the loader is asked for [url]. *)
Definition loadModel_begin (url : string) (st : ThreeRenderer) : ThreeRenderer :=
  add_request url (disposeCurrentModel st).

(** [loadModel(url)] from its [await] on.  The registry and the mixer
    are rebuilt first; then [this.scene.add(model)] reads the scene that
    [initialize] makes.  On a service that was never initialized the
    scene is undefined: the call throws a TypeError, the [catch] block
    throws it again, and [this.currentModel] is not assigned, while the
    registry and the mixer stay as rebuilt. *)
Definition loadModel_resume (r : LoadResult) (st : ThreeRenderer)
    : Settled Object3D * ThreeRenderer :=
  match r with
  | LoadFail e => (Rejected e, st)
  | LoadOk g =>
      let clips := make_clips (next_uuid st) (gltf_animations g) in
      let st0 := set_next_uuid (next_uuid st + length clips)%nat st in
      let model := mkObject3D (loadModel_place (gltf_scene g)) true (gltf_scene g) in
      let st1 := set_mixer None (set_actions ∅ st0) in
      let st2 :=
        match clips with
        | [] => st1
        | _ :: _ =>
            let m := new_mixer (next_mixer st1) true in
            let '(m', hp, nh, reg) :=
              fold_left register_clip clips
                        (m, heap st1, next_handle st1, actions st1) in
            set_actions reg
              (set_next_handle nh
                 (set_heap hp
                    (set_mixer (Some m')
                       (set_next_mixer (S (next_mixer st1)) st1))))
        end in
      if ready st then (Resolved model, set_currentModel (Some model) st2)
      else (Rejected (JsError "Cannot read properties of undefined"), st2)
  end.

(** The state of [loadModel] once the registry and the mixer are
    rebuilt, before the model is added to the scene. *)
Definition loadModel_rebuilt (g : GLTF) (st : ThreeRenderer) : ThreeRenderer :=
  let clips := make_clips (next_uuid st) (gltf_animations g) in
  let st0 := set_next_uuid (next_uuid st + length clips)%nat st in
  let st1 := set_mixer None (set_actions ∅ st0) in
  match clips with
  | [] => st1
  | _ :: _ =>
      let m := new_mixer (next_mixer st1) true in
      let '(m', hp, nh, reg) :=
        fold_left register_clip clips
                  (m, heap st1, next_handle st1, actions st1) in
      set_actions reg
        (set_next_handle nh
           (set_heap hp
              (set_mixer (Some m')
                 (set_next_mixer (S (next_mixer st1)) st1))))
  end.

(** [loadModel(url)] when nothing else runs while the load is pending. *)
Definition loadModel (url : string) (r : LoadResult) (st : ThreeRenderer)
    : Settled Object3D * ThreeRenderer :=
  loadModel_resume r (loadModel_begin url st).

(** [centerModel()] on the model itself. *)
Definition centerModel_object (m : Object3D) : Object3D :=
  match transform m with
  | NonFinite => m
  | Finite _ scale =>
      let box := setFromObject v3_zero scale (geometry m) in
      let center := getCenter box in
      let size := getSize box in
      let position :=
        mkV3 (- vx center) (- vy center + vy size * (1 # 2)) (- vz center) in
      let maxDim := max3 (vx size) (vy size) (vz size) in
      if js_gt maxDim 3 then
        match jsdiv 3 maxDim with
        | Some s => set_transform (Finite position (mkV3 s s s)) m
        | None => set_transform NonFinite m
        end
      else if js_lt maxDim 1 then
        match jsdiv 1 maxDim with
        | Some s => set_transform (Finite position (mkV3 s s s)) m
        | None => set_transform NonFinite m
        end
      else set_transform (Finite position scale) m
  end.

(** [centerModel()]. *)
Definition centerModel (st : ThreeRenderer) : ThreeRenderer :=
  match currentModel st with
  | None => st
  | Some m => set_currentModel (Some (centerModel_object m)) st
  end.

(** [fixResourcePath(actionUrl)]. *)
Definition fixResourcePath (actionUrl : string) : string :=
  if String.prefix "http" actionUrl then actionUrl
  else if String.prefix "/" actionUrl
       then String.substring 1 (String.length actionUrl - 1) actionUrl
       else actionUrl.

(** The [catch] block of [playAnimationForExistingModel]: the model is
    made visible, re-centred when its height [position.y] is falsy, and
    the error is thrown again. *)
Definition recover (st : ThreeRenderer) : ThreeRenderer :=
  match currentModel st with
  | None => st
  | Some m =>
      let st1 := set_currentModel (Some (set_visible true m)) st in
      match transform m with
      | Finite position _ => if js_not (vy position) then centerModel st1 else st1
      | NonFinite => st1
      end
  end.

(** [playAnimationForExistingModel(actionUrl, fadeSeconds)] up to its
    [await]: either it throws at once, or it is suspended holding the
    transform it saved. *)
Definition playAnimationForExistingModel_begin (actionUrl : string)
    (st : ThreeRenderer) : Thrown + Transform * ThreeRenderer :=
  match currentModel st with
  | None => inl (JsError "No character model loaded")
  | Some m => inr (transform m, add_request (fixResourcePath actionUrl) st)
  end.

(** The statements after the check for an empty asset, on the first
    clip [clip]; [inl] when a TypeError is thrown on the way, because no
    current model is there any more: in [clipAction] when the mixer was
    made without a root, or when the transform is restored. *)
Definition start_action (clip : AnimationClip) (saved : Transform)
    (st : ThreeRenderer) : ThreeRenderer + ThreeRenderer :=
  let '(m, st1) :=
    match mixer st with
    | Some m => (m, st)
    | None =>
        let m := new_mixer (next_mixer st) (bool_decide (is_Some (currentModel st))) in
        (m, set_next_mixer (S (next_mixer st)) (set_mixer (Some m) st))
    end in
  let st2 := stop_registered st1 in
  let st3 := stop_active st2 in
  if negb (mixer_rooted m) then inl st3
  else
    let '(h, m1, hp1, nh1) := clipAction m clip (heap st3) (next_handle st3) in
    let st4 := set_next_handle nh1 (set_heap hp1 (set_mixer (Some m1) st3)) in
    let st5 := on_action (set_clampWhenFinished true) h st4 in
    let st6 := on_action (set_loop LoopOnce) h st5 in
    let st7 := on_action action_reset h st6 in
    let st8 := on_action (action_setEffectiveTimeScale (7 # 10)) h st7 in
    let st9 := on_action (action_setEffectiveWeight 1) h st8 in
    let st10 := on_action action_play h st9 in
    let st11 := set_activeAction (Some h) st10 in
    match currentModel st11 with
    | None => inl st11
    | Some model =>
        let st12 := set_currentModel (Some (set_transform saved model)) st11 in
        let st13 :=
          match actions st12 !! clip_name clip with
          | Some _ => st12
          | None => set_actions (<[clip_name clip := h]> (actions st12)) st12
          end in
        inr (set_mixer (Some (add_finished_listener m1)) st13)
    end.

(** [playAnimationForExistingModel] from its [await] on; [fadeSeconds]
    is a parameter the body never reads. *)
Definition playAnimationForExistingModel_resume (fadeSeconds : Q)
    (saved : Transform) (r : LoadResult) (st : ThreeRenderer)
    : Settled unit * ThreeRenderer :=
  match r with
  | LoadFail e => (Rejected e, recover st)
  | LoadOk g =>
      let clips := make_clips (next_uuid st) (gltf_animations g) in
      let st0 := set_next_uuid (next_uuid st + length clips)%nat st in
      match clips with
      | [] => (Rejected (JsError "No animations found in action file"), recover st0)
      | clip :: _ =>
          match start_action clip saved st0 with
          | inr st' => (Resolved tt, st')
          | inl st' =>
              (Rejected (JsError "Cannot read properties of undefined"),
               recover st')
          end
      end
  end.

(** [playAnimationForExistingModel] when nothing else runs while the
    load is pending. *)
Definition playAnimationForExistingModel (actionUrl : string) (fadeSeconds : Q)
    (r : LoadResult) (st : ThreeRenderer) : Settled unit * ThreeRenderer :=
  match playAnimationForExistingModel_begin actionUrl st with
  | inl e => (Rejected e, st)
  | inr (saved, st1) =>
      playAnimationForExistingModel_resume fadeSeconds saved r st1
  end.

(** ** HomePage: the screen *)

Record AslSign : Type := mkSign {
  sign_id : string;
  sign_label : string;
  sign_description : option string;
  thumbUrl : option string
}.


(** The fields of the screen; [timers] holds, for each pending
    [setTimeout] (the only callback there is clears [isPlaying]), the
    milliseconds left before it fires. *)
Record HomePage : Type := mkPage {
  listName : list string;
  selectedSign : option AslSign;
  loading : bool;
  error : option string;
  characterLoaded : bool;
  isPlaying : bool;
  timers : list nat
}.

Definition new_HomePage : HomePage :=
  {| listName := []; selectedSign := None; loading := true; error := None;
     characterLoaded := false; isPlaying := false; timers := [] |}.

(** [e?.message || fallback]. *)
Definition message_or (e : Thrown) (fallback : string) : string :=
  match e with
  | JsError m => if decide (m = "") then fallback else m
  | JsOther => fallback
  end.

(** [ngAfterViewInit()] up to its [await], for a canvas measured as
    [width] by [height]. *)
Definition ngAfterViewInit_begin (width height : Q) (st : ThreeRenderer)
    : ThreeRenderer :=
  loadModel_begin "assets/aslkidanimation/models/lisa.glb"
    (setBackground "#f8f8f8" (initialize width height st)).

(** [ngAfterViewInit()] from its [await] on. *)
Definition ngAfterViewInit_resume (r : LoadResult) (pg : HomePage)
    (st : ThreeRenderer) : HomePage * ThreeRenderer :=
  match loadModel_resume r st with
  | (Resolved _, st1) =>
      let st2 := centerModel st1 in
      ({| listName := getClipNames st2; selectedSign := selectedSign pg;
          loading := false; error := error pg;
          characterLoaded := true; isPlaying := isPlaying pg;
          timers := timers pg |}, st2)
  | (Rejected e, st1) =>
      ({| listName := listName pg; selectedSign := selectedSign pg;
          loading := false;
          error := Some (message_or e "Failed to load character model");
          characterLoaded := characterLoaded pg; isPlaying := isPlaying pg;
          timers := timers pg |}, st1)
  end.

Definition ngAfterViewInit (width height : Q) (r : LoadResult) (pg : HomePage)
    (st : ThreeRenderer) : HomePage * ThreeRenderer :=
  ngAfterViewInit_resume r pg (ngAfterViewInit_begin width height st).


(** The path of the asset of a sign. *)
Definition actionPath (sign : AslSign) : string :=
  "assets/aslkidanimation/actions/" +:+ sign_id sign +:+ ".glb".

(** The [catch] block of [playSign]. *)
Definition playSign_failed (sign : AslSign) (pg : HomePage) : HomePage :=
  {| listName := listName pg; selectedSign := selectedSign pg;
     loading := loading pg;
     error := Some ("Failed to play sign: " +:+ sign_id sign);
     characterLoaded := characterLoaded pg; isPlaying := false;
     timers := timers pg |}.

(** Where [playSign(sign)] stands after its first run: it has returned
    at the guard, it has failed before any load and has finished in its
    [catch] block, or it is suspended on the load. *)
Inductive PlaySignStep : Type :=
  | Ignored
  | FailedEarly
  | Awaiting (saved : Transform).

(** [playSign(sign)] up to its [await]. *)
Definition playSign_begin (sign : AslSign) (pg : HomePage) (st : ThreeRenderer)
    : PlaySignStep * HomePage * ThreeRenderer :=
  if negb (characterLoaded pg) || isPlaying pg then (Ignored, pg, st)
  else
    let pg1 :=
      {| listName := listName pg; selectedSign := Some sign;
         loading := loading pg; error := None;
         characterLoaded := characterLoaded pg; isPlaying := true;
         timers := timers pg |} in
    match playAnimationForExistingModel_begin (actionPath sign) st with
    | inl e => (FailedEarly, playSign_failed sign pg1, st)
    | inr (saved, st1) => (Awaiting saved, pg1, st1)
    end.

(** [playSign(sign)] from its [await] on. *)
Definition playSign_resume (sign : AslSign) (saved : Transform) (r : LoadResult)
    (pg : HomePage) (st : ThreeRenderer) : HomePage * ThreeRenderer :=
  match playAnimationForExistingModel_resume (3 # 10) saved r st with
  | (Resolved _, st1) =>
      ({| listName := listName pg; selectedSign := selectedSign pg;
          loading := loading pg; error := error pg;
          characterLoaded := characterLoaded pg; isPlaying := isPlaying pg;
          timers := timers pg ++ [4000%nat] |}, st1)
  | (Rejected e, st1) => (playSign_failed sign pg, st1)
  end.

(** [playSign(sign)] when nothing else runs while the load is pending. *)
Definition playSign (sign : AslSign) (r : LoadResult) (pg : HomePage)
    (st : ThreeRenderer) : HomePage * ThreeRenderer :=
  match playSign_begin sign pg st with
  | (Awaiting saved, pg1, st1) => playSign_resume sign saved r pg1 st1
  | (_, pg1, st1) => (pg1, st1)
  end.

(** [ms] milliseconds pass: the timers that are due fire, each clearing
    [isPlaying]; the others come closer. *)
Definition elapse (ms : nat) (pg : HomePage) : HomePage :=
  {| listName := listName pg; selectedSign := selectedSign pg;
     loading := loading pg; error := error pg;
     characterLoaded := characterLoaded pg;
     isPlaying :=
       if bool_decide (Exists (λ t, (t <= ms)%nat) (timers pg)) then false
       else isPlaying pg;
     timers :=
       (λ t, (t - ms)%nat) <$> filter (λ t, (ms < t)%nat) (timers pg) |}.

(** [onResize()], for a canvas measured as [width] by [height]. *)
Definition onResize (width height : Q) (st : ThreeRenderer) : ThreeRenderer :=
  resize width height st.

(** ** Well-formed states

    What every state the service reaches satisfies: the clips the mixer
    has seen were made before the next uuid to hand out, and the mixer
    has a root while there is a current model; the handles in the heap
    lie below the next handle; the registry and [activeAction] hold
    handles of the heap. *)

Definition wf (st : ThreeRenderer) : Prop :=
  match mixer st with
  | Some m =>
      map_Forall (λ u _, (u < next_uuid st)%nat) (actionsByClip m)
      ∧ (is_Some (currentModel st) → mixer_rooted m = true)
  | None => True
  end
  ∧ map_Forall (λ h _, (h < next_handle st)%nat) (heap st)
  ∧ map_Forall (λ _ h, is_Some (heap st !! h)) (actions st)
  ∧ match activeAction st with
    | Some h => is_Some (heap st !! h)
    | None => True
    end.

#[global] Instance wf_dec (st : ThreeRenderer) : Decision (wf st).
Proof. unfold wf. destruct (mixer st), (activeAction st); apply _. Defined.

(** The action [playAnimationForExistingModel] starts for [clip] in the
    mixer [mixer_id]: the new action after the assignments and calls of
    the method. *)
Definition started_action (mixer_id : nat) (clip : AnimationClip) : AnimationAction :=
  action_play
    (action_setEffectiveWeight 1
       (action_setEffectiveTimeScale (7 # 10)
          (action_reset
             (set_loop LoopOnce
                (set_clampWhenFinished true (new_action mixer_id clip)))))).

(** The action [play] leaves behind handle [next]: reset, at weight and
    speed one, fading in over [fadeSeconds], started. *)
Definition replayed_action (fadeSeconds : Q) (a : AnimationAction) : AnimationAction :=
  action_play
    (action_fadeIn fadeSeconds
       (action_setEffectiveWeight 1
          (action_setEffectiveTimeScale 1 (action_reset a)))).

(** ** Sample assets and states *)

(** A character whose box reaches from the origin to (3, 3, 3), with
    one embedded clip. *)
Definition sample_character : GLTF :=
  mkGLTF [mkV3 0 0 0; mkV3 3 3 3] [mkClipData "Idle" 2].

(** An action file with one clip, of the same name. *)
Definition sample_action : GLTF := mkGLTF [] [mkClipData "Idle" 1].

(** An asset with two clips of one name. *)
Definition sample_twins : GLTF :=
  mkGLTF [mkV3 0 0 0; mkV3 3 3 3] [mkClipData "Idle" 2; mkClipData "Idle" 5].

(** The service once [initialize] has run. *)
Definition state_ready : ThreeRenderer := initialize 400 300 new_ThreeRenderer.

(** The service after [loadModel] of the character. *)
Definition state_loaded : ThreeRenderer :=
  (loadModel "assets/aslkidanimation/models/lisa.glb" (LoadOk sample_character)
             (initialize 400 300 new_ThreeRenderer)).2.

(** Then after [playAnimationForExistingModel] of the action file. *)
Definition state_signed : ThreeRenderer :=
  (playAnimationForExistingModel "assets/aslkidanimation/actions/Ball.glb"
     (3 # 10) (LoadOk sample_action) state_loaded).2.

(** A screen whose character is loaded and that plays nothing. *)
Definition page_ready : HomePage :=
  {| listName := ["Idle"]; selectedSign := None; loading := false;
     error := None; characterLoaded := true; isPlaying := false;
     timers := [] |}.

(** A model at scale one whose box reaches from the origin to
    (6, 6, 6), and one whose box reaches to (2, 2, 2). *)
Definition big_model : Object3D :=
  mkObject3D (Finite v3_zero v3_one) true [mkV3 0 0 0; mkV3 6 6 6].
Definition fit_model : Object3D :=
  mkObject3D (Finite (mkV3 5 5 5) v3_one) true [mkV3 0 0 0; mkV3 2 2 2].

(** ** Boxes up to equality of rational numbers *)

Definition box_eq (b b' : Box3) : Prop :=
  match b, b' with
  | None, None => True
  | Some (lo, hi), Some (lo', hi') => v3_eq lo lo' ∧ v3_eq hi hi'
  | _, _ => False
  end.

(** The image of a point, and of a box, under [x ↦ k * x + t] on every
    axis. *)
Definition v3_affine (k : Q) (t p : Vector3) : Vector3 :=
  mkV3 (k * vx p + vx t) (k * vy p + vy t) (k * vz p + vz t).

Definition box_affine (k : Q) (t : Vector3) (b : Box3) : Box3 :=
  match b with
  | None => None
  | Some (lo, hi) => Some (v3_affine k t lo, v3_affine k t hi)
  end.

(** The largest dimension of a box, [Math.max(size.x, size.y, size.z)]. *)
Definition maxDim (b : Box3) : Q :=
  max3 (vx (getSize b)) (vy (getSize b)) (vz (getSize b)).

(** The box of an asset's scene as the loader hands it over. *)
Definition asset_box (g : list Vector3) : Box3 := setFromObject v3_zero v3_one g.

(** The box [centerModel] measures on a model. *)
Definition measured_box (scale : Vector3) (m : Object3D) : Box3 :=
  setFromObject v3_zero scale (geometry m).

(** An asset without clips whose box reaches from the origin to
    (24, 24, 24). *)
Definition sample_giant : GLTF := mkGLTF [mkV3 0 0 0; mkV3 24 24 24] [].

(** A state reached through the methods alone in which [centerModel]
    rescales: a sign is selected on the loaded character, a second
    [loadModel] replaces the character while the action file is still
    loading, and the resumed [playAnimationForExistingModel] restores the
    transform it saved from the first character onto the second. *)
Definition state_raced : ThreeRenderer :=
  match playAnimationForExistingModel_begin
          "assets/aslkidanimation/actions/Ball.glb" state_loaded with
  | inr (saved, st1) =>
      let st2 :=
        (loadModel "assets/aslkidanimation/models/lisa.glb"
                   (LoadOk sample_giant) st1).2 in
      (playAnimationForExistingModel_resume (3 # 10) saved
         (LoadOk sample_action) st2).2
  | inl _ => state_loaded
  end.

(** The state while the action file of the sign "Ball" is loading, and
    the transform saved at suspension. *)
Definition ball_url : string := "assets/aslkidanimation/actions/Ball.glb".
Definition state_pending : ThreeRenderer := add_request ball_url state_loaded.
Definition sample_saved : Transform :=
  match currentModel state_loaded with
  | Some m => transform m
  | None => NonFinite
  end.

(** ** What the claims speak of *)


(** Every action that is playing is registered or marked active. *)
Definition no_stray_playing (st : ThreeRenderer) : Prop :=
  map_Forall
    (λ h a, isRunning a = true →
            h ∈ registered_handles (actions st) ∨ activeAction st = Some h)
    (heap st).



(** The state of [state_raced] after [stop()]: no action is playing. *)
Definition state_still : ThreeRenderer := stop state_raced.

(** The catalogue entry of the sign "Ball". *)
Definition ball_sign : AslSign :=
  mkSign "Ball" "Ball" (Some "Sign for showing Ball") None.

(** An initialized service whose current model is [fit_model]. *)
Definition state_fit : ThreeRenderer :=
  set_currentModel (Some fit_model) state_ready.

(** The screen once the selection of [ball_sign] has been accepted. *)
Definition page_playing : HomePage :=
  {| listName := ["Idle"]; selectedSign := Some ball_sign; loading := false;
     error := None; characterLoaded := true; isPlaying := true;
     timers := [] |}.

(** The action file of the sign "Ball" with a clip name of its own. *)
Definition sample_ball : GLTF := mkGLTF [] [mkClipData "BallSign" 1].


(** ** More of the service *)

(** [loadActionAndPlay(actionUrl, fadeSeconds)] up to its [await]: the
    url goes to the loader as it is. *)
Definition loadActionAndPlay_begin (actionUrl : string) (st : ThreeRenderer)
    : Thrown + ThreeRenderer :=
  match currentModel st with
  | None => inl (JsError "No character model loaded")
  | Some _ => inr (add_request actionUrl st)
  end.

(** The statements of [loadActionAndPlay] after the check for an empty
    asset, on the first clip [clip]; [inl] when [clipAction] throws a
    TypeError on a mixer made without a root. *)
Definition start_action_plain (clip : AnimationClip) (st : ThreeRenderer)
    : ThreeRenderer + ThreeRenderer :=
  let '(m, st1) :=
    match mixer st with
    | Some m => (m, st)
    | None =>
        let m := new_mixer (next_mixer st) (bool_decide (is_Some (currentModel st))) in
        (m, set_next_mixer (S (next_mixer st)) (set_mixer (Some m) st))
    end in
  let st2 := stop_registered st1 in
  let st3 := stop_active st2 in
  if negb (mixer_rooted m) then inl st3
  else
    let '(h, m1, hp1, nh1) := clipAction m clip (heap st3) (next_handle st3) in
    let st4 := set_next_handle nh1 (set_heap hp1 (set_mixer (Some m1) st3)) in
    let st5 := on_action (set_clampWhenFinished true) h st4 in
    let st6 := on_action (set_loop LoopOnce) h st5 in
    let st7 := on_action action_reset h st6 in
    let st8 := on_action (action_setEffectiveTimeScale (7 # 10)) h st7 in
    let st9 := on_action (action_setEffectiveWeight 1) h st8 in
    let st10 := on_action action_play h st9 in
    let st11 := set_activeAction (Some h) st10 in
    let st12 :=
      match actions st11 !! clip_name clip with
      | Some _ => st11
      | None => set_actions (<[clip_name clip := h]> (actions st11)) st11
      end in
    inr (set_mixer (Some (add_finished_listener m1)) st12).

(** [loadActionAndPlay] from its [await] on: its [catch] block only
    throws the error again. *)
Definition loadActionAndPlay_resume (fadeSeconds : Q) (r : LoadResult)
    (st : ThreeRenderer) : Settled unit * ThreeRenderer :=
  match r with
  | LoadFail e => (Rejected e, st)
  | LoadOk g =>
      let clips := make_clips (next_uuid st) (gltf_animations g) in
      let st0 := set_next_uuid (next_uuid st + length clips)%nat st in
      match clips with
      | [] => (Rejected (JsError "No animations found in action file"), st0)
      | clip :: _ =>
          match start_action_plain clip st0 with
          | inr st' => (Resolved tt, st')
          | inl st' =>
              (Rejected (JsError "Cannot read properties of undefined"), st')
          end
      end
  end.

(** [loadActionAndPlay] when nothing else runs while the load is
    pending. *)
Definition loadActionAndPlay (actionUrl : string) (fadeSeconds : Q)
    (r : LoadResult) (st : ThreeRenderer) : Settled unit * ThreeRenderer :=
  match loadActionAndPlay_begin actionUrl st with
  | inl e => (Rejected e, st)
  | inr st1 => loadActionAndPlay_resume fadeSeconds r st1
  end.

(** An asset with neither geometry nor clips. *)
Definition sample_empty : GLTF := mkGLTF [] [].

(** [loadIonicAsset(relativePath)]: the loader is asked for the path. *)
Definition loadIonicAsset (relativePath : string) (st : ThreeRenderer)
    : ThreeRenderer :=
  add_request relativePath st.

(** [ngOnDestroy()] of the service; the frame request, the controls and
    the renderer it releases are not part of the state. *)
Definition ngOnDestroy (st : ThreeRenderer) : ThreeRenderer :=
  disposeCurrentModel st.

(** The service of [state_loaded] once it has been destroyed. *)
Definition state_destroyed : ThreeRenderer := ngOnDestroy state_loaded.

(** [applyTestAnimation()]: a new clip "TestMove" of two seconds and an
    action for it, set to repeat and started; the action is neither put
    in the registry nor marked active.  [repetitions] is [Infinity] in
    every action the library makes and the assignment here writes
    [Infinity] again, so it is not a field of [AnimationAction].  [inl]
    when [clipAction] throws a TypeError on a mixer made without a
    root. *)
Definition applyTestAnimation (st : ThreeRenderer)
    : ThreeRenderer + ThreeRenderer :=
  match currentModel st, mixer st with
  | Some _, Some m =>
      let testClip := mkClip (next_uuid st) "TestMove" 2 in
      let st0 := set_next_uuid (S (next_uuid st)) st in
      if negb (mixer_rooted m) then inl st0
      else
        let '(h, m1, hp1, nh1) :=
          clipAction m testClip (heap st0) (next_handle st0) in
        let st1 := set_next_handle nh1 (set_heap hp1 (set_mixer (Some m1) st0)) in
        let st2 := on_action (set_loop LoopRepeat) h st1 in
        inr (on_action action_play h st2)
  | _, _ => inr st
  end.

(** ** The frames

    [initialize] starts the loop [animate], which calls
    [this.mixer.update(dt)] once a frame.  The mixer advances the actions
    it has scheduled: it writes their time, their effective weight and
    time scale, and [enabled] or [paused] when an action finishes or a
    fade ends; and it writes the animated values into the objects below
    its root, the root included ([applyTestAnimation] animates the height
    of the model itself).  It makes and removes no action, and leaves the
    clip of an action, its mixer, its loop mode and [clampWhenFinished]
    alone.  The embedding does not compute the update: a frame may change
    the actions and the model in any way within these bounds. *)

Definition frame_action (a a' : AnimationAction) : Prop :=
  act_clip a' = act_clip a ∧ act_mixer a' = act_mixer a ∧
  clampWhenFinished a' = clampWhenFinished a ∧ loop a' = loop a.

Definition frame_heap (hp hp' : gmap nat AnimationAction) : Prop :=
  ∀ h, match hp !! h, hp' !! h with
       | Some a, Some a' => frame_action a a'
       | None, None => True
       | _, _ => False
       end.

Definition frame_model (m m' : option Object3D) : Prop :=
  match m, m' with
  | Some _, Some _ | None, None => True
  | _, _ => False
  end.

(** ** The states the service reaches

    One step is one call of a method of the service, one half of a call
    of an [async] method (the part up to the [await], or the part after
    it, resumed with whatever the loader answered), or one frame of the
    loop that [initialize] starts.  The halves of different calls and the
    frames may interleave in any order.  The relation allows every step
    the program can take, and more: a second half may run where no first
    half has run, and a frame may change more than the mixer would.  The
    methods that are not listed ([getClipNames], [getModelInfo],
    [fixResourcePath], [listModelAnimations], [checkAssetExists],
    [addDebugSkeleton]) leave the state as it is. *)

Inductive step : ThreeRenderer → ThreeRenderer → Prop :=
  | step_initialize w h st : step st (initialize w h st)
  | step_setBackground c st : step st (setBackground c st)
  | step_resize w h st : step st (resize w h st)
  | step_play n f st : step st (play n f st)
  | step_stop st : step st (stop st)
  | step_setTimeScale s st : step st (setTimeScale s st)
  | step_centerModel st : step st (centerModel st)
  | step_ngOnDestroy st : step st (ngOnDestroy st)
  | step_loadIonicAsset url st : step st (loadIonicAsset url st)
  | step_applyTestAnimation st st' :
      applyTestAnimation st = inl st' ∨ applyTestAnimation st = inr st' →
      step st st'
  | step_loadModel_begin url st : step st (loadModel_begin url st)
  | step_loadModel_resume r st : step st (loadModel_resume r st).2
  | step_playAnimation_begin url saved st st' :
      playAnimationForExistingModel_begin url st = inr (saved, st') →
      step st st'
  | step_playAnimation_resume f saved r st :
      step st (playAnimationForExistingModel_resume f saved r st).2
  | step_loadActionAndPlay_begin url st st' :
      loadActionAndPlay_begin url st = inr st' → step st st'
  | step_loadActionAndPlay_resume f r st :
      step st (loadActionAndPlay_resume f r st).2
  | step_frame hp' m' st :
      ready st = true → frame_heap (heap st) hp' →
      frame_model (currentModel st) m' →
      step st (set_currentModel m' (set_heap hp' st)).

Definition reachable (st : ThreeRenderer) : Prop := rtc step new_ThreeRenderer st.

(** The states reached when [initialize] is the first call, as it is on
    the screen: [ngAfterViewInit] initializes the service before it does
    anything else with it. *)
Definition reachable_initialized (st : ThreeRenderer) : Prop :=
  ∃ width height, rtc step (initialize width height new_ThreeRenderer) st.

(** A current model is in the scene: it is there only on a service
    that has been initialized. *)
Definition model_ready (st : ThreeRenderer) : Prop :=
  is_Some (currentModel st) → ready st = true.

(** Without a current model nothing of an animation is left: the
    registry is empty, no action is active, and a mixer, if there is one,
    was made without a root. *)
Definition no_model_clean (st : ThreeRenderer) : Prop :=
  currentModel st = None →
  actions st = ∅ ∧ activeAction st = None ∧
  match mixer st with
  | Some m => mixer_rooted m = false
  | None => True
  end.

(** Every registry entry is filed under the name of the clip of its
    action, and the action is set to clamp when finished and to play
    once. *)
Definition registry_ok (st : ThreeRenderer) : Prop :=
  map_Forall
    (λ n h, ∃ a, heap st !! h = Some a ∧ clip_name (act_clip a) = n ∧
                 clampWhenFinished a = true ∧ loop a = LoopOnce)
    (actions st).

(** A change of an action that keeps its clip and the way it ends. *)
Definition keeps_config (f : AnimationAction → AnimationAction) : Prop :=
  ∀ a, act_clip (f a) = act_clip a ∧
       clampWhenFinished (f a) = clampWhenFinished a ∧ loop (f a) = loop a.

(** What every reachable state satisfies, and, with [clean] set, what
    every state satisfies that is reached when [initialize] comes
    first. *)
Definition inv (clean : bool) (st : ThreeRenderer) : Prop :=
  wf st ∧ registry_ok st ∧ model_ready st ∧
  (clean = true → ready st = true ∧ no_model_clean st).

(** The statements the two ways of starting an action share, up to the
    assignment of [activeAction]: [inl] when [clipAction] throws, else
    the new handle, the mixer and the state. *)
Definition start_core (clip : AnimationClip) (st : ThreeRenderer)
    : ThreeRenderer + nat * AnimationMixer * ThreeRenderer :=
  let '(m, st1) :=
    match mixer st with
    | Some m => (m, st)
    | None =>
        let m := new_mixer (next_mixer st) (bool_decide (is_Some (currentModel st))) in
        (m, set_next_mixer (S (next_mixer st)) (set_mixer (Some m) st))
    end in
  let st2 := stop_registered st1 in
  let st3 := stop_active st2 in
  if negb (mixer_rooted m) then inl st3
  else
    let '(h, m1, hp1, nh1) := clipAction m clip (heap st3) (next_handle st3) in
    let st4 := set_next_handle nh1 (set_heap hp1 (set_mixer (Some m1) st3)) in
    let st5 := on_action (set_clampWhenFinished true) h st4 in
    let st6 := on_action (set_loop LoopOnce) h st5 in
    let st7 := on_action action_reset h st6 in
    let st8 := on_action (action_setEffectiveTimeScale (7 # 10)) h st7 in
    let st9 := on_action (action_setEffectiveWeight 1) h st8 in
    let st10 := on_action action_play h st9 in
    inr (h, m1, set_activeAction (Some h) st10).

(** [this.actions.set(clip.name, action)] unless the name is taken, then
    the listener for [finished]. *)
Definition register_and_listen (clip : AnimationClip) (h : nat)
    (m1 : AnimationMixer) (st : ThreeRenderer) : ThreeRenderer :=
  set_mixer (Some (add_finished_listener m1))
    match actions st !! clip_name clip with
    | Some _ => st
    | None => set_actions (<[clip_name clip := h]> (actions st)) st
    end.

(** ** The states the screen reaches

    The screen together with the calls of [playSign] that are suspended
    on their load.  A step is a selection (the first half of [playSign]),
    the second half of a suspended call, the passing of time, or the
    second half of [ngAfterViewInit]; the service may be in any state. *)

Record Screen : Type := mkScreen {
  scr_page : HomePage;
  scr_pending : list (AslSign * Transform)
}.

Definition after_select (k : PlaySignStep) (sign : AslSign)
    (pend : list (AslSign * Transform)) : list (AslSign * Transform) :=
  match k with
  | Awaiting saved => pend ++ [(sign, saved)]
  | _ => pend
  end.

Inductive screen_step : Screen → Screen → Prop :=
  | scr_select sign st pg pend :
      screen_step (mkScreen pg pend)
        (mkScreen (playSign_begin sign pg st).1.2
                  (after_select (playSign_begin sign pg st).1.1 sign pend))
  | scr_resume sign saved r st pg pend1 pend2 :
      screen_step (mkScreen pg (pend1 ++ (sign, saved) :: pend2))
        (mkScreen (playSign_resume sign saved r pg st).1 (pend1 ++ pend2))
  | scr_elapse ms pg pend :
      screen_step (mkScreen pg pend) (mkScreen (elapse ms pg) pend)
  | scr_viewInit r st pg pend :
      screen_step (mkScreen pg pend)
        (mkScreen (ngAfterViewInit_resume r pg st).1 pend).

Definition screen_reachable (s : Screen) : Prop :=
  rtc screen_step (mkScreen new_HomePage []) s.

(** At most one selection is in flight, as a suspended call or as a
    running timer, and none when [isPlaying] is false. *)
Definition one_in_flight (s : Screen) : Prop :=
  (isPlaying (scr_page s) = false →
     timers (scr_page s) = [] ∧ scr_pending s = []) ∧
  (length (scr_pending s) + length (timers (scr_page s)) ≤ 1)%nat ∧
  Forall (λ t, (0 < t ≤ 4000)%nat) (timers (scr_page s)).

(** ** getModelInfo

    The nodes below the current model are not part of [Object3D] above;
    [getModelInfo] takes them as the list that [traverse] visits, in its
    order.  Of a node it reads whether it is a skinned mesh, and then its
    name and the names of the bones of its skeleton. *)

Inductive SceneNode : Type :=
  | PlainNode
  | SkinnedMeshNode (name : string) (bones : list string).

Record ModelInfo : Type := mkInfo {
  info_animations : list string;
  info_bones : list string;
  info_meshes : list (string * nat)
}.

(** [bones.forEach((bone, i) => { if (i < 10) info.bones.push(bone.name) })],
    from index [i] on. *)
Fixpoint push_first_bones (i : nat) (bones acc : list string) : list string :=
  match bones with
  | [] => acc
  | b :: bones' =>
      push_first_bones (S i) bones' (if (i <? 10)%nat then acc ++ [b] else acc)
  end.

(** The callback of [traverse]. *)
Definition visit_node (info : ModelInfo) (node : SceneNode) : ModelInfo :=
  match node with
  | PlainNode => info
  | SkinnedMeshNode name bones =>
      mkInfo (info_animations info)
             (push_first_bones 0 bones (info_bones info))
             (info_meshes info ++ [(name, length bones)])
  end.

(** [getModelInfo()]; [None] is [null]. *)
Definition getModelInfo (nodes : list SceneNode) (st : ThreeRenderer)
    : option ModelInfo :=
  match currentModel st with
  | None => None
  | Some _ => Some (fold_left visit_node nodes (mkInfo [] [] []))
  end.

(** The skinned meshes among the nodes, with their bones. *)
Fixpoint skinned (nodes : list SceneNode) : list (string * list string) :=
  match nodes with
  | [] => []
  | PlainNode :: nodes' => skinned nodes'
  | SkinnedMeshNode name bones :: nodes' => (name, bones) :: skinned nodes'
  end.

(** * Numbers *)

Lemma js_gt_true a b : js_gt a b = true ↔ b < a.
Proof.
  unfold js_gt. rewrite negb_true_iff. split.
  - intros H. apply Qnot_le_lt. intros Hle. apply Qle_bool_iff in Hle. congruence.
  - intros H. destruct (Qle_bool a b) eqn:E; [|done].
    apply Qle_bool_iff in E. exfalso. exact (Qlt_not_le _ _ H E).
Qed.

Lemma js_gt_false a b : js_gt a b = false ↔ a <= b.
Proof.
  unfold js_gt. rewrite negb_false_iff. apply Qle_bool_iff.
Qed.

Lemma js_lt_true a b : js_lt a b = true ↔ a < b.
Proof. apply js_gt_true. Qed.

Lemma js_lt_false a b : js_lt a b = false ↔ b <= a.
Proof. apply js_gt_false. Qed.

Lemma jsdiv_Some a b : ¬ b == 0 → jsdiv a b = Some (a / b).
Proof.
  intros H. unfold jsdiv. destruct (Qeq_bool b 0) eqn:E; [|done].
  apply Qeq_bool_iff in E. contradiction.
Qed.

Lemma Qmax_affine k t a b :
  0 <= k → Qmax (k * a + t) (k * b + t) == k * Qmax a b + t.
Proof.
  intros Hk. apply (Q.max_mono (λ x, k * x + t)).
  - intros x y E. by rewrite E.
  - intros x y E. apply Qplus_le_compat; [|apply Qle_refl].
    rewrite (Qmult_comm k x), (Qmult_comm k y). by apply Qmult_le_compat_r.
Qed.

Lemma Qmin_affine k t a b :
  0 <= k → Qmin (k * a + t) (k * b + t) == k * Qmin a b + t.
Proof.
  intros Hk. apply (Q.min_mono (λ x, k * x + t)).
  - intros x y E. by rewrite E.
  - intros x y E. apply Qplus_le_compat; [|apply Qle_refl].
    rewrite (Qmult_comm k x), (Qmult_comm k y). by apply Qmult_le_compat_r.
Qed.

Lemma max3_scale k a b c : 0 <= k → max3 (k * a) (k * b) (k * c) == k * max3 a b c.
Proof.
  intros Hk. unfold max3.
  pose proof (Qmax_affine k 0 a b Hk) as H1.
  pose proof (Qmax_affine k 0 (Qmax a b) c Hk) as H2.
  rewrite !Qplus_0_r in H1, H2. by rewrite H1, H2.
Qed.

#[global] Instance max3_proper : Proper (Qeq ==> Qeq ==> Qeq ==> Qeq) max3.
Proof. intros a a' Ea b b' Eb c c' Ec. unfold max3. by rewrite Ea, Eb, Ec. Qed.

(** * Boxes *)

#[global] Instance v3_eq_equiv : Equivalence v3_eq.
Proof.
  split.
  - intros a. by repeat split.
  - intros a b (H1 & H2 & H3). by repeat split.
  - intros a b c (H1 & H2 & H3) (H4 & H5 & H6). repeat split; etrans; eauto.
Qed.

#[global] Instance box_eq_equiv : Equivalence box_eq.
Proof.
  split.
  - intros [[lo hi]|]; simpl; [|done]. split; reflexivity.
  - intros [[lo hi]|] [[lo' hi']|]; simpl; try done. intros [H1 H2]. by split.
  - intros [[lo hi]|] [[lo' hi']|] [[lo2 hi2]|]; simpl; try done.
    intros [H1 H2] [H3 H4]. split; etrans; eauto.
Qed.

#[global] Instance v3_min_proper : Proper (v3_eq ==> v3_eq ==> v3_eq) v3_min.
Proof.
  intros a a' (H1 & H2 & H3) b b' (H4 & H5 & H6). unfold v3_min, v3_eq; simpl.
  by rewrite H1, H2, H3, H4, H5, H6.
Qed.

#[global] Instance v3_max_proper : Proper (v3_eq ==> v3_eq ==> v3_eq) v3_max.
Proof.
  intros a a' (H1 & H2 & H3) b b' (H4 & H5 & H6). unfold v3_max, v3_eq; simpl.
  by rewrite H1, H2, H3, H4, H5, H6.
Qed.

#[global] Instance v3_affine_proper k t : Proper (v3_eq ==> v3_eq) (v3_affine k t).
Proof.
  intros a a' (H1 & H2 & H3). unfold v3_affine, v3_eq; simpl.
  by rewrite H1, H2, H3.
Qed.

#[global] Instance box_affine_proper k t : Proper (box_eq ==> box_eq) (box_affine k t).
Proof.
  intros [[lo hi]|] [[lo' hi']|]; simpl; try done.
  intros [H1 H2]. by rewrite H1, H2.
Qed.

#[global] Instance expandByPoint_proper : Proper (box_eq ==> v3_eq ==> box_eq) expandByPoint.
Proof.
  intros [[lo hi]|] [[lo' hi']|] Hb p p' Hp; simpl in *; try done.
  destruct Hb as [H1 H2]. split.
  - by apply v3_min_proper.
  - by apply v3_max_proper.
Qed.

Lemma v3_min_affine k t a b :
  0 <= k → v3_eq (v3_min (v3_affine k t a) (v3_affine k t b)) (v3_affine k t (v3_min a b)).
Proof. intros Hk. repeat split; simpl; by apply Qmin_affine. Qed.

Lemma v3_max_affine k t a b :
  0 <= k → v3_eq (v3_max (v3_affine k t a) (v3_affine k t b)) (v3_affine k t (v3_max a b)).
Proof. intros Hk. repeat split; simpl; by apply Qmax_affine. Qed.

Lemma expandByPoint_affine k t b p :
  0 <= k →
  box_eq (expandByPoint (box_affine k t b) (v3_affine k t p))
         (box_affine k t (expandByPoint b p)).
Proof.
  intros Hk. destruct b as [[lo hi]|]; simpl.
  - split; [by apply v3_min_affine | by apply v3_max_affine].
  - split; reflexivity.
Qed.

Lemma localToWorld_affine k t p :
  v3_eq (localToWorld t (v3_setScalar k) p) (v3_affine k t p).
Proof. repeat split; reflexivity. Qed.

Lemma fold_expand_affine k t g :
  0 <= k → ∀ b b',
  box_eq b' (box_affine k t b) →
  box_eq (fold_left expandByPoint (map (localToWorld t (v3_setScalar k)) g) b')
         (box_affine k t (fold_left expandByPoint g b)).
Proof.
  intros Hk. induction g as [|p g IH]; intros b b' Hb; simpl; [done|].
  apply IH. rewrite Hb, localToWorld_affine. by apply expandByPoint_affine.
Qed.

Lemma setFromObject_affine k t g :
  0 <= k →
  box_eq (setFromObject t (v3_setScalar k) g) (box_affine k t (setFromPoints g)).
Proof. intros Hk. by apply fold_expand_affine. Qed.

Lemma box_affine_id b : box_eq (box_affine 1 v3_zero b) b.
Proof.
  destruct b as [[lo hi]|]; simpl; [|done].
  split; repeat split; simpl; ring.
Qed.

Lemma asset_box_points g : box_eq (asset_box g) (setFromPoints g).
Proof.
  unfold asset_box. change v3_one with (v3_setScalar 1).
  rewrite setFromObject_affine by done. apply box_affine_id.
Qed.

(** The box of a model at position [t] and uniform scale [k] is the image
    of the box of its asset. *)
Lemma setFromObject_asset k t g :
  0 <= k →
  box_eq (setFromObject t (v3_setScalar k) g) (box_affine k t (asset_box g)).
Proof.
  intros Hk. rewrite setFromObject_affine by done. by rewrite asset_box_points.
Qed.

#[global] Instance getSize_proper : Proper (box_eq ==> v3_eq) getSize.
Proof.
  intros [[lo hi]|] [[lo' hi']|]; simpl; try done.
  intros [(H1 & H2 & H3) (H4 & H5 & H6)]. repeat split; simpl.
  - by rewrite H1, H4. - by rewrite H2, H5. - by rewrite H3, H6.
Qed.

#[global] Instance getCenter_proper : Proper (box_eq ==> v3_eq) getCenter.
Proof.
  intros [[lo hi]|] [[lo' hi']|]; simpl; try done.
  intros [(H1 & H2 & H3) (H4 & H5 & H6)]. repeat split; simpl.
  - by rewrite H1, H4. - by rewrite H2, H5. - by rewrite H3, H6.
Qed.

#[global] Instance maxDim_proper : Proper (box_eq ==> Qeq) maxDim.
Proof.
  intros b b' Hb. unfold maxDim. destruct (getSize_proper _ _ Hb) as (H1 & H2 & H3).
  by rewrite H1, H2, H3.
Qed.

Lemma getSize_affine k t b :
  v3_eq (getSize (box_affine k t b)) (v3_multiplyScalar (getSize b) k).
Proof.
  destruct b as [[lo hi]|]; repeat split; simpl; ring.
Qed.

Lemma getCenter_affine k t b :
  b ≠ None →
  v3_eq (getCenter (box_affine k t b)) (v3_affine k t (getCenter b)).
Proof.
  destruct b as [[lo hi]|]; [|done]. intros _. repeat split; simpl; ring.
Qed.

Lemma maxDim_affine k t b : 0 <= k → maxDim (box_affine k t b) == k * maxDim b.
Proof.
  intros Hk. unfold maxDim.
  destruct (getSize_affine k t b) as (H1 & H2 & H3). rewrite H1, H2, H3. simpl.
  rewrite <- max3_scale by done.
  by rewrite (Qmult_comm k), (Qmult_comm k (vy _)), (Qmult_comm k (vz _)).
Qed.

(** * loadModel: where the model is put *)

Lemma loadModel_place_positive g :
  0 < maxDim (asset_box g) →
  loadModel_place g =
    Finite (v3_sub v3_zero (getCenter (asset_box g)))
           (v3_setScalar ((3 # 2) / maxDim (asset_box g))).
Proof.
  intros Hpos. unfold loadModel_place. fold (asset_box g). fold (maxDim (asset_box g)).
  apply js_gt_true in Hpos as Hgt. rewrite Hgt.
  rewrite jsdiv_Some; [done|].
  intros E. rewrite E in Hpos. by apply Qlt_irrefl in Hpos.
Qed.

Lemma loadModel_place_flat g :
  maxDim (asset_box g) <= 0 →
  loadModel_place g = Finite (v3_sub v3_zero (getCenter (asset_box g))) v3_one.
Proof.
  intros Hle. unfold loadModel_place. fold (asset_box g). fold (maxDim (asset_box g)).
  apply js_gt_false in Hle. by rewrite Hle.
Qed.

(** The part of the placement that holds: the largest dimension of the
    box of the placed model is 1.5; and where its centre lands, which is
    the origin only when the asset was centred already or needed no
    rescaling. *)
Lemma loadModel_place_box g :
  0 < maxDim (asset_box g) →
  ∃ position k,
    loadModel_place g = Finite position (v3_setScalar k) ∧
    0 < k ∧ k == (3 # 2) / maxDim (asset_box g) ∧
    maxDim (setFromObject position (v3_setScalar k) g) == 3 # 2 ∧
    v3_eq (getCenter (setFromObject position (v3_setScalar k) g))
          (v3_multiplyScalar (getCenter (asset_box g)) (k - 1)).
Proof.
  intros Hpos. eexists _, _. split; [by apply loadModel_place_positive|].
  set (k := (3 # 2) / maxDim (asset_box g)).
  assert (Hk : 0 < k).
  { unfold k. apply Qlt_shift_div_l; [done|]. by rewrite Qmult_0_l. }
  assert (Hne : ¬ maxDim (asset_box g) == 0).
  { intros E. rewrite E in Hpos. by apply Qlt_irrefl in Hpos. }
  split; [done|]. split; [reflexivity|].
  assert (Hbox := setFromObject_asset k (v3_sub v3_zero (getCenter (asset_box g))) g
                    (Qlt_le_weak _ _ Hk)).
  split.
  - rewrite Hbox, maxDim_affine by by apply Qlt_le_weak.
    unfold k. field. done.
  - rewrite Hbox. destruct (asset_box g) as [[lo hi]|] eqn:Eb.
    + rewrite getCenter_affine by done. repeat split; simpl; ring.
    + exfalso. revert Hpos. unfold maxDim, max3. simpl. by vm_compute.
Qed.

(** * centerModel *)

Lemma centerModel_object_in_range m p s :
  transform m = Finite p s →
  1 <= maxDim (measured_box s m) → maxDim (measured_box s m) <= 3 →
  centerModel_object m =
    set_transform
      (Finite (mkV3 (- vx (getCenter (measured_box s m)))
                    (- vy (getCenter (measured_box s m))
                     + vy (getSize (measured_box s m)) * (1 # 2))
                    (- vz (getCenter (measured_box s m)))) s) m.
Proof.
  intros Ht H1 H3. unfold centerModel_object. rewrite Ht.
  fold (measured_box s m). fold (maxDim (measured_box s m)).
  apply js_gt_false in H3. apply js_lt_false in H1. by rewrite H3, H1.
Qed.

Lemma centerModel_object_idempotent m p s :
  transform m = Finite p s →
  1 <= maxDim (measured_box s m) → maxDim (measured_box s m) <= 3 →
  centerModel_object (centerModel_object m) = centerModel_object m.
Proof.
  intros Ht H1 H3.
  rewrite (centerModel_object_in_range m p s) by done.
  by erewrite centerModel_object_in_range.
Qed.

(** * Actions and the heap of actions *)

Lemma action_stop_idem a : action_stop (action_stop a) = action_stop a.
Proof. reflexivity. Qed.

Lemma isRunning_stop a : isRunning (action_stop a) = false.
Proof. unfold isRunning. simpl. apply andb_false_r. Qed.


Lemma stop_all_lookup hs (hp : gmap nat AnimationAction) h :
  stop_all hs hp !! h =
    if decide (h ∈ hs) then action_stop <$> hp !! h else hp !! h.
Proof.
  induction hs as [|x hs IH].
  - destruct (decide (h ∈ [])) as [Hin|_]; [|done]. by apply not_elem_of_nil in Hin.
  - change (stop_all (x :: hs) hp) with (alter action_stop x (stop_all hs hp)).
    destruct (decide (x = h)) as [->|Hne].
    + rewrite lookup_alter_eq, IH.
      destruct (decide (h ∈ h :: hs)) as [_|Hn]; [|destruct Hn; by left].
      case_decide; [|done]. by destruct (hp !! h).
    + rewrite lookup_alter_ne, IH by done.
      destruct (decide (h ∈ x :: hs)) as [Hin|Hn]; case_decide; try done.
      * apply elem_of_cons in Hin as [?|?]; congruence.
      * destruct Hn. by right.
Qed.

Lemma stop_all_is_Some hs (hp : gmap nat AnimationAction) h :
  is_Some (stop_all hs hp !! h) ↔ is_Some (hp !! h).
Proof.
  rewrite stop_all_lookup. case_decide; [|done]. by rewrite fmap_is_Some.
Qed.

Lemma elem_of_registered_handles (r : gmap string nat) h :
  h ∈ registered_handles r ↔ ∃ n, r !! n = Some h.
Proof.
  unfold registered_handles. rewrite list_elem_of_fmap. split.
  - intros [[n h'] [-> Hin]]. exists n. by apply elem_of_map_to_list.
  - intros [n Hn]. exists (n, h). split; [done|]. by apply elem_of_map_to_list.
Qed.

Lemma clipAction_new m c (hp : gmap nat AnimationAction) nh :
  actionsByClip m !! clip_uuid c = None →
  clipAction m c hp nh =
    (nh,
     mkMixer (mixer_id m) (mixer_rooted m) (mixer_timeScale m)
             (<[clip_uuid c := nh]> (actionsByClip m)) (finished_listeners m),
     <[nh := new_action (mixer_id m) c]> hp,
     S nh).
Proof. intros H. unfold clipAction. by rewrite H. Qed.

(** The heap once every registered action and the active action have
    been stopped. *)
Lemma stopped_heap_lookup st h :
  heap (stop_active (stop_registered st)) !! h =
    if decide (h ∈ registered_handles (actions st) ∨ activeAction st = Some h)
    then action_stop <$> heap st !! h
    else heap st !! h.
Proof.
  unfold stop_active, stop_registered. simpl.
  destruct (activeAction st) as [a|] eqn:Ea; simpl.
  - destruct (decide (a = h)) as [->|Hne].
    + rewrite lookup_alter_eq, stop_all_lookup.
      destruct (decide (_ ∨ _)) as [_|Hn]; [|by destruct Hn; right].
      case_decide; [|done]. by destruct (heap st !! h).
    + rewrite lookup_alter_ne, stop_all_lookup by done.
      destruct (decide (_ ∨ _)) as [[?|?]|Hn]; case_decide; try done.
      * congruence.
      * destruct Hn. by left.
  - rewrite stop_all_lookup.
    destruct (decide (_ ∨ _)) as [[?|?]|Hn]; case_decide; try done.
    destruct Hn. by left.
Qed.

Lemma stopped_heap_is_Some st h :
  is_Some (heap (stop_active (stop_registered st)) !! h) ↔ is_Some (heap st !! h).
Proof.
  rewrite stopped_heap_lookup. case_decide; [|done]. by rewrite fmap_is_Some.
Qed.

Lemma stopped_fields st :
  let st' := stop_active (stop_registered st) in
  activeAction st' = None ∧ actions st' = actions st ∧ mixer st' = mixer st ∧
  currentModel st' = currentModel st ∧ next_handle st' = next_handle st ∧
  next_uuid st' = next_uuid st ∧ next_mixer st' = next_mixer st ∧
  requests st' = requests st.
Proof.
  unfold stop_active, stop_registered. simpl.
  destruct (activeAction st) eqn:E; simpl; by repeat split.
Qed.

(** * playAnimationForExistingModel: starting the action *)

(** What [start_action] does to a state with a current model in which
    the mixer, if any, has not seen the clip. *)
Lemma start_action_inr clip saved st model :
  currentModel st = Some model →
  (∀ m, mixer st = Some m →
        actionsByClip m !! clip_uuid clip = None ∧ mixer_rooted m = true) →
  ∃ st' id,
    start_action clip saved st = inr st' ∧
    activeAction st' = Some (next_handle st) ∧
    heap st' = <[next_handle st := started_action id clip]>
                 (heap (stop_active (stop_registered st))) ∧
    actions st' =
      match actions st !! clip_name clip with
      | Some _ => actions st
      | None => <[clip_name clip := next_handle st]> (actions st)
      end ∧
    currentModel st' = Some (set_transform saved model) ∧
    next_handle st' = S (next_handle st) ∧
    next_uuid st' = next_uuid st ∧
    requests st' = requests st.
Proof.
  intros Hmodel Hmixer. unfold start_action.
  destruct (mixer st) as [m|] eqn:Em.
  - destruct (Hmixer m eq_refl) as [Hfresh Hroot]. rewrite Hroot. simpl.
    destruct (stopped_fields st) as (Ha & Hr & _ & Hc & Hn & Hu & _ & Hq).
    rewrite clipAction_new by done. simpl.
    rewrite Hc, Hmodel. simpl. rewrite Hn.
    eexists _, (mixer_id m). split; [reflexivity|].
    rewrite Hr. destruct (actions st !! clip_name clip); simpl;
      rewrite ?Hn, ?Hu, ?Hq, ?Hr; repeat split; try done;
      by rewrite !alter_insert_eq.
  - rewrite Hmodel. simpl.
    set (st1 := set_next_mixer _ _).
    assert (Hheap : heap (stop_active (stop_registered st1))
                    = heap (stop_active (stop_registered st))).
    { unfold stop_active, stop_registered, st1. simpl.
      by destruct (activeAction st). }
    destruct (stopped_fields st1) as (Ha & Hr & _ & Hc & Hn & Hu & _ & Hq).
    simpl in Hr, Hc, Hn, Hu, Hq.
    rewrite clipAction_new by apply lookup_empty. simpl.
    rewrite Hc, Hmodel. simpl. rewrite Hn, Hheap.
    eexists _, (next_mixer st). split; [reflexivity|].
    rewrite Hr. destruct (actions st !! clip_name clip); simpl;
      rewrite ?Hn, ?Hu, ?Hq, ?Hr; repeat split; try done;
      by rewrite !alter_insert_eq.
Qed.

(** * playAnimationForExistingModel: the outcome *)

Lemma wf_fresh_clip st m :
  wf st → mixer st = Some m →
  actionsByClip m !! next_uuid st = None ∧
  (is_Some (currentModel st) → mixer_rooted m = true).
Proof.
  intros (Hm & _) Em. rewrite Em in Hm. destruct Hm as [Hcache Hroot].
  split; [|done].
  destruct (actionsByClip m !! next_uuid st) eqn:E; [|done].
  apply Hcache in E. simpl in E. lia.
Qed.

(** When the resumed method resolves, and what it leaves. *)
Lemma resume_resolved fadeSeconds saved r st st' :
  wf st →
  playAnimationForExistingModel_resume fadeSeconds saved r st = (Resolved tt, st') →
  ∃ g c cs model id,
    r = LoadOk g ∧ gltf_animations g = c :: cs ∧ currentModel st = Some model ∧
    activeAction st' = Some (next_handle st) ∧
    heap st' =
      <[next_handle st :=
          started_action id (mkClip (next_uuid st) (cd_name c) (cd_duration c))]>
        (heap (stop_active (stop_registered st))) ∧
    actions st' =
      match actions st !! cd_name c with
      | Some _ => actions st
      | None => <[cd_name c := next_handle st]> (actions st)
      end ∧
    currentModel st' = Some (set_transform saved model) ∧
    requests st' = requests st.
Proof.
  intros Hwf. unfold playAnimationForExistingModel_resume.
  destruct r as [g|e]; [|done].
  destruct (gltf_animations g) as [|c cs] eqn:Eg; [done|]. simpl.
  set (st0 := set_next_uuid _ st).
  set (clip := mkClip (next_uuid st) (cd_name c) (cd_duration c)).
  destruct (currentModel st) as [model|] eqn:Ec.
  - destruct (start_action_inr clip saved st0 model) as
      (st1 & id & Hs & Ha & Hh & Hr & Hm & _ & _ & Hq); [done| |].
    { intros m Em. destruct (wf_fresh_clip st m Hwf Em) as [H1 H2].
      split; [done|]. apply H2. by rewrite Ec. }
    rewrite Hs. intros [= <-]. exists g, c, cs, model, id.
    repeat split; try done.
    rewrite Hh. f_equal. unfold stop_active, stop_registered, st0. simpl.
    by destruct (activeAction st).
  - intros H. exfalso. revert H. unfold start_action.
    assert (Hno : ∀ s, currentModel (stop_active (stop_registered s)) = currentModel s).
    { intros s. by destruct (stopped_fields s) as (_ & _ & _ & ? & _). }
    destruct (mixer st0) as [m|] eqn:Em.
    + destruct (mixer_rooted m); simpl; [|done].
      destruct (clipAction _ _ _ _) as [[[h m1] hp1] nh1]. simpl.
      rewrite Hno. simpl. by rewrite Ec.
    + simpl. rewrite Ec. simpl. done.
Qed.

(** When the resumed method rejects, it is for one of three reasons. *)
Lemma resume_rejected fadeSeconds saved r st e st' :
  wf st →
  playAnimationForExistingModel_resume fadeSeconds saved r st = (Rejected e, st') →
  r = LoadFail e
  ∨ (∃ g, r = LoadOk g ∧ gltf_animations g = []
          ∧ e = JsError "No animations found in action file")
  ∨ (currentModel st = None
     ∧ e = JsError "Cannot read properties of undefined").
Proof.
  intros Hwf. unfold playAnimationForExistingModel_resume.
  destruct r as [g|e0]; [|intros [= <- _]; by left].
  destruct (gltf_animations g) as [|c cs] eqn:Eg; simpl.
  { intros [= <- _]. right; left. by exists g. }
  destruct (start_action _ _ _) as [s|s] eqn:Es; [|done].
  intros [= <- _]. right; right. split; [|done].
  destruct (currentModel st) as [model|] eqn:Ec; [|done]. exfalso.
  destruct (start_action_inr
              (mkClip (next_uuid st) (cd_name c) (cd_duration c)) saved
              (set_next_uuid (next_uuid st + S (length (make_clips (S (next_uuid st)) cs)))%nat st)
              model) as (st1 & id & Hs & _); [done| |].
  { intros m Em. destruct (wf_fresh_clip st m Hwf Em) as [H1 H2].
    split; [done|]. apply H2. by rewrite Ec. }
  simpl in Es. congruence.
Qed.

(** With a current model and a clip in the asset the method resolves. *)
Lemma resume_resolves fadeSeconds saved g c cs st model :
  wf st → currentModel st = Some model → gltf_animations g = c :: cs →
  ∃ st', playAnimationForExistingModel_resume fadeSeconds saved (LoadOk g) st
         = (Resolved tt, st').
Proof.
  intros Hwf Ec Eg.
  destruct (playAnimationForExistingModel_resume fadeSeconds saved (LoadOk g) st)
    as [[[]|e] st'] eqn:E; [by eexists|].
  apply resume_rejected in E as [?|[(g' & Hg & ? & _)|[? _]]]; [done| | |done].
  - injection Hg as <-. congruence.
  - congruence.
Qed.

(** * Claims on playAnimationForExistingModel *)

(** C4. When [playAnimationForExistingModel] resolves, the first clip of
    the loaded asset is playing at once, at effective time scale 0.7 and
    effective weight 1, set to play once and to clamp when finished, with
    no fade scheduled whatever [fadeSeconds] is; and the current model has
    the position and scale that were captured before the load, whatever
    the state the method is resumed in. *)
Theorem C4_first_clip_started_transform_restored
    actionUrl fadeSeconds st saved st1 r st2 st3 :
  playAnimationForExistingModel_begin actionUrl st = inr (saved, st1) →
  wf st2 →
  playAnimationForExistingModel_resume fadeSeconds saved r st2 = (Resolved tt, st3) →
  (∃ m, currentModel st = Some m ∧ transform m = saved) ∧
  (∃ m3, currentModel st3 = Some m3 ∧ transform m3 = saved) ∧
  (∀ f, playAnimationForExistingModel_resume f saved r st2 = (Resolved tt, st3)) ∧
  ∃ g c cs h a,
    r = LoadOk g ∧ gltf_animations g = c :: cs ∧
    activeAction st3 = Some h ∧ heap st3 !! h = Some a ∧
    clip_name (act_clip a) = cd_name c ∧
    clip_duration (act_clip a) = cd_duration c ∧
    isRunning a = true ∧ scheduled a = true ∧ time a = 0 ∧
    effectiveTimeScale a = 7 # 10 ∧ effectiveWeight a = 1 ∧
    loop a = LoopOnce ∧ clampWhenFinished a = true ∧ fading a = None.
Proof.
  intros Hbegin Hwf Hres.
  split.
  { unfold playAnimationForExistingModel_begin in Hbegin.
    destruct (currentModel st) as [m|]; [|done].
    injection Hbegin as <- _. by exists m. }
  destruct (resume_resolved _ _ _ _ _ Hwf Hres)
    as (g & c & cs & model & id & -> & Hg & Hc & Ha & Hh & _ & Hm & _).
  split; [by eexists|]. split; [done|].
  exists g, c, cs, (next_handle st2).
  eexists. rewrite Hh, lookup_insert_eq. by repeat split.
Qed.

(** The sample run: the sign "Ball" is selected on the loaded character
    and its action file arrives. *)
Lemma state_loaded_wf : wf state_loaded.
Proof. apply (bool_decide_unpack _). vm_compute. reflexivity. Qed.

Lemma state_pending_wf : wf state_pending.
Proof. apply (bool_decide_unpack _). vm_compute. reflexivity. Qed.

Lemma begin_ball :
  playAnimationForExistingModel_begin ball_url state_loaded
  = inr (sample_saved, state_pending).
Proof. vm_compute. reflexivity. Qed.

Lemma resume_ball :
  playAnimationForExistingModel_resume (3 # 10) sample_saved
    (LoadOk sample_action) state_pending = (Resolved tt, state_signed).
Proof. vm_compute. reflexivity. Qed.

Lemma C4_witness :
  playAnimationForExistingModel_begin ball_url state_loaded
    = inr (sample_saved, state_pending)
  ∧ wf state_pending
  ∧ playAnimationForExistingModel_resume (3 # 10) sample_saved
      (LoadOk sample_action) state_pending = (Resolved tt, state_signed)
  ∧ ∃ m3, currentModel state_signed = Some m3 ∧ transform m3 = sample_saved.
Proof.
  exact (conj begin_ball (conj state_pending_wf (conj resume_ball
    (proj1 (proj2
      (C4_first_clip_started_transform_restored
         ball_url (3 # 10) state_loaded sample_saved state_pending
         (LoadOk sample_action) state_pending state_signed
         begin_ball state_pending_wf resume_ball)))))).
Defined.





Lemma playSign_failed_error sign pg :
  isPlaying (playSign_failed sign pg) = false ∧
  ∃ msg, error (playSign_failed sign pg) = Some msg ∧ msg ≠ "".
Proof. split; [done|]. eexists. split; [reflexivity|]. done. Qed.









(** * play *)

Lemma replayed_action_fields f a :
  time (replayed_action f a) = 0 ∧
  weight (replayed_action f a) = 1 ∧ effectiveWeight (replayed_action f a) = 1 ∧
  timeScale (replayed_action f a) = 1 ∧ effectiveTimeScale (replayed_action f a) = 1 ∧
  fading (replayed_action f a) = Some (mkFade 0 1 f) ∧
  scheduled (replayed_action f a) = true ∧
  paused (replayed_action f a) = false ∧ enabled (replayed_action f a) = true ∧
  isRunning (replayed_action f a) = true ∧
  act_clip (replayed_action f a) = act_clip a ∧
  loop (replayed_action f a) = loop a ∧
  clampWhenFinished (replayed_action f a) = clampWhenFinished a.
Proof. by repeat split. Qed.

(** [play] on a registered name. *)
Lemma play_registered name f st next a :
  actions st !! name = Some next → heap st !! next = Some a →
  activeAction (play name f st) = Some next ∧
  actions (play name f st) = actions st ∧
  currentModel (play name f st) = currentModel st ∧
  heap (play name f st) !! next = Some (replayed_action f a) ∧
  (∀ prev, activeAction st = Some prev → prev ≠ next →
     heap (play name f st) !! prev = action_fadeOut f <$> heap st !! prev) ∧
  (∀ h, h ≠ next → activeAction st ≠ Some h →
     heap (play name f st) !! h = heap st !! h).
Proof.
  intros Hn Ha. unfold play. rewrite Hn.
  set (st1 := match activeAction st with Some _ => _ | None => _ end).
  assert (H1 : heap st1 !! next = Some a ∧ actions st1 = actions st
               ∧ currentModel st1 = currentModel st
               ∧ (∀ prev, activeAction st = Some prev → prev ≠ next →
                    heap st1 !! prev = action_fadeOut f <$> heap st !! prev)
               ∧ (∀ h, h ≠ next → activeAction st ≠ Some h →
                    heap st1 !! h = heap st !! h)).
  { unfold st1. destruct (activeAction st) as [p|]; [|by repeat split].
    case_decide as Hp; [subst p; repeat split; try done; congruence|].
    simpl. repeat split; try done.
    - by rewrite lookup_alter_ne.
    - intros prev [= <-] _. by rewrite lookup_alter_eq.
    - intros h _ Hh. rewrite lookup_alter_ne; [done|congruence]. }
  destruct H1 as (Hnext & Hr & Hc & Hprev & Hother). simpl.
  repeat split; try done.
  - rewrite !lookup_alter_eq, Hnext. done.
  - intros prev Hp Hne. rewrite !lookup_alter_ne by done. by apply Hprev.
  - intros h Hne Hh. rewrite !lookup_alter_ne by done. by apply Hother.
Qed.

(** C7, as amended.  [play(name, fadeSeconds)] leaves the state as it is
    when [name] is not registered.  Otherwise the registered handle has
    its time reset to zero and its weight and speed set to 1, is faded in
    over [fadeSeconds], started and marked active; an active handle that
    differs from the registered one is faded out over [fadeSeconds],
    whatever the name of its clip; the registered handle itself, when it
    is the active one, is not faded out, only reset and replayed; no other
    action is touched. *)
Theorem C7_play_by_handle name fadeSeconds st :
  match actions st !! name with
  | None => play name fadeSeconds st = st
  | Some next =>
      ∀ a, heap st !! next = Some a →
        activeAction (play name fadeSeconds st) = Some next ∧
        actions (play name fadeSeconds st) = actions st ∧
        heap (play name fadeSeconds st) !! next
          = Some (replayed_action fadeSeconds a) ∧
        time (replayed_action fadeSeconds a) = 0 ∧
        weight (replayed_action fadeSeconds a) = 1 ∧
        effectiveWeight (replayed_action fadeSeconds a) = 1 ∧
        timeScale (replayed_action fadeSeconds a) = 1 ∧
        effectiveTimeScale (replayed_action fadeSeconds a) = 1 ∧
        fading (replayed_action fadeSeconds a) = Some (mkFade 0 1 fadeSeconds) ∧
        isRunning (replayed_action fadeSeconds a) = true ∧
        (∀ prev, activeAction st = Some prev → prev ≠ next →
           heap (play name fadeSeconds st) !! prev
             = action_fadeOut fadeSeconds <$> heap st !! prev) ∧
        (∀ h, h ≠ next → activeAction st ≠ Some h →
           heap (play name fadeSeconds st) !! h = heap st !! h)
  end.
Proof.
  destruct (actions st !! name) as [next|] eqn:Hn.
  - intros a Ha.
    destruct (play_registered name fadeSeconds st next a Hn Ha)
      as (H1 & H2 & _ & H3 & H4 & H5).
    by repeat split.
  - unfold play. by rewrite Hn.
Qed.

(** C7 as stated fails: after the character with the embedded clip
    "Idle" is loaded and an action file whose clip is also named "Idle" is
    played, the active animation (handle 1) has the name "Idle", "Idle" is
    registered (handle 0), and [play("Idle", 0.3)] fades the same-name
    active animation out instead of resetting and replaying it. *)
Lemma C7_same_name_active_is_faded_out :
  activeAction state_signed = Some 1%nat ∧
  (clip_name ∘ act_clip <$> heap state_signed !! 1%nat) = Some "Idle" ∧
  actions state_signed !! "Idle" = Some 0%nat ∧
  (fading <$> heap (play "Idle" (3 # 10) state_signed) !! 1%nat)
    = Some (Some (mkFade 1 0 (3 # 10))) ∧
  (timeScale <$> heap (play "Idle" (3 # 10) state_signed) !! 1%nat)
    = Some (7 # 10) ∧
  activeAction (play "Idle" (3 # 10) state_signed) = Some 0%nat.
Proof. vm_compute. by repeat split. Qed.

(** C10.  When [playAnimationForExistingModel] loads a clip whose name is
    already a key of the registry, the registry is left as it is (the
    name keeps the handle made earlier) while a newly made handle becomes
    the active animation; a later [play] on that name then resets and
    replays the old registered handle, and only fades out the handle that
    was active. *)
Theorem C10_registered_name_keeps_old_handle
    fadeSeconds fade2 saved g c cs st st' h_old :
  wf st →
  gltf_animations g = c :: cs →
  actions st !! cd_name c = Some h_old →
  playAnimationForExistingModel_resume fadeSeconds saved (LoadOk g) st
    = (Resolved tt, st') →
  actions st' = actions st ∧
  ∃ h_new a_new a_old,
    activeAction st' = Some h_new ∧ h_new ≠ h_old ∧
    heap st !! h_new = None ∧
    heap st' !! h_new = Some a_new ∧ clip_name (act_clip a_new) = cd_name c ∧
    heap st' !! h_old = Some a_old ∧
    activeAction (play (cd_name c) fade2 st') = Some h_old ∧
    actions (play (cd_name c) fade2 st') = actions st ∧
    heap (play (cd_name c) fade2 st') !! h_old
      = Some (replayed_action fade2 a_old) ∧
    heap (play (cd_name c) fade2 st') !! h_new
      = Some (action_fadeOut fade2 a_new).
Proof.
  intros Hwf Hg Hold Hres.
  destruct (resume_resolved _ _ _ _ _ Hwf Hres)
    as (g' & c' & cs' & model & id & [= <-] & Hg' & Hc & Ha & Hh & Hr & _ & _).
  rewrite Hg in Hg'. injection Hg' as <- <-.
  rewrite Hold in Hr. split; [done|].
  destruct Hwf as (_ & Hheap & Hacts & _).
  destruct (Hacts _ _ Hold) as [a0 Ha0].
  assert (Hlt : (h_old < next_handle st)%nat) by exact (Hheap _ _ Ha0).
  assert (Hne : next_handle st ≠ h_old) by lia.
  assert (Hnew : heap st !! next_handle st = None).
  { destruct (heap st !! next_handle st) eqn:E; [|done].
    apply Hheap in E. simpl in E. lia. }
  assert (Hold' : heap st' !! h_old = Some (action_stop a0)).
  { rewrite Hh, lookup_insert_ne, stopped_heap_lookup by done.
    rewrite decide_True, Ha0; [done|].
    left. apply elem_of_registered_handles. eauto. }
  exists (next_handle st). eexists. exists (action_stop a0).
  assert (Hnew' : heap st' !! next_handle st = Some
            (started_action id (mkClip (next_uuid st) (cd_name c) (cd_duration c))))
    by by rewrite Hh, lookup_insert_eq.
  assert (Hreg : actions st' !! cd_name c = Some h_old) by by rewrite Hr.
  destruct (play_registered (cd_name c) fade2 st' h_old _ Hreg Hold')
    as (P1 & P2 & _ & P3 & P4 & _).
  repeat split; try done.
  - by rewrite P2.
  - by rewrite (P4 _ Ha Hne), Hnew'.
Qed.

Lemma idle_registered :
  actions state_pending !! cd_name (mkClipData "Idle" 1) = Some 0%nat.
Proof. vm_compute. reflexivity. Qed.

Lemma C10_witness :
  wf state_pending ∧
  gltf_animations sample_action = [mkClipData "Idle" 1] ∧
  actions state_pending !! cd_name (mkClipData "Idle" 1) = Some 0%nat ∧
  playAnimationForExistingModel_resume (3 # 10) sample_saved
    (LoadOk sample_action) state_pending = (Resolved tt, state_signed) ∧
  actions state_signed = actions state_pending.
Proof.
  exact (conj state_pending_wf (conj eq_refl (conj idle_registered
    (conj resume_ball
      (proj1 (C10_registered_name_keeps_old_handle
                (3 # 10) (3 # 10) sample_saved sample_action
                (mkClipData "Idle" 1) [] state_pending state_signed 0%nat
                state_pending_wf eq_refl idle_registered resume_ball)))))).
Defined.

(** * resize *)

Lemma resize_divisor_positive height : 1 <= resize_divisor height.
Proof. apply Q.le_max_l. Qed.

Lemma resize_aspect_clamped width height :
  ∃ a, resize_aspect width height = Some a ∧
       a == Qmax (1 # 1000000) (width / resize_divisor height) ∧
       1 # 1000000 <= a.
Proof.
  unfold resize_aspect. rewrite jsdiv_Some.
  - eexists. split; [reflexivity|]. split; [reflexivity|]. apply Q.le_max_l.
  - intros E. pose proof (resize_divisor_positive height) as H.
    rewrite E in H. by apply Qle_not_lt in H.
Qed.

(** C8.  For every width, [resize(width, 0)] divides by
    [Math.max(1, 0)], which is 1 and not zero, and leaves the camera with
    the aspect ratio [Math.max(1e-6, width)], a number that is at least
    1e-6 and so positive; before [initialize] it returns at its guard.
    The method is a total function of the state: no statement of it
    throws. *)
Theorem C8_resize_zero_height_clamps width st :
  resize_divisor 0 == 1 ∧
  ∃ a, resize_aspect width 0 = Some a ∧
       a == Qmax (1 # 1000000) width ∧
       1 # 1000000 <= a ∧ 0 < a ∧
       camera_aspect (resize width 0 st)
         = (if ready st then Some a else camera_aspect st) ∧
       renderer_size (resize width 0 st)
         = (if ready st then (width, 0) else renderer_size st).
Proof.
  split; [by vm_compute|].
  destruct (resize_aspect_clamped width 0) as (a & Ha & Heq & Hle).
  exists a. split; [done|]. split.
  { rewrite Heq. assert (E : width / resize_divisor 0 == width).
    { unfold resize_divisor. change (Qmax 1 0) with 1. by field. }
    by rewrite E. }
  split; [done|]. split.
  { eapply Qlt_le_trans; [|exact Hle]. by vm_compute. }
  unfold resize. destruct (ready st); simpl; by rewrite ?Ha.
Qed.

(** * loadModel fails *)

Lemma disposeCurrentModel_no_model st : currentModel (disposeCurrentModel st) = None.
Proof. unfold disposeCurrentModel. by destruct (currentModel st) eqn:E. Qed.

Lemma message_or_nonempty e fallback : fallback ≠ "" → message_or e fallback ≠ "".
Proof. intros H. destruct e as [m|]; simpl; [by case_decide|done]. Qed.

(** C6.  When the fetch or parse of the asset fails, [loadModel] rejects
    with the error of the loader and the service has no current model;
    [ngAfterViewInit] then leaves the screen with [loading] false, a
    non-empty error string, and [characterLoaded] as it was, which is
    false on the screen as constructed. *)
Theorem C6_loadModel_failure url e width height pg st :
  (loadModel url (LoadFail e) st).1 = Rejected e ∧
  currentModel (loadModel url (LoadFail e) st).2 = None ∧
  loading (ngAfterViewInit width height (LoadFail e) pg st).1 = false ∧
  (∃ msg, error (ngAfterViewInit width height (LoadFail e) pg st).1 = Some msg
          ∧ msg ≠ "") ∧
  characterLoaded (ngAfterViewInit width height (LoadFail e) pg st).1
    = characterLoaded pg ∧
  characterLoaded (ngAfterViewInit width height (LoadFail e) new_HomePage st).1
    = false ∧
  currentModel (ngAfterViewInit width height (LoadFail e) pg st).2 = None.
Proof.
  split; [done|]. split; [apply disposeCurrentModel_no_model|].
  split; [done|]. split.
  { eexists. split; [reflexivity|]. by apply message_or_nonempty. }
  split; [done|]. split; [done|].
  apply disposeCurrentModel_no_model.
Qed.

(** * playSign while a sign is playing *)

Lemma elapse_due ms pg t :
  t ∈ timers pg → (t <= ms)%nat → isPlaying (elapse ms pg) = false.
Proof.
  intros Hin Hle. unfold elapse. simpl.
  rewrite bool_decide_eq_true_2; [done|]. apply Exists_exists. eauto.
Qed.

Lemma elapse_not_due ms pg :
  Forall (λ t, (ms < t)%nat) (timers pg) →
  isPlaying (elapse ms pg) = isPlaying pg ∧
  timers (elapse ms pg) = (λ t, (t - ms)%nat) <$> timers pg.
Proof.
  intros Hall. unfold elapse. simpl. split.
  - rewrite bool_decide_eq_false_2; [done|].
    rewrite Exists_exists. intros (t & Hin & Hle).
    rewrite Forall_forall in Hall. apply Hall in Hin. lia.
  - f_equal. induction Hall as [|t ts Ht _ IH]; [done|].
    rewrite filter_cons_True by done. by rewrite IH.
Qed.

Lemma playSign_ignored sign pg st :
  isPlaying pg = true → playSign_begin sign pg st = (Ignored, pg, st).
Proof. intros Hp. unfold playSign_begin. by rewrite Hp, orb_true_r. Qed.

(** C9.  While [isPlaying] is true a selection is ignored: [playSign]
    returns at its guard, changes nothing and asks the loader for
    nothing.  [isPlaying] is true from the moment a selection is accepted;
    it is cleared at once when that selection fails, and otherwise by the
    timer of 4000 ms set when its load resolves: it stays true, and
    selections stay ignored, until 4000 ms have passed. *)
Theorem C9_selection_ignored_while_playing
    sign sign2 pg st saved pg1 st1 r st2 ms :
  timers pg = [] →
  playSign_begin sign pg st = (Awaiting saved, pg1, st1) →
  (∀ p s, isPlaying p = true → playSign_begin sign2 p s = (Ignored, p, s)) ∧
  isPlaying pg1 = true ∧
  requests st1 = requests st ++ [fixResourcePath (actionPath sign)] ∧
  playSign_begin sign2 pg1 st2 = (Ignored, pg1, st2) ∧
  (∀ r2, playSign sign2 r2 pg1 st2 = (pg1, st2)) ∧
  match playAnimationForExistingModel_resume (3 # 10) saved r st2 with
  | (Rejected _, _) =>
      isPlaying (playSign_resume sign saved r pg1 st2).1 = false
  | (Resolved _, st3) =>
      isPlaying (playSign_resume sign saved r pg1 st2).1 = true ∧
      timers (playSign_resume sign saved r pg1 st2).1 = [4000%nat] ∧
      playSign_begin sign2 (playSign_resume sign saved r pg1 st2).1 st3
        = (Ignored, (playSign_resume sign saved r pg1 st2).1, st3) ∧
      ((ms < 4000)%nat →
         isPlaying (elapse ms (playSign_resume sign saved r pg1 st2).1) = true ∧
         playSign_begin sign2
           (elapse ms (playSign_resume sign saved r pg1 st2).1) st3
         = (Ignored, elapse ms (playSign_resume sign saved r pg1 st2).1, st3)) ∧
      ((4000 <= ms)%nat →
         isPlaying (elapse ms (playSign_resume sign saved r pg1 st2).1) = false)
  end.
Proof.
  intros Htimers Hbegin. unfold playSign_begin in Hbegin.
  destruct (negb (characterLoaded pg) || isPlaying pg) eqn:Hguard; [done|].
  destruct (playAnimationForExistingModel_begin (actionPath sign) st)
    as [e|[saved' st1']] eqn:Eb; [done|].
  injection Hbegin as <- <- <-.
  split; [intros p s; apply playSign_ignored|].
  split; [done|]. split.
  { unfold playAnimationForExistingModel_begin in Eb.
    destruct (currentModel st); [|done]. by injection Eb as _ <-. }
  split; [by apply playSign_ignored|]. split.
  { intros r2. unfold playSign. by rewrite playSign_ignored. }
  unfold playSign_resume.
  destruct (playAnimationForExistingModel_resume _ _ _ _) as [[[]|e] st3]; [|done].
  cbn [fst]. set (pg2 := mkPage _ _ _ _ _ _ _).
  assert (Hp2 : isPlaying pg2 = true) by done.
  assert (Ht2 : timers pg2 = [4000%nat]) by (unfold pg2; simpl; by rewrite Htimers).
  split; [done|]. split; [done|]. split; [by apply playSign_ignored|]. split.
  - intros Hms. destruct (elapse_not_due ms pg2) as [Hp _].
    { rewrite Ht2. constructor; [exact Hms|constructor]. }
    rewrite Hp2 in Hp. split; [done|]. by apply playSign_ignored.
  - intros Hms. apply (elapse_due ms pg2 4000%nat); [|done].
    rewrite Ht2. by left.
Qed.

Lemma begin_ball_sign :
  playSign_begin ball_sign page_ready state_loaded
  = (Awaiting sample_saved, page_playing, state_pending).
Proof. vm_compute. reflexivity. Qed.

Lemma C9_witness :
  timers page_ready = [] ∧
  playSign_begin ball_sign page_ready state_loaded
    = (Awaiting sample_saved, page_playing, state_pending) ∧
  isPlaying page_playing = true ∧
  playSign_begin ball_sign page_playing state_pending
    = (Ignored, page_playing, state_pending).
Proof.
  destruct (C9_selection_ignored_while_playing
              ball_sign ball_sign page_ready state_loaded sample_saved
              page_playing state_pending (LoadOk sample_action) state_pending
              1000%nat eq_refl begin_ball_sign) as (_ & H1 & _ & H2 & _).
  exact (conj eq_refl (conj begin_ball_sign (conj H1 H2))).
Defined.

(** * Claims on loadModel and centerModel: where the model ends up *)

Lemma disposeCurrentModel_ready st :
  ready (disposeCurrentModel st) = ready st.
Proof.
  unfold disposeCurrentModel, stop_registered, stop_active.
  destruct (currentModel st); [|done]. by destruct (activeAction st).
Qed.

Lemma loadModel_begin_ready url st : ready (loadModel_begin url st) = ready st.
Proof. exact (disposeCurrentModel_ready st). Qed.

Lemma loadModel_current_model url g st :
  ready st = true →
  ∃ st',
    loadModel url (LoadOk g) st
      = (Resolved (mkObject3D (loadModel_place (gltf_scene g)) true (gltf_scene g)),
         st') ∧
    currentModel st'
      = Some (mkObject3D (loadModel_place (gltf_scene g)) true (gltf_scene g)).
Proof.
  intros Hready. unfold loadModel, loadModel_resume.
  rewrite loadModel_begin_ready, Hready.
  eexists. split; [reflexivity|]. done.
Qed.

(** After [loadModel] of an asset whose box has a positive largest
    dimension, the box of the model has largest dimension 1.5, and its
    centre is the centre of the asset's box times [k - 1], where
    [k = 1.5 / maxDim] is the scale chosen. *)
Lemma loadModel_box url g st :
  ready st = true →
  0 < maxDim (asset_box (gltf_scene g)) →
  ∃ position k m,
    currentModel (loadModel url (LoadOk g) st).2 = Some m ∧
    transform m = Finite position (v3_setScalar k) ∧
    geometry m = gltf_scene g ∧
    maxDim (setFromObject position (v3_setScalar k) (geometry m)) == 3 # 2 ∧
    v3_eq (getCenter (setFromObject position (v3_setScalar k) (geometry m)))
          (v3_multiplyScalar (getCenter (asset_box (gltf_scene g))) (k - 1)).
Proof.
  intros Hready Hpos.
  destruct (loadModel_place_box _ Hpos) as (position & k & Hp & _ & _ & Hd & Hc).
  destruct (loadModel_current_model url g st Hready) as (st' & E & Hm).
  exists position, k. eexists. rewrite E. cbn [snd]. split; [exact Hm|].
  cbn [transform geometry]. split; [exact Hp|]. split; [done|].
  split; [exact Hd|exact Hc].
Qed.

(** C2, on the code.  After [loadModel] of a character whose box reaches
    from the origin to (3, 3, 3), the model is at position
    (-1.5, -1.5, -1.5) with scale 0.5: the largest dimension of its box is
    1.5, but the centre of the box is (-0.75, -0.75, -0.75), not the
    origin. *)
Lemma C2_center_not_at_origin :
  maxDim (asset_box (gltf_scene sample_character)) == 3 ∧
  ∃ position scale m,
    currentModel state_loaded = Some m ∧
    transform m = Finite position scale ∧
    v3_eq position (mkV3 (- (3 # 2)) (- (3 # 2)) (- (3 # 2))) ∧
    v3_eq scale (mkV3 (1 # 2) (1 # 2) (1 # 2)) ∧
    maxDim (setFromObject position scale (geometry m)) == 3 # 2 ∧
    v3_eq (getCenter (setFromObject position scale (geometry m)))
          (mkV3 (- (3 # 4)) (- (3 # 4)) (- (3 # 4))) ∧
    ¬ v3_eq (getCenter (setFromObject position scale (geometry m))) v3_zero.
Proof.
  split; [by vm_compute|].
  eexists _, _, _. split; [vm_compute; reflexivity|]. simpl.
  split; [reflexivity|].
  split; [by vm_compute|]. split; [by vm_compute|].
  split; [by vm_compute|]. split; [by vm_compute|].
  intros (H & _). by vm_compute in H.
Qed.

(** X23.  On a state whose current model has a box, measured the way
    [centerModel] measures it (at position zero and at the scale the
    model has), with a largest dimension from 1 to 3, so that
    [centerModel] does not rescale, calling [centerModel] twice yields the
    state that calling it once does. *)
Theorem centerModel_idempotent_in_range st m p s :
  currentModel st = Some m → transform m = Finite p s →
  1 <= maxDim (measured_box s m) → maxDim (measured_box s m) <= 3 →
  centerModel (centerModel st) = centerModel st.
Proof.
  intros Hm Ht H1 H3. unfold centerModel. rewrite Hm. simpl.
  by rewrite (centerModel_object_idempotent m p s).
Qed.

Lemma fit_model_in_range :
  1 <= maxDim (measured_box v3_one fit_model) ∧
  maxDim (measured_box v3_one fit_model) <= 3.
Proof. split; by vm_compute. Qed.

Lemma centerModel_idempotent_in_range_witness :
  currentModel state_fit = Some fit_model ∧
  transform fit_model = Finite (mkV3 5 5 5) v3_one ∧
  1 <= maxDim (measured_box v3_one fit_model) ∧
  maxDim (measured_box v3_one fit_model) <= 3 ∧
  centerModel (centerModel state_fit) = centerModel state_fit.
Proof.
  exact (conj eq_refl (conj eq_refl
    (conj (proj1 fit_model_in_range) (conj (proj2 fit_model_in_range)
      (centerModel_idempotent_in_range
         state_fit fit_model (mkV3 5 5 5) v3_one eq_refl eq_refl
         (proj1 fit_model_in_range) (proj2 fit_model_in_range)))))).
Defined.

Lemma state_raced_resumed :
  (playAnimationForExistingModel_resume (3 # 10) sample_saved
     (LoadOk sample_action)
     (loadModel_resume (LoadOk sample_giant)
        (loadModel_begin "assets/aslkidanimation/models/lisa.glb"
           state_pending)).2).2 = state_raced.
Proof. vm_compute. reflexivity. Qed.

Lemma state_still_reachable : reachable_initialized state_still.
Proof.
  exists 400, 300.
  apply (rtc_l _ _ (loadModel_begin "assets/aslkidanimation/models/lisa.glb"
                      state_ready)); [apply step_loadModel_begin|].
  apply (rtc_l _ _ state_loaded);
    [exact (step_loadModel_resume (LoadOk sample_character) _)|].
  apply (rtc_l _ _ state_pending);
    [exact (step_playAnimation_begin ball_url sample_saved state_loaded
              state_pending begin_ball)|].
  eapply rtc_l;
    [apply (step_loadModel_begin "assets/aslkidanimation/models/lisa.glb")|].
  eapply rtc_l; [apply (step_loadModel_resume (LoadOk sample_giant))|].
  apply (rtc_l _ _ state_raced).
  { rewrite <- state_raced_resumed. apply step_playAnimation_resume. }
  apply (rtc_l _ _ state_still); [apply step_stop|apply rtc_refl].
Qed.

(** C3, on the code.  [centerModel] computes the position from the box
    it measures at the scale the model has, and then overwrites the scale
    with [3 / maxDim] (or [1 / maxDim]); it neither moves the model again
    nor takes the old scale into account.  In [state_still] no action is
    playing and the current model has the scale 0.5 and a box that reaches
    from the origin to (24, 24, 24) in its own coordinates, so that the
    box measures 12; the state is reached from the initialized service
    through its methods.  One call leaves the model at (-6, 0, -6) with scale
    0.25: its box then reaches from (-6, 0, -6) to (0, 6, 0), which is
    neither centred on the vertical axis nor of largest dimension 3.  A
    second call leaves it at (-3, 0, -3) with scale 0.5: calling twice is
    not calling once. *)
Lemma C3_centerModel_rescale_moves_off_centre :
  reachable_initialized state_still ∧
  activeAction state_still = None ∧
  map_Forall (λ _ a, isRunning a = false) (heap state_still) ∧
  ∃ m s0 p0 p1 s1 p2 s2,
    currentModel state_still = Some m ∧ transform m = Finite p0 s0 ∧
    maxDim (measured_box s0 m) == 12 ∧
    (transform <$> currentModel (centerModel state_still))
      = Some (Finite p1 s1) ∧
    (transform <$> currentModel (centerModel (centerModel state_still)))
      = Some (Finite p2 s2) ∧
    v3_eq p1 (mkV3 (-6) 0 (-6)) ∧ v3_eq s1 (mkV3 (1 # 4) (1 # 4) (1 # 4)) ∧
    v3_eq p2 (mkV3 (-3) 0 (-3)) ∧ v3_eq s2 (mkV3 (1 # 2) (1 # 2) (1 # 2)) ∧
    ¬ v3_eq p1 p2 ∧ ¬ v3_eq s1 s2 ∧
    box_eq (setFromObject p1 s1 (geometry m))
           (Some (mkV3 (-6) 0 (-6), mkV3 0 6 0)) ∧
    v3_eq (getCenter (setFromObject p1 s1 (geometry m))) (mkV3 (-3) 3 (-3)) ∧
    maxDim (setFromObject p1 s1 (geometry m)) == 6.
Proof.
  split; [exact state_still_reachable|].
  split; [reflexivity|].
  split; [apply (bool_decide_unpack _); vm_compute; reflexivity|].
  eexists _, _, _, _, _, _, _.
  split; [vm_compute; reflexivity|]. split; [reflexivity|].
  split; [by vm_compute|].
  split; [vm_compute; reflexivity|]. split; [vm_compute; reflexivity|].
  split; [by vm_compute|]. split; [by vm_compute|].
  split; [by vm_compute|]. split; [by vm_compute|].
  split; [intros (H & _); by vm_compute in H|].
  split; [intros (H & _); by vm_compute in H|].
  split; [by vm_compute|]. split; [by vm_compute|]. by vm_compute.
Qed.

(** The same on a model given outright: at scale one with a box from the
    origin to (6, 6, 6), one call gives position (-3, 0, -3) and scale
    0.5, two calls give position (-1.5, 0, -1.5). *)
Example centerModel_big_model :
  ∃ p1 s1 p2 s2,
    transform (centerModel_object big_model) = Finite p1 s1 ∧
    transform (centerModel_object (centerModel_object big_model)) = Finite p2 s2 ∧
    v3_eq p1 (mkV3 (-3) 0 (-3)) ∧ v3_eq p2 (mkV3 (- (3 # 2)) 0 (- (3 # 2))) ∧
    v3_eq s1 s2.
Proof.
  eexists _, _, _, _.
  split; [vm_compute; reflexivity|]. split; [vm_compute; reflexivity|].
  by vm_compute.
Qed.

(** In the flow of the screen [centerModel] never rescales: right after
    [loadModel] of an asset whose box has a positive largest dimension the
    box measures 1.5, so there [centerModel] is idempotent. *)
Lemma centerModel_idempotent_after_loadModel url g st :
  ready st = true →
  0 < maxDim (asset_box (gltf_scene g)) →
  centerModel (centerModel (loadModel url (LoadOk g) st).2)
  = centerModel (loadModel url (LoadOk g) st).2.
Proof.
  intros Hready Hpos.
  destruct (loadModel_place_box _ Hpos) as (position & k & Hp & Hk & Hk' & _ & _).
  destruct (loadModel_current_model url g st Hready) as (st' & E & Hm).
  rewrite E. cbn [snd].
  set (m := mkObject3D (loadModel_place (gltf_scene g)) true (gltf_scene g)) in *.
  assert (Hne : ¬ maxDim (asset_box (gltf_scene g)) == 0).
  { intros E0. rewrite E0 in Hpos. by apply Qlt_irrefl in Hpos. }
  assert (Hd : maxDim (measured_box (v3_setScalar k) m) == 3 # 2).
  { unfold measured_box, m. cbn [geometry].
    rewrite setFromObject_asset by by apply Qlt_le_weak.
    rewrite maxDim_affine by by apply Qlt_le_weak.
    rewrite Hk'. by field. }
  assert (Hidem : centerModel_object (centerModel_object m) = centerModel_object m).
  { apply (centerModel_object_idempotent m position (v3_setScalar k)).
    - exact Hp.
    - rewrite Hd. by vm_compute.
    - rewrite Hd. by vm_compute. }
  unfold centerModel. rewrite Hm. cbn [currentModel set_currentModel].
  by rewrite Hidem.
Qed.

(** * loadModel: the registry it builds *)

Lemma make_clips_length u ds : length (make_clips u ds) = length ds.
Proof. revert u. induction ds as [|d ds IH]; intros u; simpl; [done|]. by rewrite IH. Qed.

Lemma elem_of_getClipNames st n : n ∈ getClipNames st ↔ is_Some (actions st !! n).
Proof.
  unfold getClipNames. rewrite list_elem_of_fmap. split.
  - intros [[n' h] [-> Hin]]. apply elem_of_map_to_list in Hin. by exists h.
  - intros [h Hh]. exists (n, h). split; [done|]. by apply elem_of_map_to_list.
Qed.

(** The loop over the clips of an asset, started in a mixer that has
    seen no clip as young as the first, with a heap whose handles lie
    below the next handle. *)
Lemma register_clips_spec ds : ∀ u m (hp : gmap nat AnimationAction) nh
    (reg : gmap string nat),
  map_Forall (λ u' _, (u' < u)%nat) (actionsByClip m) →
  map_Forall (λ h _, (h < nh)%nat) hp →
  ∃ m' hp' reg',
    fold_left register_clip (make_clips u ds) (m, hp, nh, reg)
      = (m', hp', (nh + length ds)%nat, reg') ∧
    mixer_id m' = mixer_id m ∧ mixer_rooted m' = mixer_rooted m ∧
    map_Forall (λ u' _, (u' < u + length ds)%nat) (actionsByClip m') ∧
    map_Forall (λ h _, (h < nh + length ds)%nat) hp' ∧
    (∀ h, (h < nh)%nat → hp' !! h = hp !! h) ∧
    (∀ n, n ∉ cd_name <$> ds → reg' !! n = reg !! n) ∧
    (∀ n, n ∈ cd_name <$> ds →
       ∃ h a d, reg' !! n = Some h ∧ (nh ≤ h)%nat ∧ hp' !! h = Some a ∧
                d ∈ ds ∧ cd_name d = n ∧ clip_name (act_clip a) = n ∧
                clip_duration (act_clip a) = cd_duration d ∧
                clampWhenFinished a = true ∧ loop a = LoopOnce).
Proof.
  induction ds as [|d ds IH]; intros u m hp nh reg Hcache Hheap.
  - exists m, hp, reg. simpl. rewrite !Nat.add_0_r.
    repeat split; try done. intros n Hn. by apply elem_of_nil in Hn.
  - simpl.
    assert (Hmiss : actionsByClip m !! u = None).
    { destruct (actionsByClip m !! u) eqn:E; [|done].
      apply Hcache in E. simpl in E. lia. }
    rewrite clipAction_new by done. rewrite !alter_insert_eq.
    set (a0 := set_loop LoopOnce (set_clampWhenFinished true
                 (new_action (mixer_id m) (mkClip u (cd_name d) (cd_duration d))))).
    set (m1 := mkMixer _ _ _ _ _).
    destruct (IH (S u) m1 (<[nh := a0]> hp) (S nh) (<[cd_name d := nh]> reg))
      as (m' & hp' & reg' & Hfold & Hid & Hroot & Hc' & Hh' & Hkeep & Hout & Hin).
    { unfold m1. simpl. apply map_Forall_insert_2; [lia|].
      eapply map_Forall_impl; [exact Hcache|]. simpl. intros; lia. }
    { apply map_Forall_insert_2; [lia|].
      eapply map_Forall_impl; [exact Hheap|]. simpl. intros; lia. }
    exists m', hp', reg'.
    replace (nh + S (length ds))%nat with (S nh + length ds)%nat by lia.
    replace (u + S (length ds))%nat with (S u + length ds)%nat by lia.
    split; [exact Hfold|]. split; [done|]. split; [done|].
    split; [done|]. split; [done|]. split.
    { intros h Hlt. rewrite Hkeep by lia. apply lookup_insert_ne. lia. }
    split.
    { intros n Hn. rewrite ?fmap_cons, not_elem_of_cons in Hn.
      destruct Hn as [Hne Hn]. rewrite Hout by done.
      by rewrite lookup_insert_ne. }
    intros n Hn.
    destruct (decide (n ∈ cd_name <$> ds)) as [Hds|Hds].
    + destruct (Hin n Hds) as (h & a & d' & H1 & H2 & H3 & H4 & H5).
      exists h, a, d'. split; [done|]. split; [lia|]. split; [done|].
      split; [by right|]. done.
    + rewrite ?fmap_cons, elem_of_cons in Hn. destruct Hn as [->|Hn]; [|done].
      exists nh, a0, d. rewrite Hout by done. rewrite lookup_insert_eq.
      split; [done|]. split; [lia|]. split.
      { rewrite Hkeep by lia. apply lookup_insert_eq. }
      split; [by left|]. done.
Qed.

Lemma disposeCurrentModel_heap_dom st h :
  is_Some (heap (disposeCurrentModel st) !! h) ↔ is_Some (heap st !! h).
Proof.
  unfold disposeCurrentModel. destruct (currentModel st); [|done]. simpl.
  unfold stop_all. 
  assert (Hs : ∀ hs (hp : gmap nat AnimationAction),
             is_Some (foldr (alter action_stop) hp hs !! h) ↔ is_Some (hp !! h))
    by (intros; apply stop_all_is_Some).
  rewrite Hs. unfold stop_active. destruct (activeAction st); simpl; [|done].
  by rewrite lookup_alter_is_Some.
Qed.

Lemma disposeCurrentModel_fields st :
  next_handle (disposeCurrentModel st) = next_handle st ∧
  next_uuid (disposeCurrentModel st) = next_uuid st ∧
  next_mixer (disposeCurrentModel st) = next_mixer st ∧
  requests (disposeCurrentModel st) = requests st.
Proof.
  unfold disposeCurrentModel, stop_registered, stop_active.
  destruct (currentModel st); [|done]. by destruct (activeAction st).
Qed.

(** What [loadModel] leaves in the registry and in the heap. *)
Lemma loadModel_registry url g st :
  wf st →
  ∀ n,
    (n ∉ cd_name <$> gltf_animations g →
       actions (loadModel url (LoadOk g) st).2 !! n = None) ∧
    (n ∈ cd_name <$> gltf_animations g →
       ∃ h a d,
         actions (loadModel url (LoadOk g) st).2 !! n = Some h ∧
         heap st !! h = None ∧
         heap (loadModel url (LoadOk g) st).2 !! h = Some a ∧
         d ∈ gltf_animations g ∧ cd_name d = n ∧
         clip_name (act_clip a) = n ∧
         clip_duration (act_clip a) = cd_duration d ∧
         clampWhenFinished a = true ∧ loop a = LoopOnce).
Proof.
  intros (_ & Hheap & _ & _) n.
  unfold loadModel, loadModel_resume, loadModel_begin.
  destruct (disposeCurrentModel_fields st) as (Hnh & Hnu & Hnm & _).
  set (st0 := add_request url (disposeCurrentModel st)).
  destruct (gltf_animations g) as [|d ds] eqn:Eg.
  { destruct (ready st0); simpl; (split; [done|]);
      intros Hn; by apply elem_of_nil in Hn. }
  cbn [make_clips].
  change (mkClip (next_uuid st0) (cd_name d) (cd_duration d)
          :: make_clips (S (next_uuid st0)) ds)
    with (make_clips (next_uuid st0) (d :: ds)).
  cbn [actions heap next_handle next_mixer set_mixer set_actions set_next_uuid].
  destruct (register_clips_spec (d :: ds) (next_uuid st0)
              (new_mixer (next_mixer st0) true) (heap st0) (next_handle st0) ∅)
    as (m' & hp' & reg' & Hfold & _ & _ & _ & _ & _ & Hout & Hin).
  { apply map_Forall_empty. }
  { intros h a Ha. simpl in Ha |- *. rewrite Hnh.
    assert (is_Some (heap st !! h)) as [a' Ha'].
    { apply disposeCurrentModel_heap_dom. by exists a. }
    exact (Hheap _ _ Ha'). }
  destruct (make_clips (next_uuid st0) (d :: ds)) as [|c0 cs0] eqn:Ec; [done|].
  rewrite Hfold.
  assert (Hold : ∀ h, n ∈ cd_name <$> d :: ds → reg' !! n = Some h →
                      heap st !! h = None).
  { intros h Hn Hh. destruct (Hin n Hn) as (h' & a & d' & H1 & H2 & _).
    rewrite Hh in H1. injection H1 as <-.
    destruct (heap st !! h) eqn:E; [|done].
    apply Hheap in E. simpl in E, H2. rewrite Hnh in H2. lia. }
  destruct (ready st0);
    cbn [snd actions heap set_currentModel set_actions set_next_handle set_heap];
    (split; [intros Hn; by rewrite Hout|]);
    intros Hn; destruct (Hin n Hn) as (h & a & d' & H1 & H2 & H3 & H4);
    exists h, a, d'; (split; [done|]); (split; [by apply Hold|done]).
Qed.

(** C5, as amended.  After [loadModel] resolves on an asset, as it does
    on a service that has been initialized, [getClipNames()] lists, once
    each, exactly the names of the clips embedded in the asset: the
    registry has one entry for every distinct name, so one for every
    embedded clip when the names are distinct.  Every entry is a handle
    that did not exist before the load, made for an embedded clip of that
    name and set to clamp when finished and to play once; nothing of an
    earlier model remains. *)
Theorem C5_registry_of_loaded_asset url g st :
  wf st → ready st = true →
  (∃ model, (loadModel url (LoadOk g) st).1 = Resolved model) ∧
  (∀ n, n ∈ getClipNames (loadModel url (LoadOk g) st).2
        ↔ n ∈ cd_name <$> gltf_animations g) ∧
  getClipNames (loadModel url (LoadOk g) st).2
    ≡ₚ remove_dups (cd_name <$> gltf_animations g) ∧
  (NoDup (cd_name <$> gltf_animations g) →
   length (getClipNames (loadModel url (LoadOk g) st).2)
   = length (gltf_animations g)) ∧
  (∀ n h, actions (loadModel url (LoadOk g) st).2 !! n = Some h →
     heap st !! h = None ∧
     ∃ a d, heap (loadModel url (LoadOk g) st).2 !! h = Some a ∧
            d ∈ gltf_animations g ∧ cd_name d = n ∧
            clip_name (act_clip a) = n ∧
            clip_duration (act_clip a) = cd_duration d ∧
            clampWhenFinished a = true ∧ loop a = LoopOnce).
Proof.
  intros Hwf Hready.
  assert (Hnames : ∀ n, n ∈ getClipNames (loadModel url (LoadOk g) st).2
                        ↔ n ∈ cd_name <$> gltf_animations g).
  { intros n. rewrite elem_of_getClipNames.
    destruct (loadModel_registry url g st Hwf n) as [Hout Hin].
    destruct (decide (n ∈ cd_name <$> gltf_animations g)) as [Hn|Hn].
    - destruct (Hin Hn) as (h & _ & _ & -> & _). split; [done|]. by eexists.
    - rewrite (Hout Hn). split; [by intros [? ?]|done]. }
  assert (Hperm : getClipNames (loadModel url (LoadOk g) st).2
                  ≡ₚ remove_dups (cd_name <$> gltf_animations g)).
  { apply NoDup_Permutation.
    - apply NoDup_fst_map_to_list.
    - apply NoDup_remove_dups.
    - intros n. by rewrite Hnames, elem_of_remove_dups. }
  split.
  { destruct (loadModel_current_model url g st Hready) as (? & -> & _).
    by eexists. }
  split; [done|]. split; [done|]. split.
  { intros Hnd. rewrite <- (length_fmap cd_name (gltf_animations g)).
    apply Permutation_length, NoDup_Permutation; [|done..].
    apply NoDup_fst_map_to_list. }
  intros n h Hh.
  destruct (loadModel_registry url g st Hwf n) as [Hout Hin].
  destruct (decide (n ∈ cd_name <$> gltf_animations g)) as [Hn|Hn].
  - destruct (Hin Hn) as (h' & a & d & E & H1 & H2 & H3).
    rewrite Hh in E. injection E as <-. split; [done|]. by exists a, d.
  - rewrite (Hout Hn) in Hh. done.
Qed.

Lemma state_signed_wf : wf state_signed.
Proof. apply (bool_decide_unpack _). vm_compute. reflexivity. Qed.

Lemma state_signed_ready : ready state_signed = true.
Proof. vm_compute. reflexivity. Qed.

Lemma C5_witness :
  wf state_signed ∧ ready state_signed = true ∧
  getClipNames
    (loadModel "assets/aslkidanimation/models/lisa.glb"
               (LoadOk sample_twins) state_signed).2
  ≡ₚ remove_dups (cd_name <$> gltf_animations sample_twins).
Proof.
  exact (conj state_signed_wf (conj state_signed_ready (proj1 (proj2 (proj2
    (C5_registry_of_loaded_asset "assets/aslkidanimation/models/lisa.glb"
       sample_twins state_signed state_signed_wf state_signed_ready)))))).
Defined.

(** C5 as stated fails: on the service as the screen initializes it,
    [loadModel] resolves on an asset with two embedded clips, both named
    "Idle", and leaves one registry entry, not one for each clip; the
    entry is the handle made for the second of them. *)
Lemma C5_two_clips_one_entry :
  ready state_ready = true ∧ wf state_ready ∧
  (∃ model,
     (loadModel "assets/aslkidanimation/models/lisa.glb"
                (LoadOk sample_twins) state_ready).1 = Resolved model) ∧
  length (gltf_animations sample_twins) = 2%nat ∧
  getClipNames
    (loadModel "assets/aslkidanimation/models/lisa.glb"
               (LoadOk sample_twins) state_ready).2 = ["Idle"] ∧
  size (actions
    (loadModel "assets/aslkidanimation/models/lisa.glb"
               (LoadOk sample_twins) state_ready).2) = 1%nat ∧
  (clip_duration ∘ act_clip <$>
     (actions (loadModel "assets/aslkidanimation/models/lisa.glb"
                 (LoadOk sample_twins) state_ready).2 !! "Idle"
      ≫= λ h, heap (loadModel "assets/aslkidanimation/models/lisa.glb"
                      (LoadOk sample_twins) state_ready).2 !! h))
  = Some 5.
Proof.
  split; [reflexivity|].
  split; [apply (bool_decide_unpack _); vm_compute; reflexivity|].
  split; [eexists; vm_compute; reflexivity|].
  vm_compute. by repeat split.
Qed.

(** * Further properties: placement *)

Lemma localToWorld_translate p s x :
  v3_eq (localToWorld p s x) (v3_affine 1 p (localToWorld v3_zero s x)).
Proof. repeat split; simpl; ring. Qed.

Lemma fold_expand_translate p s g : ∀ b b',
  box_eq b' (box_affine 1 p b) →
  box_eq (fold_left expandByPoint (map (localToWorld p s) g) b')
         (box_affine 1 p
            (fold_left expandByPoint (map (localToWorld v3_zero s) g) b)).
Proof.
  induction g as [|x g IH]; intros b b' Hb; simpl; [done|].
  apply IH. rewrite Hb, localToWorld_translate. by apply expandByPoint_affine.
Qed.

(** The box of a model is the box measured at position zero, moved by
    the position. *)
Lemma setFromObject_translate p s g :
  box_eq (setFromObject p s g) (box_affine 1 p (setFromObject v3_zero s g)).
Proof. by apply fold_expand_translate. Qed.

(** Where [centerModel] puts a model it does not rescale. *)
Lemma centerModel_object_placed m p s :
  transform m = Finite p s →
  1 <= maxDim (measured_box s m) → maxDim (measured_box s m) <= 3 →
  ∃ p' lo hi,
    centerModel_object m = set_transform (Finite p' s) m ∧
    setFromObject p' s (geometry m) = Some (lo, hi) ∧
    v3_eq (v3_sub hi lo) (getSize (measured_box s m)) ∧
    vx lo + vx hi == 0 ∧ vz lo + vz hi == 0 ∧ vy lo == 0.
Proof.
  intros Ht H1 H3. rewrite (centerModel_object_in_range m p s) by done.
  set (p' := mkV3 _ _ _).
  pose proof (setFromObject_translate p' s (geometry m)) as Hbox.
  fold (measured_box s m) in Hbox.
  destruct (measured_box s m) as [[lo0 hi0]|] eqn:Em.
  - destruct (setFromObject p' s (geometry m)) as [[lo hi]|] eqn:Eb; [|done].
    exists p', lo, hi. split; [done|]. split; [done|].
    destruct Hbox as [(Hx & Hy & Hz) (Hx' & Hy' & Hz')].
    unfold p' in *. simpl in *.
    repeat split; simpl; rewrite ?Hx, ?Hy, ?Hz, ?Hx', ?Hy', ?Hz'; ring.
  - exfalso. revert H1. unfold maxDim. simpl. by vm_compute.
Qed.

(** What [centerModel] does to a model whose measured box has no
    extent. *)
Lemma centerModel_object_zero_extent m p s :
  transform m = Finite p s → maxDim (measured_box s m) == 0 →
  centerModel_object m = set_transform NonFinite m.
Proof.
  intros Ht H0. unfold centerModel_object. rewrite Ht.
  fold (measured_box s m). fold (maxDim (measured_box s m)).
  assert (Hgt : js_gt (maxDim (measured_box s m)) 3 = false).
  { apply js_gt_false. rewrite H0. by vm_compute. }
  assert (Hlt : js_lt (maxDim (measured_box s m)) 1 = true).
  { apply js_lt_true. rewrite H0. by vm_compute. }
  rewrite Hgt, Hlt. unfold jsdiv.
  by rewrite (Qeq_eq_bool _ _ H0).
Qed.

(** X1.  When [centerModel] does not rescale (the measured box of the
    current model has a largest dimension from 1 to 3), the model keeps
    its scale, and afterwards its box in the world has the size measured,
    is centred on the vertical axis (its centre has x = 0 and z = 0) and
    stands on the plane y = 0; nothing but the model's position changes. *)
Theorem centerModel_stands_on_ground st m p s :
  currentModel st = Some m → transform m = Finite p s →
  1 <= maxDim (measured_box s m) → maxDim (measured_box s m) <= 3 →
  ∃ p' lo hi,
    centerModel st = set_currentModel (Some (set_transform (Finite p' s) m)) st ∧
    setFromObject p' s (geometry m) = Some (lo, hi) ∧
    v3_eq (v3_sub hi lo) (getSize (measured_box s m)) ∧
    vx lo + vx hi == 0 ∧ vz lo + vz hi == 0 ∧ vy lo == 0.
Proof.
  intros Hm Ht H1 H3.
  destruct (centerModel_object_placed m p s Ht H1 H3)
    as (p' & lo & hi & E & Hrest).
  exists p', lo, hi. split; [|exact Hrest].
  unfold centerModel. by rewrite Hm, E.
Qed.

Lemma centerModel_stands_on_ground_witness :
  currentModel state_fit = Some fit_model ∧
  transform fit_model = Finite (mkV3 5 5 5) v3_one ∧
  1 <= maxDim (measured_box v3_one fit_model) ∧
  maxDim (measured_box v3_one fit_model) <= 3 ∧
  ∃ p' lo hi,
    centerModel state_fit
      = set_currentModel (Some (set_transform (Finite p' v3_one) fit_model))
          state_fit ∧
    setFromObject p' v3_one (geometry fit_model) = Some (lo, hi) ∧
    v3_eq (v3_sub hi lo) (getSize (measured_box v3_one fit_model)) ∧
    vx lo + vx hi == 0 ∧ vz lo + vz hi == 0 ∧ vy lo == 0.
Proof.
  exact (conj eq_refl (conj eq_refl (conj (proj1 fit_model_in_range)
    (conj (proj2 fit_model_in_range)
      (centerModel_stands_on_ground state_fit fit_model (mkV3 5 5 5) v3_one
         eq_refl eq_refl
         (proj1 fit_model_in_range) (proj2 fit_model_in_range)))))).
Defined.

(** X2.  On a current model whose measured box has no extent ([maxDim]
    is zero: no geometry at all, or a single point), [centerModel] takes
    the branch [maxDim < 1] and divides 1 by zero: the transform it
    leaves is not finite, and a further call does not make it finite
    again. *)
Theorem centerModel_zero_extent_not_finite st m p s :
  currentModel st = Some m → transform m = Finite p s →
  maxDim (measured_box s m) == 0 →
  (∃ m1, currentModel (centerModel st) = Some m1 ∧
         transform m1 = NonFinite ∧ geometry m1 = geometry m) ∧
  (∃ m2, currentModel (centerModel (centerModel st)) = Some m2 ∧
         transform m2 = NonFinite).
Proof.
  intros Hm Ht H0.
  assert (E : centerModel st
              = set_currentModel (Some (set_transform NonFinite m)) st).
  { unfold centerModel. by rewrite Hm, (centerModel_object_zero_extent m p s). }
  rewrite E. split; eexists; by split.
Qed.

Lemma centerModel_zero_extent_witness :
  currentModel
    (set_currentModel (Some (mkObject3D (Finite v3_zero v3_one) true []))
       state_ready)
    = Some (mkObject3D (Finite v3_zero v3_one) true []) ∧
  transform (mkObject3D (Finite v3_zero v3_one) true []) = Finite v3_zero v3_one ∧
  maxDim (measured_box v3_one (mkObject3D (Finite v3_zero v3_one) true [])) == 0 ∧
  ∃ m1, currentModel
          (centerModel
             (set_currentModel
                (Some (mkObject3D (Finite v3_zero v3_one) true []))
                state_ready)) = Some m1 ∧
        transform m1 = NonFinite ∧
        geometry m1 = geometry (mkObject3D (Finite v3_zero v3_one) true []).
Proof.
  exact (conj eq_refl (conj eq_refl (conj (Qeq_refl 0)
    (proj1 (centerModel_zero_extent_not_finite
       (set_currentModel (Some (mkObject3D (Finite v3_zero v3_one) true []))
          state_ready)
       (mkObject3D (Finite v3_zero v3_one) true []) v3_zero v3_one
       eq_refl eq_refl (Qeq_refl 0)))))).
Defined.

(** X3.  [ngAfterViewInit] on an asset whose box has no extent resolves
    the load, marks the character loaded, and leaves the current model
    with a transform that is not finite: [loadModel] keeps the scale at
    one (its guard [maxDim > 0] fails) and [centerModel] then divides by
    zero. *)
Theorem ngAfterViewInit_zero_extent width height g pg st :
  maxDim (asset_box (gltf_scene g)) == 0 →
  characterLoaded (ngAfterViewInit width height (LoadOk g) pg st).1 = true ∧
  loading (ngAfterViewInit width height (LoadOk g) pg st).1 = false ∧
  ∃ m, currentModel (ngAfterViewInit width height (LoadOk g) pg st).2 = Some m ∧
       transform m = NonFinite.
Proof.
  intros H0. unfold ngAfterViewInit, ngAfterViewInit_resume, ngAfterViewInit_begin.
  set (st0 := setBackground _ _).
  change (loadModel_resume (LoadOk g) (loadModel_begin ?u st0))
    with (loadModel u (LoadOk g) st0).
  destruct (loadModel_current_model
              "assets/aslkidanimation/models/lisa.glb" g st0 eq_refl)
    as (st' & E & Hm).
  rewrite E. cbn [fst snd characterLoaded loading].
  split; [done|]. split; [done|].
  unfold centerModel. rewrite Hm. cbn [currentModel set_currentModel].
  eexists. split; [reflexivity|].
  assert (Hflat : maxDim (asset_box (gltf_scene g)) <= 0)
    by (rewrite H0; apply Qle_refl).
  erewrite centerModel_object_zero_extent; [done| |exact H0].
  cbn [transform]. by apply loadModel_place_flat.
Qed.

Lemma ngAfterViewInit_zero_extent_witness :
  maxDim (asset_box (gltf_scene sample_empty)) == 0 ∧
  ∃ m, currentModel
         (ngAfterViewInit 400 300 (LoadOk sample_empty)
            new_HomePage new_ThreeRenderer).2 = Some m ∧
       transform m = NonFinite.
Proof.
  exact (conj (Qeq_refl 0)
    (proj2 (proj2 (ngAfterViewInit_zero_extent 400 300 sample_empty
                     new_HomePage new_ThreeRenderer (Qeq_refl 0))))).
Defined.

(** * Further properties: the small methods *)

(** X4.  Once the service is initialized, [resize] always leaves the
    camera with a finite aspect ratio of at least 1e-6: it is
    [width / height] when the height is at least 1 and the quotient at
    least 1e-6, and [Math.max(1e-6, width)] for every height up to 1, a
    height between 0 and 1 included; the model and the animation state
    are not touched. *)
Theorem resize_aspect_for_every_size width height st :
  ready st = true →
  ∃ a,
    camera_aspect (resize width height st) = Some a ∧
    1 # 1000000 <= a ∧
    (1 <= height → 1 # 1000000 <= width / height → a == width / height) ∧
    (height <= 1 → a == Qmax (1 # 1000000) width) ∧
    renderer_size (resize width height st) = (width, height) ∧
    currentModel (resize width height st) = currentModel st ∧
    actions (resize width height st) = actions st ∧
    activeAction (resize width height st) = activeAction st ∧
    heap (resize width height st) = heap st.
Proof.
  intros Hready.
  destruct (resize_aspect_clamped width height) as (a & Ha & Heq & Hle).
  exists a. unfold resize. rewrite Hready. cbn.
  split; [done|]. split; [done|]. split; [|split; [|done]].
  - intros Hh Hq. rewrite Heq.
    assert (E : resize_divisor height == height) by by apply Q.max_r.
    rewrite E. by apply Q.max_r.
  - intros Hh. rewrite Heq.
    assert (E : resize_divisor height == 1) by by apply Q.max_l.
    rewrite E. assert (E1 : width / 1 == width) by by field. by rewrite E1.
Qed.

Lemma resize_aspect_for_every_size_witness :
  ready state_ready = true ∧
  ∃ a, camera_aspect (resize 200 (1 # 2) state_ready) = Some a ∧
       1 # 1000000 <= a.
Proof.
  destruct (resize_aspect_for_every_size 200 (1 # 2) state_ready eq_refl)
    as (a & H1 & H2 & _).
  exact (conj eq_refl (ex_intro _ a (conj H1 H2))).
Defined.

(** X5.  [initialize] does not guard its division: with a height of zero
    the aspect ratio it gives the camera is not a finite number, and it
    stays so until [resize] is called, which repairs it whatever the
    size. *)
Theorem initialize_zero_height_repaired_by_resize width w h st :
  camera_aspect (initialize width 0 st) = None ∧
  ready (initialize width 0 st) = true ∧
  camera_aspect (setBackground "#f8f8f8" (initialize width 0 st)) = None ∧
  ∃ a, camera_aspect (resize w h (initialize width 0 st)) = Some a ∧
       1 # 1000000 <= a.
Proof.
  split; [done|]. split; [done|]. split; [done|].
  destruct (resize_aspect_clamped w h) as (a & Ha & _ & Hle).
  exists a. split; [|done]. unfold resize. cbn. exact Ha.
Qed.

(** ** fixResourcePath *)

Import Stdlib.Strings.Ascii.

Lemma substring_all s : String.substring 0 (String.length s) s = s.
Proof. induction s as [|c s IH]; simpl; [done|]. by rewrite IH. Qed.

(** X6.  [fixResourcePath] returns an absolute url (one that starts with
    "http") as it is, gives [p] for "/" followed by [p], whatever [p]
    is, and in every case returns the url itself or the url without its
    first character, a slash: it never removes more than one leading
    slash, so a url that starts with two keeps one. *)
Theorem fixResourcePath_strips_one_slash u :
  (String.prefix "http" u = true → fixResourcePath u = u) ∧
  fixResourcePath ("/" +:+ u) = u ∧
  (fixResourcePath u = u ∨ u = "/" +:+ fixResourcePath u) ∧
  fixResourcePath ("//" +:+ u) = "/" +:+ u.
Proof.
  assert (Hslash : ∀ s, String.prefix "http" (String "/"%char s) = false) by done.
  assert (Htail : ∀ s, fixResourcePath (String "/"%char s) = s).
  { intros s. unfold fixResourcePath. rewrite Hslash.
    cbn [String.prefix]. destruct (Ascii.ascii_dec "/"%char "/"%char) as [_|Hne]; [|done].
    assert (Hp : String.prefix "" s = true) by by destruct s.
    rewrite Hp.
    replace (String.length (String "/" s) - 1)%nat with (String.length s)
      by (cbn [String.length]; lia).
    cbn [String.substring]. apply substring_all. }
  split; [|split; [|split]].
  - intros H. unfold fixResourcePath. by rewrite H.
  - exact (Htail u).
  - destruct (String.prefix "http" u) eqn:Eh.
    { left. unfold fixResourcePath. by rewrite Eh. }
    destruct u as [|c u']; [by left|].
    destruct (Ascii.ascii_dec "/"%char c) as [<-|Hne].
    + right. by rewrite Htail.
    + left. unfold fixResourcePath. rewrite Eh. cbn [String.prefix].
      by destruct (Ascii.ascii_dec "/"%char c).
  - exact (Htail (String "/"%char u)).
Qed.

(** * Further properties: stopping and replaying *)

Lemma on_action_fields f h st :
  actions (on_action f h st) = actions st ∧
  activeAction (on_action f h st) = activeAction st ∧
  currentModel (on_action f h st) = currentModel st ∧
  mixer (on_action f h st) = mixer st.
Proof. done. Qed.

Lemma renderer_eq st st' :
  ready st = ready st' → background st = background st' →
  camera_aspect st = camera_aspect st' → renderer_size st = renderer_size st' →
  currentModel st = currentModel st' → mixer st = mixer st' →
  actions st = actions st' → activeAction st = activeAction st' →
  heap st = heap st' → next_handle st = next_handle st' →
  next_uuid st = next_uuid st' → next_mixer st = next_mixer st' →
  requests st = requests st' → st = st'.
Proof. destruct st, st'. simpl. by intros -> -> -> -> -> -> -> -> -> -> -> -> ->. Qed.

(** X7.  [disposeCurrentModel] leaves no current model; when there was
    one, it also leaves an empty registry, no active action and no mixer,
    and every action that was registered or active is stopped.  Without a
    current model it changes nothing, so disposing twice is disposing
    once. *)
Theorem disposeCurrentModel_clears_everything st :
  currentModel (disposeCurrentModel st) = None ∧
  (currentModel st = None → disposeCurrentModel st = st) ∧
  disposeCurrentModel (disposeCurrentModel st) = disposeCurrentModel st ∧
  (is_Some (currentModel st) →
     actions (disposeCurrentModel st) = ∅ ∧
     activeAction (disposeCurrentModel st) = None ∧
     mixer (disposeCurrentModel st) = None ∧
     ∀ h a, heap (disposeCurrentModel st) !! h = Some a →
            ((∃ n, actions st !! n = Some h) ∨ activeAction st = Some h) →
            isRunning a = false ∧ scheduled a = false ∧ time a = 0
            ∧ fading a = None).
Proof.
  split; [apply disposeCurrentModel_no_model|].
  split; [intros Hn; unfold disposeCurrentModel; by rewrite Hn|].
  split.
  { unfold disposeCurrentModel at 1.
    by rewrite disposeCurrentModel_no_model. }
  intros [m Hm]. unfold disposeCurrentModel. rewrite Hm.
  cbn [actions activeAction mixer heap set_currentModel set_mixer set_actions].
  split; [done|].
  destruct (stopped_fields st) as (Ha & _).
  assert (Hswap : heap (stop_registered (stop_active st))
                  = heap (stop_active (stop_registered st))).
  { apply map_eq. intros h. rewrite stopped_heap_lookup.
    unfold stop_registered, stop_active.
    destruct (activeAction st) as [a0|] eqn:Ea; cbn; rewrite stop_all_lookup.
    - destruct (decide (a0 = h)) as [->|Hne].
      + rewrite lookup_alter_eq.
        destruct (decide (_ ∨ _)) as [_|Hn]; [|destruct Hn; by right].
        case_decide; [|done]. by destruct (heap st !! h).
      + rewrite lookup_alter_ne by done.
        destruct (decide (_ ∨ _)) as [[?|?]|Hn]; case_decide; try done.
        * congruence.
        * destruct Hn. by left.
    - destruct (decide (_ ∨ _)) as [[?|?]|Hn]; case_decide; try done.
      destruct Hn. by left. }
  assert (Hact : activeAction (stop_registered (stop_active st)) = None).
  { unfold stop_registered, stop_active.
    by destruct (activeAction st) eqn:E; cbn. }
  split; [exact Hact|]. split; [done|].
  intros h a Hh Hwas. rewrite Hswap, stopped_heap_lookup in Hh.
  rewrite decide_True in Hh.
  - destruct (heap st !! h) as [a0|]; [|done]. injection Hh as <-.
    split; [apply isRunning_stop|by repeat split].
  - destruct Hwas as [[n Hn]|Hac]; [left|by right].
    apply elem_of_registered_handles. eauto.
Qed.

(** X8.  [stop()] clears the active action and stops it: the action is
    no longer running, is rewound and has no fade; the registry and every
    other action stay as they are; stopping twice is stopping once. *)
Theorem stop_clears_active st :
  activeAction (stop st) = None ∧
  actions (stop st) = actions st ∧
  currentModel (stop st) = currentModel st ∧
  stop (stop st) = stop st ∧
  (∀ h, activeAction st ≠ Some h → heap (stop st) !! h = heap st !! h) ∧
  (∀ h a, activeAction st = Some h → heap st !! h = Some a →
     heap (stop st) !! h = Some (action_stop a) ∧
     isRunning (action_stop a) = false ∧ time (action_stop a) = 0 ∧
     fading (action_stop a) = None).
Proof.
  unfold stop, stop_active.
  destruct (activeAction st) as [a0|] eqn:Ea; cbn.
  - split; [done|]. split; [done|]. split; [done|]. split; [done|]. split.
    + intros h Hne. rewrite lookup_alter_ne; [done|congruence].
    + intros h a [= <-] Ha. rewrite lookup_alter_eq, Ha.
      split; [done|]. split; [apply isRunning_stop|by split].
  - rewrite Ea. by repeat split.
Qed.

Lemma replayed_action_idem f a :
  replayed_action f (replayed_action f a) = replayed_action f a.
Proof. reflexivity. Qed.

Lemma play_heap name f st next :
  actions st !! name = Some next →
  heap (play name f st)
  = alter (replayed_action f) next
      (match activeAction st with
       | Some a => if decide (a = next) then heap st
                   else alter (action_fadeOut f) a (heap st)
       | None => heap st
       end)
  ∧ activeAction (play name f st) = Some next
  ∧ actions (play name f st) = actions st.
Proof.
  intros Hn. unfold play. rewrite Hn. cbn.
  split; [|split; [done|]].
  - rewrite !alter_alter_eq.
    assert (Hsame : ∀ H : gmap nat AnimationAction,
              alter (action_play ∘ (action_fadeIn f ∘ (action_setEffectiveWeight 1
                       ∘ (action_setEffectiveTimeScale 1 ∘ action_reset)))) next H
              = alter (replayed_action f) next H)
      by (intros H; by apply alter_ext).
    rewrite Hsame. f_equal.
    destruct (activeAction st) as [a|]; [|done]. by case_decide.
  - destruct (activeAction st) as [a|]; [|done]. by case_decide.
Qed.

Lemma play_other_fields name f st :
  ready (play name f st) = ready st ∧
  background (play name f st) = background st ∧
  camera_aspect (play name f st) = camera_aspect st ∧
  renderer_size (play name f st) = renderer_size st ∧
  currentModel (play name f st) = currentModel st ∧
  mixer (play name f st) = mixer st ∧
  actions (play name f st) = actions st ∧
  next_handle (play name f st) = next_handle st ∧
  next_uuid (play name f st) = next_uuid st ∧
  next_mixer (play name f st) = next_mixer st ∧
  requests (play name f st) = requests st.
Proof.
  unfold play. destruct (actions st !! name); [|done].
  destruct (activeAction st); [case_decide|]; done.
Qed.

(** X9.  Replaying is idempotent: calling [play] twice in a row with the
    same name and fade leaves the state that one call leaves (the second
    call finds the registered action active, does not fade it out, and
    sets it to the same values again). *)
Theorem play_twice_is_play_once name f st :
  play name f (play name f st) = play name f st.
Proof.
  destruct (actions st !! name) as [next|] eqn:Hn.
  - destruct (play_heap name f st next Hn) as (Hh & Ha & Hr).
    assert (Hn' : actions (play name f st) !! name = Some next) by by rewrite Hr.
    destruct (play_heap name f (play name f st) next Hn') as (Hh' & Ha' & Hr').
    destruct (play_other_fields name f (play name f st))
      as (F1 & F2 & F3 & F4 & F5 & F6 & F7 & F8 & F9 & F10 & F11).
    apply renderer_eq; try assumption.
    + by rewrite Ha', Ha.
    + rewrite Hh', Ha. rewrite decide_True by done.
      rewrite Hh. rewrite alter_alter_eq. apply alter_ext.
      intros a _. apply replayed_action_idem.
  - assert (E : play name f st = st) by (unfold play; by rewrite Hn).
    by rewrite !E.
Qed.

(** * Further properties: loading an action *)

Lemma recover_fields st :
  actions (recover st) = actions st ∧
  activeAction (recover st) = activeAction st ∧
  heap (recover st) = heap st ∧ mixer (recover st) = mixer st ∧
  requests (recover st) = requests st ∧
  next_handle (recover st) = next_handle st ∧
  next_uuid (recover st) = next_uuid st ∧
  next_mixer (recover st) = next_mixer st.
Proof.
  unfold recover. destruct (currentModel st) as [m|]; [|done].
  destruct (transform m) as [p s|]; [|done].
  destruct (js_not (vy p)); [|done].
  unfold centerModel. by cbn.
Qed.

Lemma recover_model st m :
  currentModel st = Some m →
  ∃ m', currentModel (recover st) = Some m' ∧ visible m' = true ∧
        geometry m' = geometry m ∧
        transform m' =
          match transform m with
          | Finite p s =>
              if js_not (vy p)
              then transform (centerModel_object (set_visible true m))
              else transform m
          | NonFinite => NonFinite
          end.
Proof.
  intros Hm. unfold recover. rewrite Hm.
  destruct (transform m) as [p s|] eqn:Et.
  - destruct (js_not (vy p)).
    + unfold centerModel. cbn [currentModel set_currentModel].
      eexists. split; [reflexivity|].
      unfold centerModel_object. cbn [transform set_visible]. rewrite Et.
      repeat (destruct (js_gt _ _) || destruct (js_lt _ _) || destruct (jsdiv _ _));
        by repeat split.
    + cbn. eexists. split; [reflexivity|]. by repeat split.
  - cbn. eexists. split; [reflexivity|]. by repeat split.
Qed.

(** X10.  A failed action load does not disturb the animation: when
    [playAnimationForExistingModel], resumed on a state that has a current
    model, rejects, it is because the load failed or the asset has no
    clip, and the registry, the active action, every action and the mixer
    are as before; the model is made visible, and re-centred exactly when
    its height [position.y] is zero. *)
Theorem failed_action_load_keeps_animation fadeSeconds saved r st e st' m :
  wf st → currentModel st = Some m →
  playAnimationForExistingModel_resume fadeSeconds saved r st = (Rejected e, st') →
  (r = LoadFail e
   ∨ ∃ g, r = LoadOk g ∧ gltf_animations g = []
          ∧ e = JsError "No animations found in action file") ∧
  actions st' = actions st ∧ activeAction st' = activeAction st ∧
  heap st' = heap st ∧ mixer st' = mixer st ∧ requests st' = requests st ∧
  ∃ m', currentModel st' = Some m' ∧ visible m' = true ∧
        geometry m' = geometry m ∧
        transform m' =
          match transform m with
          | Finite p s =>
              if js_not (vy p)
              then transform (centerModel_object (set_visible true m))
              else transform m
          | NonFinite => NonFinite
          end.
Proof.
  intros Hwf Hm Hres.
  destruct (resume_rejected _ _ _ _ _ _ Hwf Hres) as [->|[(g & -> & Hg & ->)|[Hn _]]];
    [| |congruence].
  - split; [by left|]. cbn in Hres. injection Hres as <-.
    destruct (recover_fields st) as (H1 & H2 & H3 & H4 & H5 & _).
    repeat (split; [done|]). by apply recover_model.
  - split; [right; by exists g|].
    unfold playAnimationForExistingModel_resume in Hres. rewrite Hg in Hres.
    cbn in Hres. injection Hres as <-.
    set (st0 := set_next_uuid _ st).
    destruct (recover_fields st0) as (H1 & H2 & H3 & H4 & H5 & _).
    repeat (split; [done|]). by apply (recover_model st0).
Qed.

Lemma failed_action_load_witness :
  wf state_pending ∧
  playAnimationForExistingModel_resume (3 # 10) sample_saved
    (LoadFail (JsError "404")) state_pending
    = (Rejected (JsError "404"), recover state_pending) ∧
  actions (recover state_pending) = actions state_pending ∧
  activeAction (recover state_pending) = activeAction state_pending.
Proof.
  destruct (failed_action_load_keeps_animation (3 # 10) sample_saved
              (LoadFail (JsError "404")) state_pending (JsError "404")
              (recover state_pending)
              (mkObject3D sample_saved true (gltf_scene sample_character))
              state_pending_wf eq_refl eq_refl) as (_ & H1 & H2 & _).
  exact (conj state_pending_wf (conj eq_refl (conj H1 H2))).
Defined.

(** X11.  The first time a clip name is met, [playAnimationForExistingModel]
    registers the new handle under it: the registry gains exactly that
    entry, the handle is the active one, and a later [play] on the name
    resets and replays that same handle, fades nothing out and touches no
    other action. *)
Theorem first_use_registers_the_clip
    fadeSeconds fade2 saved g c cs st st' :
  wf st →
  gltf_animations g = c :: cs →
  actions st !! cd_name c = None →
  playAnimationForExistingModel_resume fadeSeconds saved (LoadOk g) st
    = (Resolved tt, st') →
  ∃ h a,
    heap st !! h = None ∧
    activeAction st' = Some h ∧
    actions st' = <[cd_name c := h]> (actions st) ∧
    heap st' !! h = Some a ∧ clip_name (act_clip a) = cd_name c ∧
    activeAction (play (cd_name c) fade2 st') = Some h ∧
    heap (play (cd_name c) fade2 st') !! h = Some (replayed_action fade2 a) ∧
    (∀ h', h' ≠ h →
       heap (play (cd_name c) fade2 st') !! h' = heap st' !! h').
Proof.
  intros Hwf Hg Hnone Hres.
  destruct (resume_resolved _ _ _ _ _ Hwf Hres)
    as (g' & c' & cs' & model & id & [= <-] & Hg' & Hc & Ha & Hh & Hr & _ & _).
  rewrite Hg in Hg'. injection Hg' as <- <-.
  rewrite Hnone in Hr.
  destruct Hwf as (_ & Hheap & _ & _).
  assert (Hnew : heap st !! next_handle st = None).
  { destruct (heap st !! next_handle st) eqn:E; [|done].
    apply Hheap in E. simpl in E. lia. }
  exists (next_handle st). eexists.
  assert (Hnew' : heap st' !! next_handle st = Some
            (started_action id (mkClip (next_uuid st) (cd_name c) (cd_duration c))))
    by by rewrite Hh, lookup_insert_eq.
  assert (Hreg : actions st' !! cd_name c = Some (next_handle st))
    by by rewrite Hr, lookup_insert_eq.
  destruct (play_registered (cd_name c) fade2 st' _ _ Hreg Hnew')
    as (P1 & _ & _ & P3 & _ & P5).
  split; [done|]. split; [done|]. split; [done|]. split; [exact Hnew'|].
  split; [done|]. split; [done|]. split; [done|].
  intros h' Hne. apply P5; [done|]. rewrite Ha. congruence.
Qed.

Lemma resume_ball_sign :
  playAnimationForExistingModel_resume (3 # 10) sample_saved
    (LoadOk sample_ball) state_pending
  = (Resolved tt,
     (playAnimationForExistingModel_resume (3 # 10) sample_saved
        (LoadOk sample_ball) state_pending).2).
Proof. vm_compute. reflexivity. Qed.

Lemma first_use_witness :
  wf state_pending ∧
  gltf_animations sample_ball = [mkClipData "BallSign" 1] ∧
  actions state_pending !! cd_name (mkClipData "BallSign" 1) = None ∧
  ∃ h a,
    heap state_pending !! h = None ∧
    activeAction
      (playAnimationForExistingModel_resume (3 # 10) sample_saved
         (LoadOk sample_ball) state_pending).2 = Some h ∧
    heap
      (playAnimationForExistingModel_resume (3 # 10) sample_saved
         (LoadOk sample_ball) state_pending).2 !! h = Some a ∧
    clip_name (act_clip a) = "BallSign".
Proof.
  assert (Hn : actions state_pending !! cd_name (mkClipData "BallSign" 1) = None)
    by (vm_compute; reflexivity).
  destruct (first_use_registers_the_clip (3 # 10) (3 # 10) sample_saved
              sample_ball (mkClipData "BallSign" 1) [] state_pending _
              state_pending_wf eq_refl Hn resume_ball_sign)
    as (h & a & H1 & H2 & _ & H4 & H5 & _).
  exact (conj state_pending_wf (conj eq_refl (conj Hn
    (ex_intro _ h (ex_intro _ a (conj H1 (conj H2 (conj H4 H5)))))))).
Defined.

(** ** loadActionAndPlay *)

Lemma set_transform_same m : set_transform (transform m) m = m.
Proof. by destruct m. Qed.

Lemma set_currentModel_same st m :
  currentModel st = Some m → set_currentModel (Some m) st = st.
Proof. intros H. destruct st. simpl in *. by rewrite H. Qed.

(** Restoring the transform the model has is no change: the two ways of
    starting an action agree. *)
Lemma start_action_plain_agrees clip st m :
  currentModel st = Some m →
  start_action clip (transform m) st = start_action_plain clip st.
Proof.
  intros Hm. unfold start_action, start_action_plain.
  destruct (match mixer st with Some m0 => _ | None => _ end) as [mx st1] eqn:E1.
  assert (Hm1 : currentModel st1 = Some m).
  { destruct (mixer st); injection E1 as <- <-; done. }
  destruct (negb (mixer_rooted mx)); [done|].
  destruct (clipAction _ _ _ _) as [[[h m1] hp1] nh1].
  set (st11 := set_activeAction _ _).
  assert (Hm11 : currentModel st11 = Some m).
  { unfold st11. cbn.
    destruct (stopped_fields st1) as (_ & _ & _ & Hc & _). by rewrite Hc. }
  rewrite Hm11, set_transform_same, (set_currentModel_same st11 m Hm11).
  done.
Qed.

(** X12.  On a path that needs no fixing and a state with a current
    model, with nothing else running while the load is pending,
    [playAnimationForExistingModel] settles as [loadActionAndPlay] does,
    with the same error if any: when they resolve they leave the same
    state (restoring the saved transform changes nothing), and when they
    reject the former leaves the state of the latter after its recovery
    pass. *)
Theorem playAnimation_is_loadActionAndPlay_with_recovery
    actionUrl fadeSeconds r st m :
  currentModel st = Some m → fixResourcePath actionUrl = actionUrl →
  match loadActionAndPlay actionUrl fadeSeconds r st with
  | (Resolved _, st') =>
      playAnimationForExistingModel actionUrl fadeSeconds r st = (Resolved tt, st')
  | (Rejected e, st') =>
      playAnimationForExistingModel actionUrl fadeSeconds r st
      = (Rejected e, recover st')
  end.
Proof.
  intros Hm Hfix.
  unfold loadActionAndPlay, playAnimationForExistingModel,
    loadActionAndPlay_begin, playAnimationForExistingModel_begin.
  rewrite Hm, Hfix.
  unfold loadActionAndPlay_resume, playAnimationForExistingModel_resume.
  destruct r as [g|e]; [|done].
  destruct (make_clips _ _) as [|clip clips] eqn:Ec; [done|].
  set (st0 := set_next_uuid _ _).
  rewrite (start_action_plain_agrees clip st0 m) by done.
  by destruct (start_action_plain clip st0).
Qed.

Lemma loadActionAndPlay_ball :
  loadActionAndPlay ball_url (3 # 10) (LoadOk sample_action) state_loaded
  = (Resolved tt, state_signed).
Proof. vm_compute. reflexivity. Qed.

Lemma playAnimation_is_loadActionAndPlay_witness :
  currentModel state_loaded
    = Some (mkObject3D sample_saved true (gltf_scene sample_character)) ∧
  fixResourcePath ball_url = ball_url ∧
  playAnimationForExistingModel ball_url (3 # 10) (LoadOk sample_action)
    state_loaded = (Resolved tt, state_signed).
Proof.
  pose proof (playAnimation_is_loadActionAndPlay_with_recovery
                ball_url (3 # 10) (LoadOk sample_action) state_loaded
                (mkObject3D sample_saved true (gltf_scene sample_character))
                eq_refl eq_refl) as H.
  rewrite loadActionAndPlay_ball in H.
  exact (conj eq_refl (conj eq_refl H)).
Defined.

(** * Further properties: what every reachable state satisfies *)

Lemma keeps_config_stop : keeps_config action_stop.
Proof. by intros a. Qed.
Lemma keeps_config_reset : keeps_config action_reset.
Proof. by intros a. Qed.
Lemma keeps_config_fadeOut f : keeps_config (action_fadeOut f).
Proof. by intros a. Qed.
Lemma keeps_config_replayed f : keeps_config (replayed_action f).
Proof. by intros a. Qed.

Lemma stopped_ready st : ready (stop_active (stop_registered st)) = ready st.
Proof. unfold stop_active, stop_registered. simpl. by destruct (activeAction st). Qed.

Lemma loadModel_resume_rebuilt g st :
  loadModel_resume (LoadOk g) st =
    let model := mkObject3D (loadModel_place (gltf_scene g)) true (gltf_scene g) in
    if ready st
    then (Resolved model, set_currentModel (Some model) (loadModel_rebuilt g st))
    else (Rejected (JsError "Cannot read properties of undefined"),
          loadModel_rebuilt g st).
Proof. reflexivity. Qed.

(** The invariant only reads these fields. *)
Lemma inv_same_fields c st st' :
  ready st' = ready st →
  currentModel st' = currentModel st → mixer st' = mixer st →
  actions st' = actions st → activeAction st' = activeAction st →
  heap st' = heap st → next_handle st' = next_handle st →
  next_uuid st' = next_uuid st →
  inv c st → inv c st'.
Proof.
  intros Hr Hc Hm Ha Hac Hh Hn Hu (Hwf & Hreg & Hmr & Hcl).
  unfold inv, wf, no_model_clean, registry_ok, model_ready in *.
  by rewrite Hr, Hc, Hm, Ha, Hac, Hh, Hn, Hu.
Qed.

Lemma inv_initialize c w h st : inv c st → inv c (initialize w h st).
Proof.
  intros (Hwf & Hreg & Hmr & Hcl).
  split; [exact Hwf|]. split; [exact Hreg|]. split; [done|].
  intros Hc. split; [done|]. exact (proj2 (Hcl Hc)).
Qed.

(** Changing one action, keeping its clip and the way it ends. *)
Lemma inv_on_action f h c st :
  keeps_config f → inv c st → inv c (on_action f h st).
Proof.
  intros Hf (Hwf & Hreg & Hmr & Hcl).
  destruct Hwf as (Hmix & Hheap & Hacts & Hact).
  split; [|split; [|split; [exact Hmr|exact Hcl]]].
  - split; [exact Hmix|]. cbn. split; [|split].
    + intros k a Hk. apply (f_equal is_Some) in Hk.
      assert (is_Some (heap st !! k)) as [a' Ha'].
      { apply (lookup_alter_is_Some f (heap st) h k). rewrite Hk. by eexists. }
      exact (Hheap _ _ Ha').
    + intros n k Hn. apply lookup_alter_is_Some. exact (Hacts _ _ Hn).
    + destruct (activeAction st); [|done]. by apply lookup_alter_is_Some.
  - intros n k Hn. destruct (Hreg n k Hn) as (a & Ha & H1 & H2 & H3).
    cbn. destruct (decide (h = k)) as [->|Hne].
    + exists (f a). rewrite lookup_alter_eq, Ha. split; [done|].
      destruct (Hf a) as (E1 & E2 & E3). by rewrite E1, E2, E3.
    + exists a. by rewrite lookup_alter_ne.
Qed.

Lemma inv_set_activeAction h c st :
  inv c st → is_Some (heap st !! h) → (c = true → is_Some (currentModel st)) →
  inv c (set_activeAction (Some h) st).
Proof.
  intros (Hwf & Hreg & Hmr & Hcl) Hh Hmodel.
  destruct Hwf as (Hmix & Hheap & Hacts & Hact).
  split; [|split; [exact Hreg|split; [exact Hmr|]]].
  - split; [exact Hmix|]. split; [exact Hheap|]. split; [exact Hacts|]. exact Hh.
  - intros Hc. split; [exact (proj1 (Hcl Hc))|].
    intros Hn. cbn in Hn. destruct (Hmodel Hc) as [? ?]. congruence.
Qed.

Lemma inv_clear_activeAction c st : inv c st → inv c (set_activeAction None st).
Proof.
  intros (Hwf & Hreg & Hmr & Hcl).
  destruct Hwf as (Hmix & Hheap & Hacts & Hact).
  split; [|split; [exact Hreg|split; [exact Hmr|]]].
  - by split; [exact Hmix|].
  - intros Hc. destruct (Hcl Hc) as [Hr Hclean]. split; [exact Hr|].
    intros Hn. destruct (Hclean Hn) as (H1 & _ & H3). by split.
Qed.

Lemma inv_stop_active c st : inv c st → inv c (stop_active st).
Proof.
  intros Hinv. unfold stop_active. destruct (activeAction st); [|done].
  apply inv_clear_activeAction, inv_on_action; [apply keeps_config_stop|done].
Qed.

Lemma inv_stop_all hs c st :
  inv c st → inv c (set_heap (stop_all hs (heap st)) st).
Proof.
  intros Hinv. induction hs as [|h hs IH].
  - eapply inv_same_fields; [..|exact Hinv]; done.
  - eapply inv_same_fields;
      [..|exact (inv_on_action action_stop h c _ keeps_config_stop IH)]; done.
Qed.

Lemma inv_stop_registered c st : inv c st → inv c (stop_registered st).
Proof. apply inv_stop_all. Qed.

Lemma inv_play n f c st : inv c st → inv c (play n f st).
Proof.
  intros Hinv. unfold play. destruct (actions st !! n) as [next|] eqn:Hn; [|done].
  set (st1 := match activeAction st with Some _ => _ | None => _ end).
  assert (H1 : inv c st1).
  { unfold st1. destruct (activeAction st); [|done]. case_decide; [done|].
    by apply inv_on_action; [apply keeps_config_fadeOut|]. }
  assert (Ha1 : actions st1 = actions st ∧ currentModel st1 = currentModel st).
  { unfold st1. destruct (activeAction st); [|done]. by case_decide. }
  destruct Ha1 as [Ha1 Hc1].
  assert (Hmodel : c = true → is_Some (currentModel st1)).
  { intros Hc. rewrite Hc1. destruct (currentModel st) eqn:Ec; [by eexists|].
    destruct Hinv as (_ & _ & _ & Hcl). destruct (Hcl Hc) as [_ Hclean].
    destruct (Hclean Ec) as (E & _). rewrite E, lookup_empty in Hn. done. }
  assert (Hnext : is_Some (heap st1 !! next)).
  { destruct H1 as ((_ & _ & Hacts & _) & _). apply (Hacts n). by rewrite Ha1. }
  apply inv_set_activeAction.
  - repeat (apply inv_on_action; [by intros a|]). exact H1.
  - cbn. by rewrite !lookup_alter_is_Some.
  - exact Hmodel.
Qed.

Lemma start_action_plain_core clip st :
  start_action_plain clip st =
    match start_core clip st with
    | inl s => inl s
    | inr (h, m1, st11) => inr (register_and_listen clip h m1 st11)
    end.
Proof.
  unfold start_action_plain, start_core.
  destruct (match mixer st with Some m0 => _ | None => _ end) as [mx st1].
  destruct (negb (mixer_rooted mx)); [done|].
  by destruct (clipAction _ _ _ _) as [[[h m1] hp1] nh1].
Qed.

Lemma start_action_core clip saved st :
  start_action clip saved st =
    match start_core clip st with
    | inl s => inl s
    | inr (h, m1, st11) =>
        match currentModel st11 with
        | None => inl st11
        | Some model =>
            inr (register_and_listen clip h m1
                   (set_currentModel (Some (set_transform saved model)) st11))
        end
    end.
Proof.
  unfold start_action, start_core.
  destruct (match mixer st with Some m0 => _ | None => _ end) as [mx st1].
  destruct (negb (mixer_rooted mx)); [done|].
  by destruct (clipAction _ _ _ _) as [[[h m1] hp1] nh1].
Qed.

Lemma inv_set_mixer_fresh c st rooted :
  inv c st → mixer st = None → rooted = bool_decide (is_Some (currentModel st)) →
  inv c (set_next_mixer (S (next_mixer st))
           (set_mixer (Some (new_mixer (next_mixer st) rooted)) st)).
Proof.
  intros (Hwf & Hreg & Hmr & Hcl) Hm ->.
  destruct Hwf as (_ & Hheap & Hacts & Hact).
  split; [|split; [exact Hreg|split; [exact Hmr|]]].
  - split; [|by split]. cbn. split; [apply map_Forall_empty|].
    intros Hs. by apply bool_decide_eq_true.
  - intros Hc. destruct (Hcl Hc) as [Hr Hclean]. split; [exact Hr|].
    intros Hn. cbn in Hn. destruct (Hclean Hn) as (H1 & H2 & _).
    cbn. split; [done|]. split; [done|].
    apply bool_decide_eq_false. rewrite Hn. by intros [? ?].
Qed.

(** What a new action for a clip the mixer has not seen leaves: the six
    fields the invariant reads, after the action behind the new handle has
    been changed by [f]. *)
Lemma inv_new_action c st mx clip f s :
  inv c st → is_Some (currentModel st) →
  mixer st = Some mx → mixer_rooted mx = true →
  actionsByClip mx !! clip_uuid clip = None →
  (clip_uuid clip < next_uuid st)%nat →
  mixer s = Some (mkMixer (mixer_id mx) (mixer_rooted mx) (mixer_timeScale mx)
                    (<[clip_uuid clip := next_handle st]> (actionsByClip mx))
                    (finished_listeners mx)) →
  heap s = <[next_handle st := f (new_action (mixer_id mx) clip)]> (heap st) →
  actions s = actions st → currentModel s = currentModel st →
  (activeAction s = activeAction st ∨ activeAction s = Some (next_handle st)) →
  next_handle s = S (next_handle st) → next_uuid s = next_uuid st →
  ready s = ready st →
  inv c s ∧ (∀ n, actions s !! n ≠ Some (next_handle st)).
Proof.
  intros ((Hmix & Hheap & Hacts & Hact) & Hreg & Hmr & Hcl) Hmodel Hm Hroot
         Hmiss Hu Fm Fh Fa Fc Fact Fn Fu Fr.
  rewrite Hm in Hmix. destruct Hmix as [Hcache _].
  assert (Hnh : heap st !! next_handle st = None).
  { destruct (heap st !! next_handle st) eqn:E; [|done].
    apply Hheap in E. simpl in E. lia. }
  assert (Hunreg : ∀ n, actions st !! n ≠ Some (next_handle st)).
  { intros n Hn'. destruct (Hacts _ _ Hn') as [a Ha']. congruence. }
  split; [|by rewrite Fa].
  unfold inv, wf, no_model_clean, registry_ok, model_ready.
  rewrite Fm, Fh, Fa, Fc, Fn, Fu, Fr.
  cbn [actionsByClip mixer_rooted].
  split; [|split; [|split]].
  - split; [|split; [|split]].
    + split; [|done]. apply map_Forall_insert_2; [exact Hu|exact Hcache].
    + apply map_Forall_insert_2; [lia|].
      eapply map_Forall_impl; [exact Hheap|]. simpl. intros; lia.
    + intros n k Hk. rewrite lookup_insert_is_Some'. right. exact (Hacts _ _ Hk).
    + destruct Fact as [-> | ->].
      * destruct (activeAction st); [|done].
        rewrite lookup_insert_is_Some'. by right.
      * rewrite lookup_insert_eq. by eexists.
  - intros n k Hk. destruct (Hreg n k Hk) as (a & Ha' & Hrest).
    exists a. split; [|done]. rewrite lookup_insert_ne; [done|].
    intros <-. congruence.
  - exact Hmr.
  - intros Hc. destruct (Hcl Hc) as [Hr _]. split; [exact Hr|].
    intros Hno. destruct Hmodel as [? ?]. congruence.
Qed.

(** What [start_core] leaves. *)
Lemma inv_start_core c clip st :
  inv c st →
  (∀ m, mixer st = Some m → actionsByClip m !! clip_uuid clip = None) →
  (clip_uuid clip < next_uuid st)%nat →
  match start_core clip st with
  | inl s => inv c s
  | inr (h, m1, s) =>
      inv c s ∧ (c = true → is_Some (currentModel s)) ∧
      mixer s = Some m1 ∧ mixer_rooted m1 = true ∧ next_uuid s = next_uuid st ∧
      (∀ n, actions s !! n ≠ Some h) ∧
      ∃ a, heap s !! h = Some a ∧ act_clip a = clip ∧
           clampWhenFinished a = true ∧ loop a = LoopOnce
  end.
Proof.
  intros Hinv Hfresh Hu. unfold start_core.
  set (pr := match mixer st with Some m0 => _ | None => _ end).
  assert (Hpr : inv c pr.2 ∧ mixer pr.2 = Some pr.1 ∧
                actionsByClip pr.1 !! clip_uuid clip = None ∧
                next_uuid pr.2 = next_uuid st).
  { unfold pr. destruct (mixer st) as [m|] eqn:Em; cbn.
    - split; [done|]. split; [done|]. split; [by apply Hfresh|done].
    - split; [by apply inv_set_mixer_fresh|]. by split. }
  destruct pr as [mx st1]. cbn in Hpr. destruct Hpr as (Hinv1 & Hm1 & Hmiss & Hu1).
  assert (Hinv3 : inv c (stop_active (stop_registered st1)))
    by by apply inv_stop_active, inv_stop_registered.
  destruct (stopped_fields st1) as (Ha & Hr & Hmx & Hc & Hn & Hnu & _).
  cbn zeta in *.
  remember (stop_active (stop_registered st1)) as st3 eqn:E3. clear E3.
  destruct (mixer_rooted mx) eqn:Hroot; cbn [negb]; [|exact Hinv3].
  rewrite clipAction_new by done.
  set (s := set_activeAction _ _).
  assert (Fm : mixer s = Some (mkMixer (mixer_id mx) (mixer_rooted mx)
                 (mixer_timeScale mx)
                 (<[clip_uuid clip := next_handle st3]> (actionsByClip mx))
                 (finished_listeners mx))) by reflexivity.
  assert (Fh : heap s = <[next_handle st3 := started_action (mixer_id mx) clip]>
                          (heap st3)).
  { assert (E : heap s
                = alter action_play (next_handle st3)
                    (alter (action_setEffectiveWeight 1) (next_handle st3)
                       (alter (action_setEffectiveTimeScale (7 # 10)) (next_handle st3)
                          (alter action_reset (next_handle st3)
                             (alter (set_loop LoopOnce) (next_handle st3)
                                (alter (set_clampWhenFinished true) (next_handle st3)
                                   (<[next_handle st3 := new_action (mixer_id mx) clip]>
                                      (heap st3)))))))) by reflexivity.
    rewrite E. by rewrite !alter_insert_eq. }
  assert (Fa : actions s = actions st3) by reflexivity.
  assert (Fc : currentModel s = currentModel st3) by reflexivity.
  assert (Fact : activeAction s = Some (next_handle st3)) by reflexivity.
  assert (Fn : next_handle s = S (next_handle st3)) by reflexivity.
  assert (Fu : next_uuid s = next_uuid st3) by reflexivity.
  assert (Fr : ready s = ready st3) by reflexivity.
  clearbody s.
  pose proof Hinv3 as ((Hmix & Hheap & Hacts & _) & Hreg & Hmr & Hcl).
  rewrite Hmx, Hm1 in Hmix. destruct Hmix as [Hcache _].
  assert (Hmodel : c = true → is_Some (currentModel st3)).
  { intros Hc'. destruct (currentModel st3) eqn:Ec; [by eexists|].
    destruct (Hcl Hc') as [_ Hclean].
    destruct (Hclean Ec) as (_ & _ & Hr0). rewrite Hmx, Hm1 in Hr0. congruence. }
  assert (Hnh : heap st3 !! next_handle st3 = None).
  { destruct (heap st3 !! next_handle st3) eqn:E; [|done].
    apply Hheap in E. simpl in E. lia. }
  assert (Hunreg : ∀ n, actions st3 !! n ≠ Some (next_handle st3)).
  { intros n Hn'. destruct (Hacts _ _ Hn') as [a Ha']. congruence. }
  split; [|split; [by rewrite Fc|split; [exact Fm|split; [exact Hroot|
           split; [by rewrite Fu, Hnu|]]]]].
  - unfold inv, wf, no_model_clean, registry_ok, model_ready.
    rewrite Fm, Fh, Fa, Fc, Fact, Fn, Fu, Fr.
    cbn [actionsByClip mixer_rooted].
    split; [|split; [|split]].
    + split; [|split; [|split]].
      * split; [|done]. rewrite Hnu, Hu1 in Hcache |- *.
        apply map_Forall_insert_2; [exact Hu|exact Hcache].
      * apply map_Forall_insert_2; [lia|].
        eapply map_Forall_impl; [exact Hheap|]. simpl. intros; lia.
      * intros n k Hk. rewrite lookup_insert_is_Some'. right. exact (Hacts _ _ Hk).
      * rewrite lookup_insert_eq. by eexists.
    + intros n k Hk. destruct (Hreg n k Hk) as (a & Ha' & Hrest).
      exists a. split; [|done]. rewrite lookup_insert_ne; [done|].
      intros <-. congruence.
    + exact Hmr.
    + intros Hc'. destruct (Hcl Hc') as [Hr' _]. split; [exact Hr'|].
      intros Hno. destruct (Hmodel Hc') as [? ?]. congruence.
  - rewrite Fa, Fh. split; [exact Hunreg|]. eexists. rewrite lookup_insert_eq.
    split; [reflexivity|]. done.
Qed.

Lemma inv_register_and_listen clip h m1 c st a :
  inv c st → (c = true → is_Some (currentModel st)) →
  mixer st = Some m1 → mixer_rooted m1 = true →
  heap st !! h = Some a → act_clip a = clip →
  clampWhenFinished a = true → loop a = LoopOnce →
  inv c (register_and_listen clip h m1 st).
Proof.
  intros ((Hmix & Hheap & Hacts & Hact) & Hreg & Hmr & Hcl) Hmodel Hm Hroot
         Ha Hclip Hclamp Hloop.
  rewrite Hm in Hmix. destruct Hmix as [Hcache _].
  unfold register_and_listen.
  set (s := match actions st !! clip_name clip with Some _ => _ | None => _ end).
  assert (Fa : actions s = match actions st !! clip_name clip with
                           | Some _ => actions st
                           | None => <[clip_name clip := h]> (actions st)
                           end)
    by (unfold s; by destruct (actions st !! clip_name clip)).
  assert (Fo : heap s = heap st ∧ currentModel s = currentModel st ∧
               activeAction s = activeAction st ∧
               next_handle s = next_handle st ∧ next_uuid s = next_uuid st ∧
               ready s = ready st)
    by (unfold s; by destruct (actions st !! clip_name clip)).
  destruct Fo as (Fh & Fc & Fact & Fn & Fu & Fr). clearbody s.
  unfold inv, wf, no_model_clean, registry_ok, model_ready.
  cbn [mixer set_mixer heap actions activeAction currentModel next_handle
       next_uuid add_finished_listener actionsByClip mixer_rooted ready].
  rewrite Fh, Fc, Fact, Fn, Fu, Fa, Fr.
  split; [|split; [|split]].
  - split; [by split|]. split; [done|]. split; [|done].
    destruct (actions st !! clip_name clip); [done|].
    apply map_Forall_insert_2; [by eexists|done].
  - destruct (actions st !! clip_name clip); [done|].
    apply map_Forall_insert_2; [|done].
    exists a. by rewrite Hclip.
  - exact Hmr.
  - intros Hc. destruct (Hcl Hc) as [Hr _]. split; [exact Hr|].
    intros Hno. destruct (Hmodel Hc) as [? ?]. congruence.
Qed.

Lemma inv_set_currentModel m c st :
  inv c st → is_Some (currentModel st) → inv c (set_currentModel (Some m) st).
Proof.
  intros ((Hmix & Hrest) & Hreg & Hmr & Hcl) Hmodel.
  split; [|split; [exact Hreg|split]].
  - split; [|exact Hrest]. cbn [mixer set_currentModel currentModel].
    destruct (mixer st); [|done]. destruct Hmix as [H1 H2].
    split; [done|]. intros _. by apply H2.
  - intros _. exact (Hmr Hmodel).
  - intros Hc. split; [exact (proj1 (Hcl Hc))|]. intros Hno. done.
Qed.

Lemma inv_start_action_plain c clip st :
  inv c st →
  (∀ m, mixer st = Some m → actionsByClip m !! clip_uuid clip = None) →
  (clip_uuid clip < next_uuid st)%nat →
  match start_action_plain clip st with inl s | inr s => inv c s end.
Proof.
  intros Hinv Hfresh Hu. rewrite start_action_plain_core.
  pose proof (inv_start_core c clip st Hinv Hfresh Hu) as Hcore.
  destruct (start_core clip st) as [s|[[h m1] s]]; [done|].
  destruct Hcore as (Hs & Hmodel & Hm & Hroot & _ & _ & a & Ha & Hc & H1 & H2).
  by eapply inv_register_and_listen.
Qed.

Lemma inv_start_action c clip saved st :
  inv c st →
  (∀ m, mixer st = Some m → actionsByClip m !! clip_uuid clip = None) →
  (clip_uuid clip < next_uuid st)%nat →
  match start_action clip saved st with inl s | inr s => inv c s end.
Proof.
  intros Hinv Hfresh Hu. rewrite start_action_core.
  pose proof (inv_start_core c clip st Hinv Hfresh Hu) as Hcore.
  destruct (start_core clip st) as [s|[[h m1] s]]; [done|].
  destruct Hcore as (Hs & Hmodel & Hm & Hroot & _ & _ & a & Ha & Hc & H1 & H2).
  destruct (currentModel s) as [model|] eqn:Ec; [|done].
  eapply inv_register_and_listen; try done.
  apply inv_set_currentModel; [done|]. rewrite Ec. by eexists.
Qed.

Lemma inv_centerModel c st : inv c st → inv c (centerModel st).
Proof.
  intros Hinv. unfold centerModel. destruct (currentModel st) eqn:Ec; [|done].
  apply inv_set_currentModel; [done|]. rewrite Ec. by eexists.
Qed.

Lemma inv_recover c st : inv c st → inv c (recover st).
Proof.
  intros Hinv. unfold recover. destruct (currentModel st) as [m|] eqn:Ec; [|done].
  assert (H1 : inv c (set_currentModel (Some (set_visible true m)) st)).
  { apply inv_set_currentModel; [done|]. rewrite Ec. by eexists. }
  destruct (transform m) as [p s|]; [|done].
  destruct (js_not (vy p)); [|done]. by apply inv_centerModel.
Qed.

Lemma inv_set_next_uuid n c st :
  inv c st → (next_uuid st ≤ n)%nat → inv c (set_next_uuid n st).
Proof.
  intros ((Hmix & Hrest) & Hreg & Hmr & Hcl) Hle.
  split; [|split; [exact Hreg|split; [exact Hmr|exact Hcl]]].
  split; [|exact Hrest]. cbn [mixer set_next_uuid next_uuid currentModel].
  destruct (mixer st); [|done]. destruct Hmix as [H1 H2]. split; [|done].
  eapply map_Forall_impl; [exact H1|]. simpl. intros; lia.
Qed.

Lemma fresh_in_bumped c st len :
  inv c st →
  ∀ m, mixer (set_next_uuid (next_uuid st + len)%nat st) = Some m →
       actionsByClip m !! next_uuid st = None.
Proof.
  intros ((Hmix & _) & _) m Hm. cbn in Hm. rewrite Hm in Hmix.
  destruct Hmix as [Hcache _].
  destruct (actionsByClip m !! next_uuid st) eqn:E; [|done].
  apply Hcache in E. simpl in E. lia.
Qed.

Lemma inv_playAnimation_resume c f saved r st :
  inv c st → inv c (playAnimationForExistingModel_resume f saved r st).2.
Proof.
  intros Hinv. unfold playAnimationForExistingModel_resume.
  destruct r as [g|e]; [|by apply inv_recover].
  destruct (gltf_animations g) as [|d ds] eqn:Eg; cbn [make_clips].
  { apply inv_recover, inv_set_next_uuid; [done|]. cbn. lia. }
  set (clip := mkClip (next_uuid st) (cd_name d) (cd_duration d)).
  set (st0 := set_next_uuid _ st).
  assert (H0 : inv c st0) by (apply inv_set_next_uuid; [done|]; cbn; lia).
  pose proof (inv_start_action c clip saved st0 H0) as Hs.
  destruct (start_action clip saved st0) as [s|s]; cbn [snd].
  - apply inv_recover, Hs.
    + by eapply fresh_in_bumped.
    + cbn. lia.
  - apply Hs.
    + by eapply fresh_in_bumped.
    + cbn. lia.
Qed.

Lemma inv_loadActionAndPlay_resume c f r st :
  inv c st → inv c (loadActionAndPlay_resume f r st).2.
Proof.
  intros Hinv. unfold loadActionAndPlay_resume.
  destruct r as [g|e]; [|done].
  destruct (gltf_animations g) as [|d ds] eqn:Eg; cbn [make_clips].
  { apply inv_set_next_uuid; [done|]. cbn. lia. }
  set (clip := mkClip (next_uuid st) (cd_name d) (cd_duration d)).
  set (st0 := set_next_uuid _ st).
  assert (H0 : inv c st0) by (apply inv_set_next_uuid; [done|]; cbn; lia).
  pose proof (inv_start_action_plain c clip st0 H0) as Hs.
  destruct (start_action_plain clip st0) as [s|s]; cbn [snd]; apply Hs;
    solve [by eapply fresh_in_bumped | cbn; lia].
Qed.

Lemma inv_dispose c st : inv c st → inv c (disposeCurrentModel st).
Proof.
  intros Hinv. unfold disposeCurrentModel.
  destruct (currentModel st) eqn:Ec; [|done].
  pose proof (inv_stop_registered _ _ (inv_stop_active _ _ Hinv)) as H2.
  set (s2 := stop_registered (stop_active st)) in *.
  destruct H2 as ((_ & Hheap & _ & _) & _ & _ & Hcl).
  unfold inv, wf, no_model_clean, registry_ok, model_ready.
  cbn [mixer set_currentModel set_mixer set_actions heap actions activeAction
       currentModel next_handle next_uuid ready].
  assert (Ha : activeAction s2 = None).
  { unfold s2, stop_registered, stop_active.
    by destruct (activeAction st) eqn:E. }
  rewrite Ha. split; [|split; [|split]].
  - split; [done|]. split; [exact Hheap|]. split; [apply map_Forall_empty|done].
  - apply map_Forall_empty.
  - by intros [? ?].
  - intros Hc. split; [exact (proj1 (Hcl Hc))|]. done.
Qed.

(** The state [loadModel] has rebuilt the registry and the mixer in. *)
Lemma loadModel_rebuilt_inv c g st :
  inv c st →
  wf (loadModel_rebuilt g st) ∧ registry_ok (loadModel_rebuilt g st) ∧
  ready (loadModel_rebuilt g st) = ready st ∧
  currentModel (loadModel_rebuilt g st) = currentModel st ∧
  match mixer (loadModel_rebuilt g st) with
  | Some m => mixer_rooted m = true
  | None => True
  end.
Proof.
  intros ((Hmix & Hheap & Hacts & Hact) & Hreg & Hmr & Hcl).
  unfold loadModel_rebuilt.
  destruct (gltf_animations g) as [|d ds] eqn:Eg.
  - cbn [make_clips]. unfold wf, registry_ok.
    cbn [mixer set_mixer set_actions set_next_uuid heap
         actions activeAction currentModel next_handle next_uuid ready].
    split; [|split; [apply map_Forall_empty|done]].
    split; [done|]. split; [done|]. split; [apply map_Forall_empty|done].
  - destruct (register_clips_spec (d :: ds) (next_uuid st)
                (new_mixer (next_mixer st) true) (heap st) (next_handle st) ∅)
      as (m' & hp' & reg' & Hfold & _ & Hroot & Hc' & Hh' & Hkeep & Hout & Hin).
    { apply map_Forall_empty. }
    { exact Hheap. }
    assert (Hreg' : ∀ n h, reg' !! n = Some h →
              ∃ a, hp' !! h = Some a ∧ clip_name (act_clip a) = n ∧
                   clampWhenFinished a = true ∧ loop a = LoopOnce).
    { intros n h Hn.
      destruct (decide (n ∈ cd_name <$> d :: ds)) as [Hin'|Hout'].
      - destruct (Hin n Hin') as (h' & a & d' & E & _ & Ha & _ & _ & H1 & _ & H2 & H3).
        rewrite Hn in E. injection E as <-. by exists a.
      - rewrite (Hout n Hout'), lookup_empty in Hn. done. }
    cbn [heap actions next_handle next_mixer set_mixer set_actions set_next_uuid].
    destruct (make_clips (next_uuid st) (d :: ds)) as [|c0 cs0] eqn:Ec; [done|].
    rewrite Hfold.
    unfold wf, registry_ok.
    cbn [mixer set_mixer set_actions set_next_uuid set_heap
         set_next_handle set_next_mixer heap actions activeAction currentModel
         next_handle next_uuid ready].
    assert (Hlen : length (c0 :: cs0) = length (d :: ds)).
    { rewrite <- Ec. apply make_clips_length. }
    rewrite Hlen.
    split; [|split; [exact Hreg'|done]].
    split; [split; [exact Hc'|done]|]. split; [exact Hh'|]. split.
    + intros n h Hn. destruct (Hreg' n h Hn) as (a & Ha & _). by eexists.
    + destruct (activeAction st) as [h|]; [|done].
      destruct Hact as [a Ha]. rewrite Hkeep; [by eexists|].
      exact (Hheap _ _ Ha).
Qed.

Lemma inv_loadModel_resume c r st : inv c st → inv c (loadModel_resume r st).2.
Proof.
  intros Hinv. destruct r as [g|e]; [|done].
  rewrite loadModel_resume_rebuilt. cbn zeta.
  destruct (loadModel_rebuilt_inv c g st Hinv) as (Hwf & Hreg & Hr & Hc & Hroot).
  destruct Hinv as (_ & _ & Hmr & Hcl).
  destruct (ready st) eqn:Hready; cbn [snd].
  - remember (loadModel_rebuilt g st) as rb eqn:E. clear E.
    destruct Hwf as (Hmix & Hrest).
    unfold inv, wf, no_model_clean, registry_ok, model_ready.
    cbn [mixer set_currentModel heap actions activeAction currentModel
         next_handle next_uuid ready].
    split; [|split; [exact Hreg|split; [done|]]].
    + split; [|exact Hrest]. destruct (mixer rb); [|done].
      split; [exact (proj1 Hmix)|done].
    + intros _. split; [done|]. done.
  - split; [exact Hwf|]. split; [exact Hreg|]. split.
    + unfold model_ready. rewrite Hc, Hr. intros Hs. rewrite <- Hready. by apply Hmr.
    + intros Hc'. destruct (Hcl Hc') as [Hr' _]. congruence.
Qed.

Lemma inv_setTimeScale c s st : inv c st → inv c (setTimeScale s st).
Proof.
  intros Hinv. unfold setTimeScale. destruct (mixer st) as [m|] eqn:Em; [|done].
  destruct Hinv as ((Hmix & Hrest) & Hreg & Hmr & Hcl).
  rewrite Em in Hmix.
  split; [|split; [exact Hreg|split; [exact Hmr|]]].
  - split; [|exact Hrest]. done.
  - intros Hc. destruct (Hcl Hc) as [Hr Hclean]. split; [exact Hr|].
    intros Hno. destruct (Hclean Hno) as (H1 & H2 & H3). rewrite Em in H3.
    by repeat split.
Qed.

(** A frame keeps the invariant. *)
Lemma inv_frame c hp' m' st :
  inv c st → ready st = true → frame_heap (heap st) hp' →
  frame_model (currentModel st) m' →
  inv c (set_currentModel m' (set_heap hp' st)).
Proof.
  intros ((Hmix & Hheap & Hacts & Hact) & Hreg & Hmr & Hcl) Hready Hfh Hfm.
  assert (Hdom : ∀ h, is_Some (hp' !! h) ↔ is_Some (heap st !! h)).
  { intros h. specialize (Hfh h).
    destruct (heap st !! h), (hp' !! h); try done; split; by eexists. }
  assert (Hmod : is_Some m' ↔ is_Some (currentModel st)).
  { unfold frame_model in Hfm.
    destruct (currentModel st), m'; try done; split; by eexists. }
  unfold inv, wf, no_model_clean, registry_ok, model_ready.
  cbn [mixer set_currentModel set_heap heap actions activeAction currentModel
       next_handle next_uuid ready].
  split; [|split; [|split]].
  - split; [|split; [|split]].
    + destruct (mixer st); [|done]. destruct Hmix as [H1 H2].
      split; [done|]. intros Hs. by apply H2, Hmod.
    + intros h a Ha. assert (Hs : is_Some (heap st !! h)) by (apply Hdom; by eexists).
      destruct Hs as [a0 Ha0]. exact (Hheap _ _ Ha0).
    + intros n h Hn. apply Hdom. exact (Hacts _ _ Hn).
    + destruct (activeAction st); [|done]. by apply Hdom.
  - intros n h Hn. destruct (Hreg n h Hn) as (a & Ha & H1 & H2 & H3).
    specialize (Hfh h). rewrite Ha in Hfh.
    destruct (hp' !! h) as [a'|]; [|done].
    destruct Hfh as (E1 & _ & E2 & E3). exists a'. by rewrite E1, E2, E3.
  - done.
  - intros Hc. destruct (Hcl Hc) as [_ Hclean]. split; [done|].
    intros Hno. apply Hclean. destruct (currentModel st) eqn:Ec; [|done].
    exfalso. destruct (proj2 Hmod) as [? ?]; [by eexists|]. congruence.
Qed.

(** [applyTestAnimation] keeps the invariant, whether it throws or not. *)
Lemma inv_applyTestAnimation c st :
  inv c st → match applyTestAnimation st with inl s | inr s => inv c s end.
Proof.
  intros Hinv. unfold applyTestAnimation.
  destruct (currentModel st) as [model|] eqn:Ec; [|done].
  destruct (mixer st) as [mx|] eqn:Em; [|done].
  set (clip := mkClip (next_uuid st) "TestMove" 2).
  set (st0 := set_next_uuid (S (next_uuid st)) st).
  assert (H0 : inv c st0) by (apply inv_set_next_uuid; [done|]; lia).
  destruct (mixer_rooted mx) eqn:Hroot; cbn [negb]; [|exact H0].
  assert (Hmiss : actionsByClip mx !! clip_uuid clip = None).
  { apply (fresh_in_bumped c st 1 Hinv). exact Em. }
  rewrite clipAction_new by done.
  set (s := on_action action_play _ _).
  apply (inv_new_action c st0 mx clip
           (λ a, action_play (set_loop LoopRepeat a)) s H0).
  - by eexists.
  - exact Em.
  - exact Hroot.
  - exact Hmiss.
  - cbn. lia.
  - reflexivity.
  - assert (E : heap s
                = alter action_play (next_handle st0)
                    (alter (set_loop LoopRepeat) (next_handle st0)
                       (<[next_handle st0 := new_action (mixer_id mx) clip]>
                          (heap st0)))) by reflexivity.
    rewrite E. by rewrite !alter_insert_eq.
  - reflexivity.
  - reflexivity.
  - by left.
  - reflexivity.
  - reflexivity.
  - reflexivity.
Qed.

Lemma inv_new : inv false new_ThreeRenderer.
Proof.
  split; [|split; [apply map_Forall_empty|split; [by intros [? ?]|done]]].
  split; [done|]. split; [apply map_Forall_empty|].
  split; [apply map_Forall_empty|done].
Qed.

Lemma inv_initialized w h : inv true (initialize w h new_ThreeRenderer).
Proof.
  split; [|split; [apply map_Forall_empty|split; [done|]]].
  - split; [done|]. split; [apply map_Forall_empty|].
    split; [apply map_Forall_empty|done].
  - intros _. split; [done|]. done.
Qed.

Lemma inv_step c st st' : step st st' → inv c st → inv c st'.
Proof.
  intros Hstep Hinv. destruct Hstep.
  - by apply inv_initialize.
  - unfold setBackground. destruct (ready st) eqn:Hr; [|done].
    eapply inv_same_fields; [..|exact Hinv]; done.
  - unfold resize. destruct (negb (ready st)); [done|].
    eapply inv_same_fields; [..|exact Hinv]; done.
  - by apply inv_play.
  - by apply inv_stop_active.
  - by apply inv_setTimeScale.
  - by apply inv_centerModel.
  - by apply inv_dispose.
  - eapply inv_same_fields; [..|exact Hinv]; done.
  - pose proof (inv_applyTestAnimation c st Hinv) as Ht.
    destruct H as [H|H]; by rewrite H in Ht.
  - unfold loadModel_begin.
    eapply inv_same_fields; [..|exact (inv_dispose _ _ Hinv)]; done.
  - by apply inv_loadModel_resume.
  - unfold playAnimationForExistingModel_begin in H.
    destruct (currentModel st); [|done]. injection H as _ <-.
    eapply inv_same_fields; [..|exact Hinv]; done.
  - by apply inv_playAnimation_resume.
  - unfold loadActionAndPlay_begin in H.
    destruct (currentModel st); [|done]. injection H as <-.
    eapply inv_same_fields; [..|exact Hinv]; done.
  - by apply inv_loadActionAndPlay_resume.
  - by apply inv_frame.
Qed.

Lemma rtc_step_inv c s s' : rtc step s s' → inv c s → inv c s'.
Proof.
  intros Hs. induction Hs as [|s1 s2 s3 Hstep _ IH]; [done|].
  intros H1. apply IH. by eapply inv_step.
Qed.

Lemma reachable_inv st : reachable st → inv false st.
Proof. intros Hr. exact (rtc_step_inv _ _ _ Hr inv_new). Qed.

Lemma reachable_initialized_inv st : reachable_initialized st → inv true st.
Proof. intros (w & h & Hr). exact (rtc_step_inv _ _ _ Hr (inv_initialized w h)). Qed.

Lemma reachable_initialized_reachable st : reachable_initialized st → reachable st.
Proof.
  intros (w & h & Hr). eapply rtc_l; [apply (step_initialize w h)|exact Hr].
Qed.

(** X13.  When [initialize] is the first call on the service, as it is
    on the screen, then in every state reached afterwards, through any
    interleaving of the methods, of the halves of the [async] methods and
    of the frames, nothing of an animation outlives the model: when there
    is no current model the registry is empty and no action is active. *)
Theorem initialized_without_model_no_animation st :
  reachable_initialized st → currentModel st = None →
  actions st = ∅ ∧ getClipNames st = [] ∧ activeAction st = None.
Proof.
  intros Hr Hno. destruct (reachable_initialized_inv st Hr) as (_ & _ & _ & Hcl).
  destruct (Hcl eq_refl) as [_ Hclean].
  destruct (Hclean Hno) as (H1 & H2 & _).
  split; [done|]. split; [|done]. unfold getClipNames. by rewrite H1.
Qed.

(** X14.  In every state the service reaches, each registry entry is
    filed under the name of the clip of its action, and that action is set
    to clamp when finished and to play once: [play(name)] always starts a
    clip of that name, which does not loop. *)
Theorem reachable_registry_named_and_once st n h :
  reachable st → actions st !! n = Some h →
  ∃ a, heap st !! h = Some a ∧ clip_name (act_clip a) = n ∧
       clampWhenFinished a = true ∧ loop a = LoopOnce ∧
       ∀ f, ∃ a', heap (play n f st) !! h = Some a' ∧ isRunning a' = true ∧
                  clip_name (act_clip a') = n ∧ loop a' = LoopOnce ∧
                  clampWhenFinished a' = true ∧
                  activeAction (play n f st) = Some h.
Proof.
  intros Hr Hn. destruct (reachable_inv st Hr) as (_ & Hreg & _).
  destruct (Hreg n h Hn) as (a & Ha & H1 & H2 & H3).
  exists a. split; [done|]. split; [done|]. split; [done|]. split; [done|].
  intros f. destruct (play_registered n f st h a Hn Ha) as (P1 & _ & _ & P3 & _).
  exists (replayed_action f a). by repeat split.
Qed.

(** * Further properties: the screen *)

Lemma one_in_flight_step s s' : screen_step s s' → one_in_flight s → one_in_flight s'.
Proof.
  intros Hstep (Hidle & Hone & Hpos). unfold one_in_flight.
  destruct Hstep; cbn [scr_page scr_pending] in *.
  - unfold playSign_begin.
    destruct (negb (characterLoaded pg) || isPlaying pg) eqn:Hg.
    { cbn [fst snd after_select]. by split. }
    apply orb_false_elim in Hg as [_ Hp]. destruct (Hidle Hp) as [Ht ->].
    destruct (playAnimationForExistingModel_begin _ _) as [e|[saved st1]];
      cbn [fst snd after_select playSign_failed isPlaying timers];
      rewrite Ht; cbn [app length].
    + split; [done|]. split; [lia|by constructor].
    + split; [done|]. split; [lia|by constructor].
  - rewrite length_app in Hone. cbn [length] in Hone.
    assert (Ht : timers pg = [])
      by (destruct (timers pg); [done|cbn [length] in Hone; lia]).
    assert (pend1 = [] ∧ pend2 = []) as [-> ->].
    { destruct pend1, pend2; try done; cbn [length] in Hone; lia. }
    unfold playSign_resume.
    destruct (playAnimationForExistingModel_resume _ _ _ _) as [[[]|e] st1];
      cbn [fst snd playSign_failed isPlaying timers]; rewrite Ht;
      cbn [app length].
    + split; [|split; [lia|]].
      * intros Hp. by destruct (Hidle Hp) as [_ Hpend].
      * apply Forall_cons. split; [lia|by constructor].
    + split; [done|]. split; [lia|by constructor].
  - unfold elapse. cbn [isPlaying timers].
    destruct (timers pg) as [|t ts] eqn:Et.
    { rewrite bool_decide_eq_false_2 by (by intros ?%Exists_nil).
      rewrite filter_nil. split; [done|]. split; [done|by constructor]. }
    assert (ts = [] ∧ pend = []) as [-> ->].
    { cbn [length] in Hone. destruct ts, pend; try done; cbn [length] in Hone; lia. }
    apply Forall_cons in Hpos as [Ht _].
    destruct (decide (t ≤ ms)%nat) as [Hdue|Hnot].
    + rewrite bool_decide_eq_true_2 by (by left).
      rewrite filter_cons_False, filter_nil by lia.
      split; [done|]. split; [cbn; lia|by constructor].
    + rewrite bool_decide_eq_false_2.
      2:{ intros Hex. apply Exists_cons in Hex as [?|Hex]; [lia|].
          by apply Exists_nil in Hex. }
      rewrite filter_cons_True, filter_nil by lia. cbn [fmap list_fmap length].
      split; [|split; [cbn; lia|]].
      * intros Hp. by destruct (Hidle Hp) as [? _].
      * apply Forall_cons. split; [lia|by constructor].
  - unfold ngAfterViewInit_resume.
    by destruct (loadModel_resume r st) as [[m|e] st1];
      cbn [fst isPlaying timers].
Qed.

Lemma screen_reachable_one_in_flight s : screen_reachable s → one_in_flight s.
Proof.
  unfold screen_reachable. intros Hr.
  assert (H : ∀ a b, rtc screen_step a b → one_in_flight a → one_in_flight b).
  { clear. intros a b Hs. induction Hs as [|s1 s2 s3 Hstep _ IH]; [done|].
    intros H1. apply IH. by eapply one_in_flight_step. }
  apply (H _ _ Hr). split; [done|]. split; [cbn; lia|by constructor].
Qed.

(** X16.  However selections, loads and timers interleave on the screen,
    at most one selection is in flight at any time, as a suspended
    [playSign] or as its timer, and none is while [isPlaying] is false:
    a timer never outlives the selection that set it, so it cannot clear
    the flag of a later selection; and no timer runs longer than
    4000 ms. *)
Theorem screen_one_selection_in_flight s :
  screen_reachable s →
  (length (scr_pending s) + length (timers (scr_page s)) ≤ 1)%nat ∧
  (isPlaying (scr_page s) = false →
     timers (scr_page s) = [] ∧ scr_pending s = []) ∧
  (∀ t, t ∈ timers (scr_page s) → (0 < t ≤ 4000)%nat) ∧
  (∀ sign st, scr_pending s ≠ [] ∨ timers (scr_page s) ≠ [] →
     playSign_begin sign (scr_page s) st = (Ignored, scr_page s, st)).
Proof.
  intros Hr. destruct (screen_reachable_one_in_flight s Hr) as (Hidle & Hone & Hpos).
  split; [done|]. split; [done|]. split.
  { intros t Ht. rewrite Forall_forall in Hpos. by apply Hpos. }
  intros sign st Hbusy. apply playSign_ignored.
  destruct (isPlaying (scr_page s)) eqn:Hp; [done|].
  destruct (Hidle eq_refl) as [H1 H2]. by destruct Hbusy.
Qed.

Lemma screen_playing_reachable :
  screen_reachable (mkScreen page_playing [(ball_sign, sample_saved)]).
Proof.
  unfold screen_reachable.
  eapply rtc_l.
  { apply (scr_viewInit (LoadOk sample_character)
             (ngAfterViewInit_begin 400 300 new_ThreeRenderer)). }
  eapply rtc_l; [apply (scr_select ball_sign state_loaded)|].
  assert (E : mkScreen
                (playSign_begin ball_sign
                   (ngAfterViewInit_resume (LoadOk sample_character) new_HomePage
                      (ngAfterViewInit_begin 400 300 new_ThreeRenderer)).1
                   state_loaded).1.2
                (after_select
                   (playSign_begin ball_sign
                      (ngAfterViewInit_resume (LoadOk sample_character) new_HomePage
                         (ngAfterViewInit_begin 400 300 new_ThreeRenderer)).1
                      state_loaded).1.1 ball_sign [])
              = mkScreen page_playing [(ball_sign, sample_saved)])
    by (vm_compute; reflexivity).
  rewrite E. apply rtc_refl.
Qed.

Lemma screen_one_selection_in_flight_witness :
  screen_reachable (mkScreen page_playing [(ball_sign, sample_saved)]) ∧
  (length [(ball_sign, sample_saved)] + length (timers page_playing) ≤ 1)%nat.
Proof.
  exact (conj screen_playing_reachable
    (proj1 (screen_one_selection_in_flight
              (mkScreen page_playing [(ball_sign, sample_saved)])
              screen_playing_reachable))).
Defined.

(** * Further properties: the flow of the screen *)

Lemma loadModel_measures_one_and_a_half g :
  0 < maxDim (asset_box (gltf_scene g)) →
  ∃ position k,
    loadModel_place (gltf_scene g) = Finite position (v3_setScalar k) ∧
    maxDim (measured_box (v3_setScalar k)
              (mkObject3D (loadModel_place (gltf_scene g)) true (gltf_scene g)))
    == 3 # 2.
Proof.
  intros Hpos.
  destruct (loadModel_place_box _ Hpos) as (position & k & Hp & Hk & Hk' & _ & _).
  exists position, k. split; [done|].
  assert (Hne : ¬ maxDim (asset_box (gltf_scene g)) == 0).
  { intros E0. rewrite E0 in Hpos. by apply Qlt_irrefl in Hpos. }
  unfold measured_box. cbn [geometry].
  rewrite setFromObject_asset by by apply Qlt_le_weak.
  rewrite maxDim_affine by by apply Qlt_le_weak.
  rewrite Hk'. by field.
Qed.

Lemma getClipNames_after_loadModel url g st :
  wf st →
  getClipNames (loadModel url (LoadOk g) st).2
  ≡ₚ remove_dups (cd_name <$> gltf_animations g).
Proof.
  intros Hwf. apply NoDup_Permutation.
  - apply NoDup_fst_map_to_list.
  - apply NoDup_remove_dups.
  - intros n. rewrite elem_of_remove_dups, elem_of_getClipNames.
    destruct (loadModel_registry url g st Hwf n) as [Hout Hin].
    destruct (decide (n ∈ cd_name <$> gltf_animations g)) as [Hn|Hn].
    + destruct (Hin Hn) as (h & _ & _ & -> & _). split; [done|]. by eexists.
    + rewrite (Hout Hn). split; [by intros [? ?]|done].
Qed.

Lemma wf_initialized w h c st : wf st → wf (setBackground c (initialize w h st)).
Proof. done. Qed.

(** X17.  When the load of the character resolves on an asset whose box
    has a positive largest dimension, [ngAfterViewInit] ends with the
    character marked loaded, [loading] false, the error untouched, and
    [listName] holding each embedded clip name once; the model stands
    centred: its box has largest dimension 1.5, is centred on the vertical
    axis and rests on the plane y = 0. *)
Theorem ngAfterViewInit_loaded_and_standing width height g pg st :
  wf st → 0 < maxDim (asset_box (gltf_scene g)) →
  characterLoaded (ngAfterViewInit width height (LoadOk g) pg st).1 = true ∧
  loading (ngAfterViewInit width height (LoadOk g) pg st).1 = false ∧
  error (ngAfterViewInit width height (LoadOk g) pg st).1 = error pg ∧
  isPlaying (ngAfterViewInit width height (LoadOk g) pg st).1 = isPlaying pg ∧
  listName (ngAfterViewInit width height (LoadOk g) pg st).1
    ≡ₚ remove_dups (cd_name <$> gltf_animations g) ∧
  ∃ m p k lo hi,
    currentModel (ngAfterViewInit width height (LoadOk g) pg st).2 = Some m ∧
    transform m = Finite p (v3_setScalar k) ∧ geometry m = gltf_scene g ∧
    visible m = true ∧
    setFromObject p (v3_setScalar k) (gltf_scene g) = Some (lo, hi) ∧
    maxDim (Some (lo, hi)) == 3 # 2 ∧
    vx lo + vx hi == 0 ∧ vz lo + vz hi == 0 ∧ vy lo == 0.
Proof.
  intros Hwf Hpos.
  unfold ngAfterViewInit, ngAfterViewInit_resume, ngAfterViewInit_begin.
  set (st0 := setBackground _ _).
  assert (Hwf0 : wf st0) by by apply wf_initialized.
  change (loadModel_resume (LoadOk g) (loadModel_begin ?u st0))
    with (loadModel u (LoadOk g) st0).
  pose proof (getClipNames_after_loadModel
                "assets/aslkidanimation/models/lisa.glb" g st0 Hwf0) as Hperm.
  destruct (loadModel_current_model
              "assets/aslkidanimation/models/lisa.glb" g st0 eq_refl)
    as (st' & E & Hm).
  rewrite E in Hperm |- *.
  cbn [fst snd characterLoaded loading error isPlaying listName] in Hperm |- *.
  split; [done|]. split; [done|]. split; [done|]. split; [done|].
  assert (Hnames : getClipNames (centerModel st') = getClipNames st').
  { unfold centerModel. by rewrite Hm. }
  split; [by rewrite Hnames|].
  destruct (loadModel_measures_one_and_a_half g Hpos) as (position & k & Hp & Hd).
  set (model := mkObject3D (loadModel_place (gltf_scene g)) true (gltf_scene g)) in *.
  destruct (centerModel_object_placed model position (v3_setScalar k))
    as (p' & lo & hi & Ec & Hb & Hsize & Hx & Hz & Hy).
  { exact Hp. }
  { rewrite Hd. by vm_compute. }
  { rewrite Hd. by vm_compute. }
  exists (centerModel_object model), p', k, lo, hi.
  split; [unfold centerModel; by rewrite Hm|].
  rewrite Ec. split; [done|]. split; [done|]. split; [done|].
  split; [exact Hb|]. split; [|done].
  rewrite <- Hd. unfold maxDim at 1. cbn [getSize].
  destruct Hsize as (H1 & H2 & H3). unfold maxDim. by rewrite H1, H2, H3.
Qed.

Lemma sample_character_positive :
  0 < maxDim (asset_box (gltf_scene sample_character)).
Proof. by vm_compute. Qed.

Lemma new_ThreeRenderer_wf : wf new_ThreeRenderer.
Proof. apply (bool_decide_unpack _). vm_compute. reflexivity. Qed.

Lemma ngAfterViewInit_loaded_witness :
  wf new_ThreeRenderer ∧
  0 < maxDim (asset_box (gltf_scene sample_character)) ∧
  characterLoaded
    (ngAfterViewInit 400 300 (LoadOk sample_character)
       new_HomePage new_ThreeRenderer).1 = true.
Proof.
  exact (conj new_ThreeRenderer_wf (conj sample_character_positive
    (proj1 (ngAfterViewInit_loaded_and_standing 400 300 sample_character
              new_HomePage new_ThreeRenderer
              new_ThreeRenderer_wf sample_character_positive)))).
Defined.

(** ** Reachable states of the service, continued *)

Lemma state_loaded_reachable : reachable state_loaded.
Proof.
  unfold reachable, state_loaded, loadModel.
  eapply rtc_l; [apply (step_initialize 400 300)|].
  eapply rtc_l; [apply (step_loadModel_begin "assets/aslkidanimation/models/lisa.glb")|].
  eapply rtc_l; [apply (step_loadModel_resume (LoadOk sample_character))|].
  apply rtc_refl.
Qed.

Lemma state_destroyed_reachable : reachable_initialized state_destroyed.
Proof.
  exists 400, 300. unfold state_destroyed, state_loaded, loadModel.
  eapply rtc_l; [apply (step_loadModel_begin "assets/aslkidanimation/models/lisa.glb")|].
  eapply rtc_l; [apply (step_loadModel_resume (LoadOk sample_character))|].
  eapply rtc_l; [apply step_ngOnDestroy|].
  apply rtc_refl.
Qed.

Lemma initialized_without_model_witness :
  reachable_initialized state_destroyed ∧ currentModel state_destroyed = None ∧
  actions state_destroyed = ∅ ∧ getClipNames state_destroyed = [] ∧
  activeAction state_destroyed = None.
Proof.
  exact (conj state_destroyed_reachable (conj eq_refl
    (initialized_without_model_no_animation state_destroyed
       state_destroyed_reachable eq_refl))).
Defined.

Lemma idle_loaded : actions state_loaded !! "Idle" = Some 0%nat.
Proof. vm_compute. reflexivity. Qed.

Lemma reachable_registry_witness :
  reachable state_loaded ∧ actions state_loaded !! "Idle" = Some 0%nat ∧
  ∃ a, heap state_loaded !! 0%nat = Some a ∧ clip_name (act_clip a) = "Idle" ∧
       clampWhenFinished a = true ∧ loop a = LoopOnce.
Proof.
  destruct (reachable_registry_named_and_once state_loaded "Idle" 0%nat
              state_loaded_reachable idle_loaded) as (a & H1 & H2 & H3 & H4 & _).
  exact (conj state_loaded_reachable (conj idle_loaded
    (ex_intro _ a (conj H1 (conj H2 (conj H3 H4)))))).
Defined.

(** X15.  Every state the service reaches, through any interleaving of
    its methods, of the halves of its [async] methods and of the frames,
    is well formed: each handle in the registry and the active handle
    denote an action that exists, handles and clip ids in use are older
    than the next ones to be handed out, and the mixer has a root whenever
    there is a current model.  And a current model is there only on a
    service that has been initialized, so that the scene [loadModel] and
    [disposeCurrentModel] add it to and remove it from exists. *)
Theorem reachable_states_are_well_formed st :
  reachable st → wf st ∧ (is_Some (currentModel st) → ready st = true).
Proof.
  intros Hr. destruct (reachable_inv st Hr) as (Hwf & _ & Hmr & _). by split.
Qed.

Lemma reachable_states_are_well_formed_witness :
  reachable state_loaded ∧ wf state_loaded ∧
  (is_Some (currentModel state_loaded) → ready state_loaded = true).
Proof.
  exact (conj state_loaded_reachable
    (reachable_states_are_well_formed state_loaded state_loaded_reachable)).
Defined.

(** * Further properties: the registry only grows *)

Lemma start_core_actions clip st :
  match start_core clip st with
  | inl s => actions s = actions st
  | inr (_, _, s) => actions s = actions st ∧ currentModel s = currentModel st
  end.
Proof.
  unfold start_core.
  set (pr := match mixer st with Some m0 => _ | None => _ end).
  assert (Hpr : actions pr.2 = actions st ∧ currentModel pr.2 = currentModel st)
    by (unfold pr; by destruct (mixer st)).
  destruct pr as [mx st1]. cbn [snd] in Hpr. destruct Hpr as [Ha1 Hc1].
  destruct (stopped_fields st1) as (_ & Hr & _ & Hc & _).
  destruct (negb (mixer_rooted mx)); [by rewrite Hr|].
  destruct (clipAction _ _ _ _) as [[[h m1] hp1] nh1].
  split.
  - change (actions (stop_active (stop_registered st1)) = actions st).
    by rewrite Hr.
  - change (currentModel (stop_active (stop_registered st1)) = currentModel st).
    by rewrite Hc.
Qed.

Lemma register_and_listen_actions clip h m1 st :
  actions (register_and_listen clip h m1 st)
  = match actions st !! clip_name clip with
    | Some _ => actions st
    | None => <[clip_name clip := h]> (actions st)
    end.
Proof.
  unfold register_and_listen. by destruct (actions st !! clip_name clip).
Qed.

(** X18.  [playAnimationForExistingModel] never removes or rebinds a
    registry entry: however it settles, and whatever state it is resumed
    in, every name registered before is registered after, with the same
    handle; when it rejects the registry is exactly as before, and when it
    resolves at most the name of the loaded clip has been added. *)
Theorem playAnimation_keeps_registry_entries fadeSeconds saved r st :
  (∀ n h, actions st !! n = Some h →
     actions (playAnimationForExistingModel_resume fadeSeconds saved r st).2 !! n
     = Some h) ∧
  match (playAnimationForExistingModel_resume fadeSeconds saved r st).1 with
  | Rejected _ =>
      actions (playAnimationForExistingModel_resume fadeSeconds saved r st).2
      = actions st
  | Resolved _ =>
      ∃ g c cs, r = LoadOk g ∧ gltf_animations g = c :: cs ∧
        ∀ n, n ≠ cd_name c →
          actions (playAnimationForExistingModel_resume fadeSeconds saved r st).2 !! n
          = actions st !! n
  end.
Proof.
  assert (Hrec : ∀ s, actions (recover s) = actions s)
    by (intros s; by destruct (recover_fields s) as (? & _)).
  unfold playAnimationForExistingModel_resume.
  destruct r as [g|e]; [|cbn [fst snd]; rewrite Hrec; by split].
  destruct (gltf_animations g) as [|c cs] eqn:Eg; cbn [make_clips].
  { cbn [fst snd]. rewrite Hrec. by split. }
  set (clip := mkClip (next_uuid st) (cd_name c) (cd_duration c)).
  set (st0 := set_next_uuid _ st).
  rewrite start_action_core.
  pose proof (start_core_actions clip st0) as Hcore.
  destruct (start_core clip st0) as [s|[[h m1] s]].
  { cbn [fst snd]. rewrite Hrec, Hcore. by split. }
  destruct Hcore as [Ha Hc].
  destruct (currentModel s) as [model|] eqn:Em.
  - cbn [fst snd]. rewrite register_and_listen_actions.
    cbn [actions set_currentModel]. rewrite Ha.
    change (actions st0) with (actions st). change (clip_name clip) with (cd_name c).
    split.
    + intros n k Hn. destruct (actions st !! cd_name c) eqn:E; [done|].
      rewrite lookup_insert_ne; [done|]. intros <-. congruence.
    + exists g, c, cs. split; [done|]. split; [done|].
      intros n Hne. destruct (actions st !! cd_name c); [done|].
      by rewrite lookup_insert_ne.
  - cbn [fst snd]. rewrite Hrec, Ha. by split.
Qed.

(** ** loadModel and centerModel in a row *)

(** X20.  On a service that has been initialized [loadModel] resolves
    on every loaded asset and makes its scene the current model, visible.
    When the box of the asset has a positive largest dimension the model
    gets the scale [k = 1.5 / maxDim] on every axis, its box then has
    largest dimension 1.5, and the centre of that box is the centre of the
    asset's box times [k - 1]: the origin when the asset was centred
    already.  When the box has no extent the scale stays one and nothing
    is divided. *)
Theorem loadModel_places_the_model url g st :
  ready st = true →
  ∃ m,
    (loadModel url (LoadOk g) st).1 = Resolved m ∧
    currentModel (loadModel url (LoadOk g) st).2 = Some m ∧
    geometry m = gltf_scene g ∧ visible m = true ∧
    (0 < maxDim (asset_box (gltf_scene g)) →
       ∃ position k,
         transform m = Finite position (v3_setScalar k) ∧
         k == (3 # 2) / maxDim (asset_box (gltf_scene g)) ∧
         maxDim (setFromObject position (v3_setScalar k) (geometry m)) == 3 # 2 ∧
         v3_eq (getCenter (setFromObject position (v3_setScalar k) (geometry m)))
               (v3_multiplyScalar (getCenter (asset_box (gltf_scene g))) (k - 1)) ∧
         (v3_eq (getCenter (asset_box (gltf_scene g))) v3_zero →
          v3_eq (getCenter (setFromObject position (v3_setScalar k) (geometry m)))
                v3_zero)) ∧
    (maxDim (asset_box (gltf_scene g)) <= 0 →
       transform m
       = Finite (v3_sub v3_zero (getCenter (asset_box (gltf_scene g)))) v3_one).
Proof.
  intros Hready.
  destruct (loadModel_current_model url g st Hready) as (st' & E & Hm).
  eexists. rewrite E. cbn [fst snd]. split; [reflexivity|]. split; [exact Hm|].
  cbn [geometry visible transform]. split; [done|]. split; [done|]. split.
  - intros Hpos.
    destruct (loadModel_place_box _ Hpos) as (position & k & Hp & _ & Hk & Hd & Hc).
    exists position, k. split; [done|]. split; [done|]. split; [done|].
    split; [done|]. intros (H1 & H2 & H3).
    destruct Hc as (C1 & C2 & C3). cbn [v3_multiplyScalar vx vy vz] in C1, C2, C3.
    cbn [v3_zero vx vy vz] in H1, H2, H3.
    repeat split; cbn [v3_zero vx vy vz].
    + rewrite C1, H1. ring.
    + rewrite C2, H2. ring.
    + rewrite C3, H3. ring.
  - apply loadModel_place_flat.
Qed.

Lemma loadModel_places_the_model_witness :
  ready state_ready = true ∧
  ∃ m,
    (loadModel "assets/aslkidanimation/models/lisa.glb"
               (LoadOk sample_character) state_ready).1 = Resolved m ∧
    currentModel
      (loadModel "assets/aslkidanimation/models/lisa.glb"
                 (LoadOk sample_character) state_ready).2 = Some m.
Proof.
  destruct (loadModel_places_the_model "assets/aslkidanimation/models/lisa.glb"
              sample_character state_ready eq_refl) as (m & H1 & H2 & _).
  exact (conj eq_refl (ex_intro _ m (conj H1 H2))).
Defined.

Lemma loadModel_rebuilt_fields g st :
  currentModel (loadModel_rebuilt g st) = currentModel st ∧
  ready (loadModel_rebuilt g st) = ready st ∧
  (gltf_animations g ≠ [] → is_Some (mixer (loadModel_rebuilt g st))).
Proof.
  unfold loadModel_rebuilt.
  destruct (gltf_animations g) as [|d ds]; cbn [make_clips]; [done|].
  destruct (fold_left _ _ _) as [[[m' hp] nh] reg].
  split; [done|]. split; [done|]. intros _. by eexists.
Qed.

(** X22.  On a service that was never initialized [loadModel] rejects
    even when the asset loads: adding the model to the scene throws.  The
    service is left without a current model, but with the registry already
    rebuilt: [getClipNames()] lists the names of the clips of the asset
    that did not become the model, and the mixer made for it stays. *)
Theorem loadModel_uninitialized_rejects url g st :
  wf st → ready st = false →
  (loadModel url (LoadOk g) st).1
    = Rejected (JsError "Cannot read properties of undefined") ∧
  currentModel (loadModel url (LoadOk g) st).2 = None ∧
  ready (loadModel url (LoadOk g) st).2 = false ∧
  getClipNames (loadModel url (LoadOk g) st).2
    ≡ₚ remove_dups (cd_name <$> gltf_animations g) ∧
  (gltf_animations g ≠ [] →
     getClipNames (loadModel url (LoadOk g) st).2 ≠ [] ∧
     is_Some (mixer (loadModel url (LoadOk g) st).2)).
Proof.
  intros Hwf Hready.
  pose proof (getClipNames_after_loadModel url g st Hwf) as Hperm.
  assert (E : loadModel url (LoadOk g) st
              = (Rejected (JsError "Cannot read properties of undefined"),
                 loadModel_rebuilt g (loadModel_begin url st))).
  { unfold loadModel. rewrite loadModel_resume_rebuilt. cbn zeta.
    by rewrite loadModel_begin_ready, Hready. }
  rewrite E in Hperm |- *. cbn [fst snd] in Hperm |- *.
  destruct (loadModel_rebuilt_fields g (loadModel_begin url st)) as (Hc & Hr & Hm).
  split; [done|]. split.
  { rewrite Hc. apply disposeCurrentModel_no_model. }
  split; [by rewrite Hr, loadModel_begin_ready|].
  split; [exact Hperm|].
  intros Hne. split; [|by apply Hm].
  intros Hnil. rewrite Hnil in Hperm. symmetry in Hperm.
  apply Permutation_nil_r in Hperm.
  destruct (gltf_animations g) as [|d ds]; [done|].
  assert (Hin : cd_name d ∈ remove_dups (cd_name <$> d :: ds)).
  { apply elem_of_remove_dups. rewrite fmap_cons. by left. }
  rewrite Hperm in Hin. by apply elem_of_nil in Hin.
Qed.

Lemma loadModel_uninitialized_witness :
  wf new_ThreeRenderer ∧ ready new_ThreeRenderer = false ∧
  currentModel
    (loadModel "assets/aslkidanimation/models/lisa.glb"
               (LoadOk sample_character) new_ThreeRenderer).2 = None ∧
  getClipNames
    (loadModel "assets/aslkidanimation/models/lisa.glb"
               (LoadOk sample_character) new_ThreeRenderer).2
    ≡ₚ remove_dups (cd_name <$> gltf_animations sample_character).
Proof.
  destruct (loadModel_uninitialized_rejects
              "assets/aslkidanimation/models/lisa.glb" sample_character
              new_ThreeRenderer new_ThreeRenderer_wf eq_refl)
    as (_ & H1 & _ & H2 & _).
  exact (conj new_ThreeRenderer_wf (conj eq_refl (conj H1 H2))).
Defined.

(** X21.  Right after [loadModel] of an asset whose box has a positive
    largest dimension, on a service that has been initialized,
    [centerModel] finds a box of 1.5 and does not rescale: however often
    it is called in a row, the state is the one that a single call
    leaves. *)
Theorem centerModel_repeated_after_loadModel url g st n :
  ready st = true →
  0 < maxDim (asset_box (gltf_scene g)) →
  Nat.iter (S n) centerModel (loadModel url (LoadOk g) st).2
  = centerModel (loadModel url (LoadOk g) st).2.
Proof.
  intros Hready Hpos. induction n as [|n IH]; [done|].
  change (Nat.iter (S (S n)) centerModel ?s)
    with (centerModel (Nat.iter (S n) centerModel s)).
  rewrite IH. by apply centerModel_idempotent_after_loadModel.
Qed.

Lemma centerModel_repeated_witness :
  ready state_ready = true ∧
  0 < maxDim (asset_box (gltf_scene sample_character)) ∧
  Nat.iter 3 centerModel
    (loadModel "assets/aslkidanimation/models/lisa.glb"
               (LoadOk sample_character) state_ready).2
  = centerModel
      (loadModel "assets/aslkidanimation/models/lisa.glb"
                 (LoadOk sample_character) state_ready).2.
Proof.
  exact (conj eq_refl (conj sample_character_positive
    (centerModel_repeated_after_loadModel
       "assets/aslkidanimation/models/lisa.glb" sample_character
       state_ready 2 eq_refl sample_character_positive))).
Defined.

(** * Further properties: getModelInfo *)

Lemma push_first_bones_take bones : ∀ i acc,
  push_first_bones i bones acc = acc ++ take (10 - i) bones.
Proof.
  induction bones as [|b bones IH]; intros i acc; cbn [push_first_bones].
  - by rewrite take_nil, app_nil_r.
  - rewrite IH. destruct (Nat.ltb_spec i 10) as [Hlt|Hge].
    + replace (10 - i)%nat with (S (10 - S i)) by lia.
      cbn [take]. by rewrite <- app_assoc.
    + replace (10 - i)%nat with 0%nat by lia.
      replace (10 - S i)%nat with 0%nat by lia. done.
Qed.

Lemma fold_visit nodes : ∀ info,
  fold_left visit_node nodes info
  = mkInfo (info_animations info)
           (info_bones info ++ concat ((λ m, take 10 m.2) <$> skinned nodes))
           (info_meshes info ++ ((λ m, (m.1, length m.2)) <$> skinned nodes)).
Proof.
  induction nodes as [|[|name bones] nodes IH]; intros info; cbn [fold_left skinned].
  - destruct info. cbn. by rewrite !app_nil_r.
  - apply IH.
  - rewrite IH. cbn [visit_node info_animations info_bones info_meshes].
    rewrite push_first_bones_take. cbn [fmap list_fmap concat fst snd].
    by rewrite <- !app_assoc.
Qed.

(** X19.  [getModelInfo] answers [null] exactly when there is no current
    model.  Otherwise it lists every skinned mesh in the order of the
    traversal with the full count of its bones, and of each mesh the names
    of its first ten bones at most, in order; so it never returns more
    than ten bone names for each mesh; and [animations] is always
    empty. *)
Theorem getModelInfo_first_ten_bones nodes st :
  match getModelInfo nodes st with
  | None => currentModel st = None
  | Some info =>
      is_Some (currentModel st) ∧
      info_animations info = [] ∧
      info_meshes info = (λ m, (m.1, length m.2)) <$> skinned nodes ∧
      info_bones info = concat ((λ m, take 10 m.2) <$> skinned nodes) ∧
      (length (info_bones info) ≤ 10 * length (info_meshes info))%nat
  end.
Proof.
  unfold getModelInfo. destruct (currentModel st) as [m|]; [|done].
  rewrite fold_visit. cbn [info_animations info_bones info_meshes app].
  split; [by eexists|]. split; [done|]. split; [done|]. split; [done|].
  rewrite length_fmap. induction (skinned nodes) as [|[n bs] l IH]; [cbn; lia|].
  cbn [fmap list_fmap concat length snd]. rewrite length_app, length_take.
  cbn [fmap] in IH. lia.
Qed.

(** * Further properties: the test animation *)

(** X24.  On a well-formed state with a current model and a mixer,
    [applyTestAnimation] makes a new action for a new clip "TestMove" of
    two seconds and starts it, set to repeat.  The registry, the active
    action, the model and every other action are as before: the new action
    is playing without being registered or active, so [stop()] does not
    stop it. *)
Theorem applyTestAnimation_starts_unregistered_action st model mx :
  wf st → currentModel st = Some model → mixer st = Some mx →
  ∃ st' a,
    applyTestAnimation st = inr st' ∧
    heap st !! next_handle st = None ∧
    heap st' !! next_handle st = Some a ∧
    isRunning a = true ∧ loop a = LoopRepeat ∧ clampWhenFinished a = false ∧
    clip_name (act_clip a) = "TestMove" ∧ clip_duration (act_clip a) = 2 ∧
    actions st' = actions st ∧ activeAction st' = activeAction st ∧
    currentModel st' = currentModel st ∧
    (∀ h', h' ≠ next_handle st → heap st' !! h' = heap st !! h') ∧
    heap (stop st') !! next_handle st = Some a ∧
    ¬ no_stray_playing st'.
Proof.
  intros Hwf Hc Hm.
  destruct (wf_fresh_clip st mx Hwf Hm) as [Hmiss Hroot].
  destruct Hwf as (_ & Hheap & Hacts & Hact).
  assert (Hnh : heap st !! next_handle st = None).
  { destruct (heap st !! next_handle st) eqn:E; [|done].
    apply Hheap in E. simpl in E. lia. }
  assert (Hnact : activeAction st ≠ Some (next_handle st)).
  { intros E. rewrite E in Hact. destruct Hact as [? ?]. congruence. }
  assert (Hnreg : next_handle st ∉ registered_handles (actions st)).
  { rewrite elem_of_registered_handles. intros [n Hn].
    destruct (Hacts _ _ Hn) as [? ?]. congruence. }
  unfold applyTestAnimation. rewrite Hc, Hm.
  rewrite Hroot by (by eexists). cbn [negb].
  set (clip := mkClip (next_uuid st) "TestMove" 2).
  rewrite clipAction_new by done.
  set (s := on_action action_play _ _).
  set (a := action_play (set_loop LoopRepeat (new_action (mixer_id mx) clip))).
  assert (Fh : heap s = <[next_handle st := a]> (heap st)).
  { assert (E : heap s
                = alter action_play (next_handle st)
                    (alter (set_loop LoopRepeat) (next_handle st)
                       (<[next_handle st := new_action (mixer_id mx) clip]>
                          (heap st)))) by reflexivity.
    rewrite E. by rewrite !alter_insert_eq. }
  assert (Fa : actions s = actions st) by reflexivity.
  assert (Fact : activeAction s = activeAction st) by reflexivity.
  assert (Fc : currentModel s = currentModel st) by reflexivity.
  clearbody s.
  exists s, a. split; [done|]. split; [done|].
  split; [by rewrite Fh, lookup_insert_eq|].
  split; [done|]. split; [done|]. split; [done|]. split; [done|]. split; [done|].
  split; [done|]. split; [done|]. split; [by rewrite Fc|].
  split; [intros h' Hne; by rewrite Fh, lookup_insert_ne|].
  split.
  - unfold stop, stop_active. rewrite Fact.
    destruct (activeAction st) as [k|] eqn:Ek.
    + cbn. rewrite lookup_alter_ne by congruence.
      by rewrite Fh, lookup_insert_eq.
    + by rewrite Fh, lookup_insert_eq.
  - intros Hstray.
    assert (Ha : heap s !! next_handle st = Some a)
      by by rewrite Fh, lookup_insert_eq.
    destruct (Hstray _ _ Ha eq_refl) as [Hin|Hin].
    + by rewrite Fa in Hin.
    + by rewrite Fact in Hin.
Qed.

Lemma state_loaded_mixer :
  ∃ mx, mixer state_loaded = Some mx.
Proof. eexists. vm_compute. reflexivity. Qed.

Lemma applyTestAnimation_witness :
  wf state_loaded ∧ is_Some (currentModel state_loaded) ∧
  is_Some (mixer state_loaded) ∧
  ∃ st', applyTestAnimation state_loaded = inr st' ∧ ¬ no_stray_playing st'.
Proof.
  destruct (currentModel state_loaded) as [model|] eqn:Ec; [|discriminate Ec].
  destruct (mixer state_loaded) as [mx|] eqn:Em; [|discriminate Em].
  destruct (applyTestAnimation_starts_unregistered_action state_loaded model mx
              state_loaded_wf Ec Em)
    as (st' & a & H1 & _ & _ & _ & _ & _ & _ & _ & _ & _ & _ & _ & _ & H2).
  exact (conj state_loaded_wf (conj (mk_is_Some _ _ eq_refl)
    (conj (mk_is_Some _ _ eq_refl) (ex_intro _ st' (conj H1 H2))))).
Defined.
